(** * Mittens: a shallow embedding of the ImageJ script [Mittens_2.0.js]

    The script is glue code over the ImageJ host: every function is a
    sequence of host commands on shared, mutable [ImagePlus] objects.  The
    embedding therefore has a host layer and a script layer.

    - [Module ImageJ]: a model of the part of the host the script calls.
      Image objects live in a store indexed by reference; the window
      manager's current image and the message dialogs shown so far are part
      of the host state.  Host commands are modelled by the effect the
      script's own comments ascribe to them.  Sample arithmetic that the
      host performs with floating point scaling (narrowing conversions,
      colour compositing) is left as a parameter, [PixelOps].
    - [Module Mittens]: the script's globals and functions, translated
      statement by statement into a state-and-exception monad over the host
      state.
    - [Module Mittens1]: the functions of version 1.0 of the script, which
      knows no time series, translated in the same way over the same state.

    JavaScript numbers holding image extents are modelled as unbounded
    naturals, calibration values as binary64 floats, strings as sequences
    of code units below 256.

    The definitions come first: the modules, the vocabulary of the
    statements, and sample data.  [Section Verification] then proves the
    properties of the channel extractor ([duplicateSplitInvert]), the
    merger ([createMergeOnly]), the channel provider
    ([getChannelImage16OnTheFly]), the alignment workflow
    ([alignSelectedImages]), the montage assembler
    ([stackImagesHorizontally]) and the window clean-up
    ([closeAllExceptOriginal]), for every choice of [PixelOps], and relates
    the functions of version 2.0 to those of version 1.0 where no time
    series is in play; the last parts instantiate the properties on the
    sample data. *)

From Stdlib Require Import ZArith Floats Lia Ascii.
From stdpp Require Import base list strings pretty.

Module ImageJ.

(** ** Calibration *)

Record Calibration := mkCalibration {
  pixelWidth : float;
  pixelHeight : float;
  calUnit : string;          (* the script's [cal.unit] *)
  frameInterval : float;
  fps : float
}.

(** ** Image processors: one plane of samples *)

Record ImageProcessor := mkIP {
  ipWidth : nat;
  ipHeight : nat;
  ipBitDepth : Z;            (* 8, 16, 24 (packed colour) or 32 *)
  ipPixels : list Z          (* row-major, [ipWidth * ipHeight] samples *)
}.

(** [ip.getPixel(x, y)]: 0 outside the plane. *)
Definition getPixel (ip : ImageProcessor) (x y : nat) : Z :=
  if (x <? ipWidth ip) && (y <? ipHeight ip)
  then nth (y * ipWidth ip + x) (ipPixels ip) 0%Z
  else 0%Z.

(** Sample arithmetic of the host that this development does not fix:
    [convertSample from to plane v] is the sample [v] of [plane] after a
    bit-depth conversion; [compositeSample vs] is the packed colour the
    host displays for the channel samples [vs]; [invertSampleWide] is the
    Invert command on depths other than 8, which depends on the data
    range. *)
Class PixelOps := {
  convertSample : Z -> Z -> list Z -> Z -> Z;
  compositeSample : list Z -> Z;
  invertSampleWide : Z -> list Z -> Z -> Z
}.

Section Pixels.
Context `{PixelOps}.

Definition convertPixels (from to : Z) (px : list Z) : list Z :=
  if (from =? to)%Z then px else map (convertSample from to px) px.

(** [ip.convertToByte / convertToShort / convertToRGB]: a new processor of
    the same extent. *)
Definition convertTo (d : Z) (p : ImageProcessor) : ImageProcessor :=
  mkIP (ipWidth p) (ipHeight p) d (convertPixels (ipBitDepth p) d (ipPixels p)).

Definition convertToRGB (p : ImageProcessor) : ImageProcessor := convertTo 24 p.

(** [dst.insert(src, xloc, yloc)]: [src] is first converted to the type of
    [dst], then its samples are copied into [dst] with the upper left
    corner at [(xloc, yloc)], clipped to the bounds of [dst]. *)
Definition ip_insert (dst src : ImageProcessor) (xloc yloc : nat) : ImageProcessor :=
  let s := convertTo (ipBitDepth dst) src in
  let w := ipWidth dst in
  mkIP w (ipHeight dst) (ipBitDepth dst)
    (map (fun idx =>
            let x := idx mod w in
            let y := idx / w in
            if (xloc <=? x) && (x <? xloc + ipWidth s) &&
               (yloc <=? y) && (y <? yloc + ipHeight s)
            then nth ((y - yloc) * ipWidth s + (x - xloc)) (ipPixels s) 0%Z
            else nth idx (ipPixels dst) 0%Z)
         (seq 0 (w * ipHeight dst))).

(** Modelled from the spec: the host's Invert command, which the script
    calls by name and whose code is not part of the script, on 8-bit
    samples: the largest sample value minus the sample,
    [(byte)(255 - (v & 255))], read back as an unsigned sample. *)
Definition invert8 (v : Z) : Z := Z.land (255 - Z.land v 255) 255.

Definition invertPixels (depth : Z) (px : list Z) : list Z :=
  if (depth =? 8)%Z then map invert8 px else map (invertSampleWide depth px) px.

(** One colour plane out of the planes of the channels of a composite. *)
Definition compositePlanes (planes : list (list Z)) : list Z :=
  map (fun k => compositeSample (map (fun p => nth k p 0%Z) planes))
      (seq 0 (length (hd [] planes))).

End Pixels.

(** The image types the script asks [IJ.createImage] for. *)
Inductive ImageType :=
  | TypeRGB            (* "RGB" *)
  | TypeRGBColor       (* "RGB Color" *)
  | Type16bitBlack     (* "16-bit black" *)
  | Type8bitBlack.     (* "8-bit black" *)

Definition typeDepth (t : ImageType) : Z :=
  match t with
  | TypeRGB | TypeRGBColor => 24
  | Type16bitBlack => 16
  | Type8bitBlack => 8
  end.

(** Without a fill keyword the host fills a new image with white. *)
Definition typeFill (t : ImageType) : Z :=
  match t with
  | TypeRGB | TypeRGBColor => 16777215
  | Type16bitBlack | Type8bitBlack => 0
  end.

Definition blankPixels (t : ImageType) (w h : nat) : list Z :=
  replicate (w * h) (typeFill t).

(** ** Image objects *)

Record ImagePlus := mkImagePlus {
  title : string;
  width : nat;
  height : nat;
  bitDepth : Z;
  nChannels : nat;
  nSlices : nat;
  nFrames : nat;
  stack : list (list Z);     (* planes in channel, slice, frame order *)
  currentSlice : nat;        (* 1-based index into [stack] *)
  calibration : Calibration;
  visible : bool;            (* has a window *)
  changes : bool;            (* closing asks to save *)
  closed : bool
}.

Definition set_title (s : string) (i : ImagePlus) : ImagePlus :=
  mkImagePlus s (width i) (height i) (bitDepth i) (nChannels i) (nSlices i)
    (nFrames i) (stack i) (currentSlice i) (calibration i) (visible i)
    (changes i) (closed i).

Definition set_pixels (d : Z) (st : list (list Z)) (i : ImagePlus) : ImagePlus :=
  mkImagePlus (title i) (width i) (height i) d (nChannels i) (nSlices i)
    (nFrames i) st (currentSlice i) (calibration i) (visible i)
    (changes i) (closed i).

Definition set_dimensions (c z t : nat) (i : ImagePlus) : ImagePlus :=
  mkImagePlus (title i) (width i) (height i) (bitDepth i) c z t (stack i)
    (currentSlice i) (calibration i) (visible i) (changes i) (closed i).

Definition set_currentSlice (n : nat) (i : ImagePlus) : ImagePlus :=
  mkImagePlus (title i) (width i) (height i) (bitDepth i) (nChannels i)
    (nSlices i) (nFrames i) (stack i) n (calibration i) (visible i)
    (changes i) (closed i).

Definition set_calibration (c : Calibration) (i : ImagePlus) : ImagePlus :=
  mkImagePlus (title i) (width i) (height i) (bitDepth i) (nChannels i)
    (nSlices i) (nFrames i) (stack i) (currentSlice i) c (visible i)
    (changes i) (closed i).

Definition set_visible (b : bool) (i : ImagePlus) : ImagePlus :=
  mkImagePlus (title i) (width i) (height i) (bitDepth i) (nChannels i)
    (nSlices i) (nFrames i) (stack i) (currentSlice i) (calibration i) b
    (changes i) (closed i).

Definition set_changes (b : bool) (i : ImagePlus) : ImagePlus :=
  mkImagePlus (title i) (width i) (height i) (bitDepth i) (nChannels i)
    (nSlices i) (nFrames i) (stack i) (currentSlice i) (calibration i)
    (visible i) b (closed i).

Definition set_closed (b : bool) (i : ImagePlus) : ImagePlus :=
  mkImagePlus (title i) (width i) (height i) (bitDepth i) (nChannels i)
    (nSlices i) (nFrames i) (stack i) (currentSlice i) (calibration i)
    (visible i) (changes i) b.

(** [imp.getProcessor()]: the plane at the current stack position. *)
Definition processorOf (i : ImagePlus) : ImageProcessor :=
  mkIP (width i) (height i) (bitDepth i) (nth (currentSlice i - 1) (stack i) []).

(** [imp.setSlice(n)]: ignored unless [1 <= n <= stack size]. *)
Definition setSliceOf (n : nat) (i : ImagePlus) : ImagePlus :=
  if (1 <=? n) && (n <=? length (stack i)) then set_currentSlice n i else i.

(** The plane of channel [c], slice [z], frame [t] (all 0-based). *)
Definition plane (i : ImagePlus) (c z t : nat) : list Z :=
  nth ((t * nSlices i + z) * nChannels i + c) (stack i) [].

Definition subStack (i : ImagePlus) (cs zs ts : list nat) : list (list Z) :=
  flat_map (fun t => flat_map (fun z => map (fun c => plane i c z t) cs) zs) ts.

(** ** References and host state *)

(** A reference to an image object is its index in the host's store. *)
Abbreviation ImageId := nat.

(** What a script variable that may hold an image holds. *)
Inductive jsval :=
  | Undefined
  | Null
  | Ref (id : ImageId).

(** [!v] is false exactly for an object. *)
Definition truthy (v : jsval) : bool :=
  match v with Ref _ => true | _ => false end.

(** [v == null]: loose equality, true for [null] and [undefined]. *)
Definition isNullish (v : jsval) : bool := negb (truthy v).

Record Host := mkHost {
  heap : list ImagePlus;              (* the image objects; a reference is an index *)
  currentImage : option ImageId;      (* the window manager's current image *)
  messages : list (string * string)   (* message dialogs shown, oldest first *)
}.

End ImageJ.

Module Mittens.
Import ImageJ.

(** ** The script's state *)

(** The script's global image references and its merge counter. *)
Record Globals := mkGlobals {
  originalImage : jsval;
  duplicatedCroppedImage : jsval;
  splitInvertedChannels : list jsval;           (* [new Array(4)] *)
  splitInvertedChannelsFullStack : list jsval;  (* [new Array(4)] *)
  finalAlignedImage : jsval;
  mergeCount : nat   (* a number: 1 at first, then only incremented *)
}.

(** What the dialog's widgets currently show. *)
Record UI := mkUI {
  mergeCheckboxes : list bool;
  alignmentChoices : list string;
  useFramesCheckbox : bool
}.

Record World := mkWorld {
  host : Host;
  globals : Globals;
  ui : UI
}.

Definition initialGlobals : Globals :=
  mkGlobals Null Null (replicate 4 Undefined) (replicate 4 Undefined) Null 1.

Definition with_heap (f : list ImagePlus -> list ImagePlus) (w : World) : World :=
  mkWorld (mkHost (f (heap (host w))) (currentImage (host w)) (messages (host w)))
          (globals w) (ui w).

Definition with_currentImage (c : option ImageId) (w : World) : World :=
  mkWorld (mkHost (heap (host w)) c (messages (host w))) (globals w) (ui w).

Definition with_message (m : string * string) (w : World) : World :=
  mkWorld (mkHost (heap (host w)) (currentImage (host w)) (messages (host w) ++ [m]))
          (globals w) (ui w).

Definition with_globals (f : Globals -> Globals) (w : World) : World :=
  mkWorld (host w) (f (globals w)) (ui w).

Definition set_originalImage (v : jsval) (g : Globals) : Globals :=
  mkGlobals v (duplicatedCroppedImage g) (splitInvertedChannels g)
    (splitInvertedChannelsFullStack g) (finalAlignedImage g) (mergeCount g).

Definition set_duplicatedCroppedImage (v : jsval) (g : Globals) : Globals :=
  mkGlobals (originalImage g) v (splitInvertedChannels g)
    (splitInvertedChannelsFullStack g) (finalAlignedImage g) (mergeCount g).

Definition set_splitInvertedChannels (a : list jsval) (g : Globals) : Globals :=
  mkGlobals (originalImage g) (duplicatedCroppedImage g) a
    (splitInvertedChannelsFullStack g) (finalAlignedImage g) (mergeCount g).

Definition set_splitInvertedChannelsFullStack (a : list jsval) (g : Globals) : Globals :=
  mkGlobals (originalImage g) (duplicatedCroppedImage g) (splitInvertedChannels g)
    a (finalAlignedImage g) (mergeCount g).

Definition set_finalAlignedImage (v : jsval) (g : Globals) : Globals :=
  mkGlobals (originalImage g) (duplicatedCroppedImage g) (splitInvertedChannels g)
    (splitInvertedChannelsFullStack g) v (mergeCount g).

Definition set_mergeCount (n : nat) (g : Globals) : Globals :=
  mkGlobals (originalImage g) (duplicatedCroppedImage g) (splitInvertedChannels g)
    (splitInvertedChannelsFullStack g) (finalAlignedImage g) n.

(** ** The monad: state passing with exceptions

    A thrown exception keeps the state reached so far, as in JavaScript. *)

Inductive Outcome (A : Type) :=
  | Ok (a : A)
  | Thrown (e : string).
Arguments Ok {A} a.
Arguments Thrown {A} e.

Definition M (A : Type) : Type := World -> Outcome A * World.

Definition ret {A} (a : A) : M A := fun w => (Ok a, w).

Definition bind {A B} (c : M A) (k : A -> M B) : M B :=
  fun w => match c w with
           | (Ok a, w1) => k a w1
           | (Thrown e, w1) => (Thrown e, w1)
           end.

Definition throw {A} (e : string) : M A := fun w => (Thrown e, w).

(** [try { c } catch (error) { h }] *)
Definition catch {A} (c : M A) (h : string -> M A) : M A :=
  fun w => match c w with
           | (Ok a, w1) => (Ok a, w1)
           | (Thrown e, w1) => h e w1
           end.

Definition gets {A} (f : World -> A) : M A := fun w => (Ok (f w), w).

Definition modify (f : World -> World) : M unit := fun w => (Ok tt, f w).

Declare Scope script_scope.
Delimit Scope script_scope with script.
Notation "x <- c ;; k" := (bind c (fun x => k))
  (at level 100, c at next level, k at level 200, right associativity) : script_scope.
Notation "c ;; k" := (bind c (fun _ => k))
  (at level 100, k at level 200, right associativity) : script_scope.
Local Open Scope script_scope.

(** [for (x of l) body] *)
Fixpoint forEach {A} (l : list A) (body : A -> M unit) : M unit :=
  match l with
  | [] => ret tt
  | a :: l' => body a ;; forEach l' body
  end.

(** A loop that carries a local variable. *)
Fixpoint foldM {A S} (l : list A) (s : S) (body : S -> A -> M S) : M S :=
  match l with
  | [] => ret s
  | a :: l' => s1 <- body s a ;; foldM l' s1 body
  end.

(** ** Java and JavaScript library functions *)

(** [a[i] = v] on a JavaScript array: writing past the end extends it. *)
Definition arraySet (i : nat) (v : jsval) (a : list jsval) : list jsval :=
  if i <? length a then <[i := v]> a
  else a ++ replicate (i - length a) Undefined ++ [v].

(** [a[i]]: [undefined] past the end. *)
Definition arrayGet (i : nat) (a : list jsval) : jsval :=
  default Undefined (a !! i).

Definition isStrWhiteSpace (c : ascii) : bool :=
  let n := nat_of_ascii c in
  (n =? 9) || (n =? 10) || (n =? 11) || (n =? 12) || (n =? 13) ||
  (n =? 32) || (n =? 160).

Fixpoint skipWhiteSpace (s : string) : string :=
  match s with
  | String c s' => if isStrWhiteSpace c then skipWhiteSpace s' else s
  | EmptyString => s
  end.

Definition digitValue (c : ascii) : option Z :=
  let n := nat_of_ascii c in
  if (48 <=? n) && (n <=? 57) then Some (Z.of_nat (n - 48)) else None.

(** The value of the longest prefix of decimal digits; [None] when there
    is no digit. *)
Fixpoint parseDigits (s : string) (acc : option Z) : option Z :=
  match s with
  | String c s' =>
      match digitValue c with
      | Some d => parseDigits s' (Some (10 * default 0 acc + d))%Z
      | None => acc
      end
  | EmptyString => acc
  end.

(** [parseInt(s, 10)]; [None] is NaN. *)
Definition parseInt10 (s : string) : option Z :=
  let s1 := skipWhiteSpace s in
  let '(negative, s2) :=
    match s1 with
    | String "-"%char r => (true, r)
    | String "+"%char r => (false, r)
    | _ => (false, s1)
    end in
  match parseDigits s2 None with
  | Some n => Some (if negative then (- n)%Z else n)
  | None => None
  end.

(** [s.startsWith(p)] *)
Fixpoint startsWith (p s : string) : bool :=
  match p, s with
  | EmptyString, _ => true
  | String a p', String b s' => Ascii.eqb a b && startsWith p' s'
  | String _ _, EmptyString => false
  end.

(** [s.substring(n)] *)
Fixpoint substringFrom (n : nat) (s : string) : string :=
  match n, s with
  | O, _ => s
  | S n', String _ s' => substringFrom n' s'
  | S _, EmptyString => EmptyString
  end.

(** [a.join(sep)] *)
Fixpoint join (sep : string) (a : list string) : string :=
  match a with
  | [] => EmptyString
  | [s] => s
  | s :: rest => s +:+ sep +:+ join sep rest
  end.

(** [n++] on a variable that holds the natural [n]: the value it holds
    afterwards.  A JavaScript number is a binary64 float: it holds every
    integer up to 2^53 and every second one from there up to 2^54, and the
    sum [n + 1] is rounded to the nearest number it holds, a tie going to
    the even significand.  So a counter goes up by one while it is below
    2^53, and stays at 2^53 once it has got there. *)
Definition increment (n : nat) : nat :=
  if (Z.of_nat n <? 2 ^ 53)%Z then n + 1
  else if (Z.of_nat n <? 2 ^ 54)%Z
       then if Z.even (Z.of_nat n / 2) then n else n + 2
       else n.

#[global] Arguments increment : simpl never.

(** [Math.max.apply(null, a)] for a non-empty [a]; [None] stands for the
    [-Infinity] of the empty array. *)
Definition Math_max (a : list nat) : option nat :=
  match a with
  | [] => None
  | x :: rest => Some (fold_left Nat.max rest x)
  end.

(** ** Host commands *)

Section Script.
Context `{PixelOps}.

(** Following a reference.  References are created by the host only, so
    the failure branch is never taken from a well-formed state. *)
Definition getImp (i : ImageId) : M ImagePlus :=
  fun w => match heap (host w) !! i with
           | Some img => (Ok img, w)
           | None => (Thrown "dangling reference", w)
           end.

Definition updImp (i : ImageId) (f : ImagePlus -> ImagePlus) : M unit :=
  _ <- getImp i ;; modify (with_heap (alter f i)).

Definition newImp (img : ImagePlus) : M ImageId :=
  fun w => (Ok (length (heap (host w))), with_heap (fun h => h ++ [img]) w).

Definition newImps (imgs : list ImagePlus) : M (list ImageId) :=
  fun w => (Ok (seq (length (heap (host w))) (length imgs)),
            with_heap (fun h => h ++ imgs) w).

(** Calling a method on [null] or [undefined] throws. *)
Definition deref (v : jsval) : M ImageId :=
  match v with
  | Ref i => ret i
  | _ => throw "TypeError"
  end.

Definition IJ_showMessage (t m : string) : M unit := modify (with_message (t, m)).

(** [IJ.getImage()]: the current image; without one the host reports it
    and aborts the script. *)
Definition IJ_getImage : M ImageId :=
  c <- gets (fun w => currentImage (host w)) ;;
  match c with
  | Some i => ret i
  | None => IJ_showMessage "No Image" "There are no images open." ;;
            throw "Macro canceled"
  end.

Fixpoint findWindow (t : string) (h : list ImagePlus) (i : ImageId) : option ImageId :=
  match h with
  | [] => None
  | img :: h' =>
      if visible img && String.eqb (title img) t then Some i
      else findWindow t h' (S i)
  end.

(** [IJ.selectWindow(title)]: activates the first window with that title;
    without one the host reports it and aborts the script. *)
Definition IJ_selectWindow (t : string) : M unit :=
  h <- gets (fun w => heap (host w)) ;;
  match findWindow t h 0 with
  | Some i => modify (with_currentImage (Some i))
  | None => IJ_showMessage "Macro Error" (t +:+ " not found") ;;
            throw "Macro canceled"
  end.

(** When the window of the current image goes away the window manager
    picks another one; which one is not modelled. *)
Definition dropCurrent (i : ImageId) : M unit :=
  modify (fun w => if decide (currentImage (host w) = Some i)
                   then with_currentImage None w else w).

Definition imp_getTitle (i : ImageId) : M string :=
  img <- getImp i ;; ret (title img).

Definition imp_setTitle (i : ImageId) (t : string) : M unit := updImp i (set_title t).

Definition imp_setSlice (i : ImageId) (n : nat) : M unit := updImp i (setSliceOf n).

(** [imp.show()]: does nothing when the image has a window already. *)
Definition imp_show (i : ImageId) : M unit :=
  img <- getImp i ;;
  if visible img then ret tt
  else updImp i (fun img => set_closed false (set_visible true img)) ;;
       modify (with_currentImage (Some i)).

Definition imp_hide (i : ImageId) : M unit :=
  updImp i (set_visible false) ;; dropCurrent i.

(** [imp.changes = b] *)
Definition imp_setChanges (i : ImageId) (b : bool) : M unit := updImp i (set_changes b).

Definition imp_close (i : ImageId) : M unit :=
  updImp i (fun img => set_closed true (set_visible false img)) ;; dropCurrent i.

(** The option strings the script passes to the Duplicate command. *)
Inductive DuplicateOptions :=
  | DupStack                              (* "duplicate" *)
  | DupFrames (nF : nat)                  (* "duplicate frames=1-nF" *)
  | DupSliceFrames (z : Z) (nF : nat)     (* "duplicate slices=z frames=1-nF" *)
  | DupSliceUse (s : nat).                (* "duplicate slices=s use" *)

Definition duplicateSlices (opt : DuplicateOptions) (i : ImagePlus) : nat :=
  match opt with
  | DupStack | DupFrames _ => nSlices i
  | DupSliceFrames _ _ | DupSliceUse _ => 1
  end.

Definition duplicateFrames (opt : DuplicateOptions) (i : ImagePlus) : nat :=
  match opt with
  | DupStack => nFrames i
  | DupFrames nF | DupSliceFrames _ nF => nF
  | DupSliceUse _ => 1
  end.

Definition duplicateStack (opt : DuplicateOptions) (i : ImagePlus) : list (list Z) :=
  let nC := nChannels i in
  let nZ := nSlices i in
  match opt with
  | DupStack => stack i
  | DupFrames nF => subStack i (seq 0 nC) (seq 0 nZ) (seq 0 nF)
  | DupSliceFrames z nF => subStack i (seq 0 nC) [Z.to_nat (z - 1)] (seq 0 nF)
  | DupSliceUse s =>
      subStack i (seq 0 nC) [((s - 1) / nC) mod nZ] [(s - 1) / (nC * nZ)]
  end.

(** The copy keeps all channels; it has a window and no unsaved changes. *)
Definition duplicateOf (opt : DuplicateOptions) (newTitle : option string)
    (i : ImagePlus) : ImagePlus :=
  mkImagePlus (default (title i +:+ "-1") newTitle) (width i) (height i)
    (bitDepth i) (nChannels i) (duplicateSlices opt i) (duplicateFrames opt i)
    (duplicateStack opt i) 1 (calibration i) true false false.

(** [IJ.run(imp, "Duplicate...", options)]: the copy gets a window and is
    the current image afterwards. *)
Definition IJ_run_Duplicate (src : ImageId) (opt : DuplicateOptions)
    (newTitle : option string) : M unit :=
  img <- getImp src ;;
  d <- newImp (duplicateOf opt newTitle img) ;;
  modify (with_currentImage (Some d)).

(** The number of images the channel splitter makes of an image: the three
    colour components of a packed-colour image, else its channels. *)
Definition channelCount (i : ImagePlus) : nat :=
  if (bitDepth i =? 24)%Z then 3 else nChannels i.

Definition rgbComponent (k : nat) (v : Z) : Z :=
  Z.land (Z.shiftr v (8 * Z.of_nat (2 - k))) 255.

Definition channelsOf (i : ImagePlus) : list ImagePlus :=
  if (bitDepth i =? 24)%Z then
    map (fun k =>
           mkImagePlus (title i +:+ "-" +:+ pretty k) (width i) (height i) 8
             1 (nSlices i) (nFrames i) (map (map (rgbComponent k)) (stack i))
             1 (calibration i) false false false)
        (seq 0 3)
  else
    map (fun c =>
           mkImagePlus ("C" +:+ pretty (c + 1) +:+ "-" +:+ title i)
             (width i) (height i) (bitDepth i) 1 (nSlices i) (nFrames i)
             (subStack i [c] (seq 0 (nSlices i)) (seq 0 (nFrames i)))
             1 (calibration i) false false false)
        (seq 0 (nChannels i)).

(** [ChannelSplitter.split(imp)]: new images without windows; [imp] is
    left as it is. *)
Definition ChannelSplitter_split (src : ImageId) : M (list ImageId) :=
  img <- getImp src ;; newImps (channelsOf img).

(** [IJ.run(imp, "8-bit", "")] and [IJ.run(imp, "16-bit", "")] *)
Definition IJ_run_convert (d : Z) (i : ImageId) : M unit :=
  updImp i (fun img =>
    set_changes true
      (set_pixels d (map (convertPixels (bitDepth img) d) (stack img)) img)).

(** [IJ.run(imp, "Grays", "")]: a display lookup table; samples stay. *)
Definition IJ_run_Grays (i : ImageId) : M unit := updImp i (fun img => img).

(** [IJ.run(imp, "Invert", "")] inverts the current plane,
    [IJ.run(imp, "Invert", "stack")] every plane. *)
Definition IJ_run_Invert (wholeStack : bool) (i : ImageId) : M unit :=
  updImp i (fun img =>
    let inv := invertPixels (bitDepth img) in
    set_changes true
      (set_pixels (bitDepth img)
         (if wholeStack then map inv (stack img)
          else alter inv (currentSlice img - 1) (stack img)) img)).

Definition mergedOf (first : ImagePlus) (imgs : list ImagePlus) : ImagePlus :=
  mkImagePlus "Composite" (width first) (height first) (bitDepth first)
    (length imgs) (nSlices first) (nFrames first)
    (flat_map (fun t =>
       flat_map (fun z => map (fun img => plane img 0 z t) imgs)
                (seq 0 (nSlices first)))
       (seq 0 (nFrames first)))
    1 (calibration first) false false false.

Fixpoint mapM {A B} (f : A -> M B) (l : list A) : M (list B) :=
  match l with
  | [] => ret []
  | a :: l' => b <- f a ;; bs <- mapM f l' ;; ret (b :: bs)
  end.

(** [RGBStackMerge.mergeChannels(images, keepSourceImages)]: a new
    composite without a window; the sources are closed unless kept. *)
Definition RGBStackMerge_mergeChannels (images : list ImageId) (keep : bool)
    : M ImageId :=
  imgs <- mapM getImp images ;;
  match imgs with
  | [] => throw "NullPointerException"
  | first :: _ =>
      m <- newImp (mergedOf first imgs) ;;
      (if keep then ret tt
       else forEach images (fun i => imp_setChanges i false ;; imp_close i)) ;;
      ret m
  end.

Definition rgbColorOf (img : ImagePlus) : ImagePlus :=
  set_changes true
    (set_dimensions 1 (nSlices img) (nFrames img)
       (set_pixels 24
          (flat_map (fun t =>
             map (fun z =>
                    compositePlanes
                      (map (fun c => plane img c z t) (seq 0 (nChannels img))))
                 (seq 0 (nSlices img)))
             (seq 0 (nFrames img)))
          img)).

(** [IJ.run(imp, "RGB Color", "")]: the channels of every position become
    one packed-colour plane. *)
Definition IJ_run_RGBColor (i : ImageId) : M unit := updImp i rgbColorOf.

Definition defaultCalibration : Calibration :=
  mkCalibration 1 1 "pixel" 0 0.

(** [IJ.createImage(title, type, width, height, 1)]: no window. *)
Definition IJ_createImage (t : string) (ty : ImageType) (w h : nat) : M ImageId :=
  newImp (mkImagePlus t w h (typeDepth ty) 1 1 1 [blankPixels ty w h] 1
            defaultCalibration false false false).

(** [new ImagePlus(title, imageStack)] for a stack of [n] blank planes of
    type [ty]: the planes count as slices until [setDimensions]. *)
Definition new_ImagePlus (t : string) (ty : ImageType) (w h n : nat) : M ImageId :=
  newImp (mkImagePlus t w h (typeDepth ty) 1 n 1
            (replicate n (blankPixels ty w h)) 1
            defaultCalibration false false false).

Definition imp_setDimensions (i : ImageId) (c z t : nat) : M unit :=
  updImp i (set_dimensions c z t).

(** A processor obtained from an image shares the pixel array of the plane
    it was obtained for: it is modelled as the image and the plane index. *)
Definition ProcessorRef : Type := ImageId * nat.

Definition imp_getProcessor (i : ImageId) : M ProcessorRef :=
  img <- getImp i ;; ret (i, currentSlice img - 1).

(** Reading a processor's samples, as [duplicate()] and the readers
    [convertToRGB()] and [insert] do. *)
Definition ip_read (r : ProcessorRef) : M ImageProcessor :=
  img <- getImp (fst r) ;;
  ret (mkIP (width img) (height img) (bitDepth img) (nth (snd r) (stack img) [])).

(** [ip.insert(src, xloc, yloc)] writes through to the image's plane. *)
Definition ip_insertInto (r : ProcessorRef) (src : ImageProcessor)
    (xloc yloc : nat) : M unit :=
  dst <- ip_read r ;;
  updImp (fst r) (fun img =>
    set_pixels (bitDepth img)
      (<[snd r := ipPixels (ip_insert dst src xloc yloc)]> (stack img)) img).

Definition updCalibration (i : ImageId) (f : Calibration -> Calibration) : M unit :=
  updImp i (fun img => set_calibration (f (calibration img)) img).

Definition set_pixelWidth (v : float) (c : Calibration) : Calibration :=
  mkCalibration v (pixelHeight c) (calUnit c) (frameInterval c) (fps c).
Definition set_pixelHeight (v : float) (c : Calibration) : Calibration :=
  mkCalibration (pixelWidth c) v (calUnit c) (frameInterval c) (fps c).
Definition set_calUnit (v : string) (c : Calibration) : Calibration :=
  mkCalibration (pixelWidth c) (pixelHeight c) v (frameInterval c) (fps c).
Definition set_frameInterval (v : float) (c : Calibration) : Calibration :=
  mkCalibration (pixelWidth c) (pixelHeight c) (calUnit c) v (fps c).
Definition set_fps (v : float) (c : Calibration) : Calibration :=
  mkCalibration (pixelWidth c) (pixelHeight c) (calUnit c) (frameInterval c) v.

Definition imp_getCalibration (i : ImageId) : M Calibration :=
  img <- getImp i ;; ret (calibration img).

(** The script copies a calibration field by field: first
    [dstCal.pixelWidth = cal.pixelWidth], [pixelHeight] and [unit], *)
Definition copySpatial (cal : Calibration) (dst : ImageId) : M unit :=
  updCalibration dst (set_pixelWidth (pixelWidth cal)) ;;
  updCalibration dst (set_pixelHeight (pixelHeight cal)) ;;
  updCalibration dst (set_calUnit (calUnit cal)).

(** then, where it does, [dstCal.frameInterval = cal.frameInterval] and
    [fps]. *)
Definition copyTemporal (cal : Calibration) (dst : ImageId) : M unit :=
  updCalibration dst (set_frameInterval (frameInterval cal)) ;;
  updCalibration dst (set_fps (fps cal)).

(** ** The script *)

(** [Math.floor(((currentSlice - 1) % (nSlices * nChannels)) / nChannels + 1)] *)
Definition currentZOf (img : ImagePlus) : Z :=
  (Z.rem (Z.of_nat (currentSlice img) - 1)
         (Z.of_nat (nSlices img) * Z.of_nat (nChannels img))
   / Z.of_nat (nChannels img) + 1)%Z.

Definition storeChannel (i : nat) (v full : jsval) : M unit :=
  modify (with_globals (fun g =>
    set_splitInvertedChannels (arraySet i v (splitInvertedChannels g)) g)) ;;
  modify (with_globals (fun g =>
    set_splitInvertedChannelsFullStack
      (arraySet i full (splitInvertedChannelsFullStack g)) g)).

(** (2) Duplicate, split and invert the current slice or the full T-stack. *)
Definition duplicateSplitInvert : M unit :=
  orig <- IJ_getImage ;;
  modify (with_globals (set_originalImage (Ref orig))) ;;
  (* [if (!originalImage)]: [IJ.getImage] has returned an object *)
  useFrames <- gets (fun w => useFramesCheckbox (ui w)) ;;
  o <- getImp orig ;;
  let currentSlice := currentSlice o in
  let nFrames := nFrames o in
  let nSlices := nSlices o in
  let currentZ := currentZOf o in
  (if useFrames && (1 <? nFrames) then
     if 1 <? nSlices
     then IJ_run_Duplicate orig (DupSliceFrames currentZ nFrames) None
     else IJ_run_Duplicate orig (DupFrames nFrames) None
   else IJ_run_Duplicate orig (DupSliceUse currentSlice) None) ;;
  dup <- IJ_getImage ;;
  modify (with_globals (set_duplicatedCroppedImage (Ref dup))) ;;
  d <- getImp dup ;;
  (if useFrames && (1 <? ImageJ.nFrames d) then
     splitArr <- ChannelSplitter_split dup ;;
     forEach (zip (seq 0 4) splitArr) (fun '(i, c) =>
       IJ_run_convert 8 c ;;
       IJ_run_Grays c ;;
       IJ_run_Invert true c ;;
       t <- imp_getTitle orig ;;
       imp_setTitle c ("C" +:+ pretty (i + 1) +:+ "-TempForMerge_" +:+ t) ;;
       imp_show c ;;
       storeChannel i (Ref c) (Ref c)) ;;
     forEach (seq (length splitArr) (4 - length splitArr)) (fun k =>
       storeChannel k Null Null)
   else
     splitArr <- ChannelSplitter_split dup ;;
     forEach (zip (seq 0 4) splitArr) (fun '(i, c) =>
       IJ_run_convert 8 c ;;
       IJ_run_Grays c ;;
       IJ_run_Invert false c ;;
       t <- imp_getTitle dup ;;
       imp_setTitle c ("C" +:+ pretty (i + 1) +:+ "-TempForMerge_" +:+ t) ;;
       imp_show c ;;
       storeChannel i (Ref c) Null) ;;
     forEach (seq (length splitArr) (4 - length splitArr)) (fun k =>
       storeChannel k Null Null)) ;;
  t <- imp_getTitle orig ;;
  IJ_selectWindow t ;;
  imp_setSlice orig currentSlice ;;
  imp_show orig.

(** The channels whose checkbox is set and which exist:
    [checkboxes[j] && j < split.length && split[j] != null]. *)
Fixpoint selectChannels (j : nat) (checkboxes : list bool) (split : list ImageId)
    : list ImageId :=
  match checkboxes with
  | [] => []
  | b :: rest =>
      (if b then match split !! j with Some c => [c] | None => [] end else [])
      ++ selectChannels (S j) rest split
  end.

Definition convertSplitsTo16 (split : list ImageId) : M unit :=
  forEach split (fun s =>
    img <- getImp s ;;
    if negb (bitDepth img =? 16)%Z then IJ_run_convert 16 s else ret tt).

(** (3) Create the merged image.  The result is the script's return value:
    an image, [null], or [undefined] where the function body ends without
    a [return]. *)
Definition createMergeOnly (showImage : bool) : M jsval :=
  catch
    (orig <- gets (fun w => originalImage (globals w)) ;;
     if negb (truthy orig) then
       IJ_showMessage "Error" "Original image not available." ;;
       ret Null
     else
       original <- deref orig ;;
       checkboxes <- gets (fun w => mergeCheckboxes (ui w)) ;;
       useFrames <- gets (fun w => useFramesCheckbox (ui w)) ;;
       o <- getImp original ;;
       let currentSlice := currentSlice o in
       let nFrames := nFrames o in
       let nSlices := nSlices o in
       let currentZ := currentZOf o in
       count <- gets (fun w => mergeCount (globals w)) ;;
       let uniqueTitle := "C" +:+ "TempForMerge_" +:+ pretty count in
       modify (with_globals (set_mergeCount (increment count))) ;;
       (if useFrames && (1 <? nFrames) then
          if 1 <? nSlices
          then IJ_run_Duplicate original (DupSliceFrames currentZ nFrames) (Some uniqueTitle)
          else IJ_run_Duplicate original (DupFrames nFrames) (Some uniqueTitle)
        else IJ_run_Duplicate original (DupSliceUse currentSlice) (Some uniqueTitle)) ;;
       localDup <- IJ_getImage ;;
       d <- getImp localDup ;;
       if useFrames && (1 <? ImageJ.nFrames d) then
         splitStacks <- ChannelSplitter_split localDup ;;
         convertSplitsTo16 splitStacks ;;
         let toMerge := selectChannels 0 checkboxes splitStacks in
         if 0 <? length toMerge then
           mergedStack <- RGBStackMerge_mergeChannels toMerge false ;;
           IJ_run_RGBColor mergedStack ;;
           imp_setTitle mergedStack ("Merged_TimeStack_" +:+ uniqueTitle) ;;
           cal <- imp_getCalibration original ;;
           copySpatial cal mergedStack ;;
           copyTemporal cal mergedStack ;;
           imp_setSlice mergedStack 1 ;;
           (if showImage then imp_show mergedStack else imp_hide mergedStack) ;;
           imp_setChanges localDup false ;;
           imp_close localDup ;;
           forEach splitStacks (fun s => imp_setChanges s false ;; imp_close s) ;;
           ret (Ref mergedStack)
         else
           (* no [else] in the script: the function body ends here *)
           ret Undefined
       else
         localSplit <- ChannelSplitter_split localDup ;;
         if length localSplit <? 1 then
           IJ_showMessage "Error" "No channels available in the duplicated image." ;;
           ret Null
         else
           convertSplitsTo16 localSplit ;;
           let toMerge := selectChannels 0 checkboxes localSplit in
           if length toMerge =? 0 then
             imp_setChanges localDup false ;;
             imp_close localDup ;;
             forEach localSplit (fun s => imp_setChanges s false ;; imp_close s) ;;
             ret Null
           else
             mergedImage <- RGBStackMerge_mergeChannels toMerge false ;;
             IJ_run_RGBColor mergedImage ;;
             titles <- mapM imp_getTitle toMerge ;;
             imp_setTitle mergedImage ("Merged_" +:+ join "_" titles) ;;
             cal <- imp_getCalibration original ;;
             copySpatial cal mergedImage ;;
             (if showImage then imp_show mergedImage else imp_hide mergedImage) ;;
             imp_setChanges localDup false ;;
             forEach localSplit (fun s => imp_setChanges s false) ;;
             imp_close localDup ;;
             forEach localSplit (fun s => imp_close s) ;;
             ret (Ref mergedImage))
    (fun _ => ret Null).

(** (4) A hidden 16-bit copy of the channel named by [chStr]. *)
Definition getChannelImage16OnTheFly (chStr : string) : M jsval :=
  if negb (startsWith "Ch" chStr) then ret Null
  else
    channels <- gets (fun w => splitInvertedChannels (globals w)) ;;
    (* [idx] is NaN, negative or past the end *)
    match parseInt10 (substringFrom 2 chStr) with
    | None => ret Null
    | Some n =>
        let idx := (n - 1)%Z in
        if (idx <? 0)%Z || (Z.of_nat (length channels) <=? idx)%Z then ret Null
        else
          let visImp := arrayGet (Z.to_nat idx) channels in
          if isNullish visImp then ret Null
          else
            vis <- deref visImp ;;
            v <- getImp vis ;;
            IJ_selectWindow (title v) ;;
            useFrames <- gets (fun w => useFramesCheckbox (ui w)) ;;
            (if useFrames && (1 <? nFrames v)
             then IJ_run_Duplicate vis (DupFrames (nFrames v)) None
             else IJ_run_Duplicate vis DupStack None) ;;
            dup <- IJ_getImage ;;
            d <- getImp dup ;;
            (if negb (bitDepth d =? 16)%Z then IJ_run_convert 16 dup else ret tt) ;;
            imp_setTitle dup ("16bit_" +:+ title v) ;;
            original <- gets (fun w => originalImage (globals w)) ;;
            o <- deref original ;;
            cal <- imp_getCalibration o ;;
            copySpatial cal dup ;;
            d1 <- getImp dup ;;
            (if 1 <? nFrames d1 then copyTemporal cal dup else ret tt) ;;
            imp_hide dup ;;
            ret (Ref dup)
    end.

(** The loop that looks for time frames: [(hasTimeFrames, maxFrames)]. *)
Definition frameScan (imgs : list ImagePlus) : bool * nat :=
  fold_left (fun '(hasTimeFrames, maxFrames) img =>
               let nF := nFrames img in
               if 1 <? nF
               then (true, if maxFrames <? nF then nF else maxFrames)
               else (hasTimeFrames, maxFrames))
            imgs (false, 1).

(** The body of both copy loops after the processor [proc] of [img] has
    been chosen. *)
Definition pasteProcessor (anyRGB : bool) (ip : ProcessorRef) (img : ImagePlus)
    (proc : ImageProcessor) (xOffset : nat) : M nat :=
  let proc := if anyRGB && negb (bitDepth img =? 24)%Z
              then convertToRGB proc else proc in
  ip_insertInto ip proc xOffset 0 ;;
  ret (xOffset + width img).

(** (6) Stack an array of images horizontally. *)
Definition stackImagesHorizontally (images : list ImageId) : M jsval :=
  if length images <? 2 then
    IJ_showMessage "Stacking Error"
      "Need at least 2 images to create a horizontal stack." ;;
    ret Null
  else
    imgs <- mapM getImp images ;;
    let '(hasTimeFrames, maxFrames) := frameScan imgs in
    let width := fold_left (fun sum img => sum + ImageJ.width img) imgs 0 in
    match Math_max (map ImageJ.height imgs), imgs with
    | Some height, first :: _ =>
        let anyRGB := existsb (fun img => (bitDepth img =? 24)%Z) imgs in
        stack <-
          (if hasTimeFrames then
             stack <-
               (if anyRGB then
                  stack <- new_ImagePlus "Stacked" TypeRGB width height maxFrames ;;
                  imp_setDimensions stack 1 1 maxFrames ;;
                  ret stack
                else
                  let bd := bitDepth first in
                  stack <- new_ImagePlus "Stacked"
                             (if (bd =? 16)%Z then Type16bitBlack else Type8bitBlack)
                             width height maxFrames ;;
                  imp_setDimensions stack 1 1 maxFrames ;;
                  ret stack) ;;
             forEach (seq 1 maxFrames) (fun f =>
               imp_setSlice stack f ;;
               ip <- imp_getProcessor stack ;;
               _ <- foldM images 0 (fun xOffset i =>
                      img <- getImp i ;;
                      proc <-
                        (if f <=? nFrames img then
                           imp_setSlice i f ;;
                           r <- imp_getProcessor i ;; ip_read r
                         else if 0 <? nFrames img then
                           imp_setSlice i (nFrames img) ;;
                           r <- imp_getProcessor i ;; ip_read r
                         else
                           r <- imp_getProcessor i ;; ip_read r) ;;
                      pasteProcessor anyRGB ip img proc xOffset) ;;
               ret tt) ;;
             ret stack
           else
             stack <-
               (if anyRGB then IJ_createImage "Stacked" TypeRGBColor width height
                else
                  let bd := bitDepth first in
                  if (bd =? 16)%Z
                  then IJ_createImage "Stacked" Type16bitBlack width height
                  else IJ_createImage "Stacked" Type8bitBlack width height) ;;
             ip <- imp_getProcessor stack ;;
             _ <- foldM images 0 (fun xOffset i =>
                    img <- getImp i ;;
                    r <- imp_getProcessor i ;;
                    proc <- ip_read r ;;
                    pasteProcessor anyRGB ip img proc xOffset) ;;
             ret stack) ;;
        match images with
        | first :: _ =>
            cal <- imp_getCalibration first ;;
            copySpatial cal stack ;;
            (if hasTimeFrames then copyTemporal cal stack else ret tt) ;;
            imp_show stack ;;
            ret (Ref stack)
        | [] => throw "TypeError"
        end
    | _, _ => throw "TypeError"
    end.

(** The body of the loop over the alignment choices: [imagesToAlign]
    after the choice [selection] has been looked at. *)
Definition resolveSelection (imagesToAlign : list ImageId) (selection : string)
    : M (list ImageId) :=
  if String.eqb selection "Merge" then
    mergedImage <- createMergeOnly false ;;
    match mergedImage with
    | Ref m => ret (imagesToAlign ++ [m])
    | _ => ret imagesToAlign        (* [mergedImage != null] is false *)
    end
  else if negb (String.eqb selection "None") then
    img16 <- getChannelImage16OnTheFly selection ;;
    match img16 with
    | Ref d => ret (imagesToAlign ++ [d])
    | _ => ret imagesToAlign
    end
  else ret imagesToAlign.

(** (5) Align the selected images: one hidden image per alignment choice,
    then the montage. *)
Definition alignSelectedImages : M unit :=
  choices <- gets (fun w => alignmentChoices (ui w)) ;;
  imagesToAlign <- foldM choices [] resolveSelection ;;
  if length imagesToAlign <? 2 then
    IJ_showMessage "Stacking Error"
      "Need at least 2 images to create a horizontal stack."
  else
    final <- stackImagesHorizontally imagesToAlign ;;
    modify (with_globals (set_finalAlignedImage final)) ;;
    f <- deref final ;;
    t <- imp_getTitle f ;;
    IJ_selectWindow t.

(** [WindowManager.getImageTitles()]: the titles of the image windows, in
    the order of the windows. *)
Definition WindowManager_getImageTitles : M (list string) :=
  gets (fun w => map title (List.filter visible (heap (host w)))).

(** [WindowManager.getImage(title)]: the first image window with that
    title, [null] without one. *)
Definition WindowManager_getImage (t : string) : M jsval :=
  gets (fun w => match findWindow t (heap (host w)) 0 with
                 | Some i => Ref i
                 | None => Null
                 end).

(** (7) Close all windows except the original image. *)
Definition closeAllExceptOriginal : M unit :=
  orig <- gets (fun w => originalImage (globals w)) ;;
  if negb (truthy orig) then
    IJ_showMessage "Error" "Original image not found!"
  else
    original <- deref orig ;;
    windows <- WindowManager_getImageTitles ;;
    forEach windows (fun t =>
      t0 <- imp_getTitle original ;;
      if negb (String.eqb t t0) then
        img <- WindowManager_getImage t ;;
        match img with
        | Ref i => imp_setChanges i false ;; imp_close i
        | _ => ret tt
        end
      else ret tt) ;;
    imp_show original ;;
    t0 <- imp_getTitle original ;;
    IJ_selectWindow t0.

End Script.
End Mittens.

Import ImageJ Mittens.
Local Open Scope script_scope.

(** * Version 1.0 of the script

    Version 1.0 works on the current plane only: it has no time-frames
    checkbox and no array of full stacks.  Its functions are given over the
    state of version 2.0, of which they neither read nor write
    [useFramesCheckbox] and [splitInvertedChannelsFullStack].  Its
    [closeAllExceptOriginal] is, word for word, the one of version 2.0. *)

Module Mittens1.
Section Script.
Context `{PixelOps}.

Definition storeChannel (i : nat) (v : jsval) : M unit :=
  modify (with_globals (fun g =>
    set_splitInvertedChannels (arraySet i v (splitInvertedChannels g)) g)).

(** (2) Duplicate, split and invert the current slice. *)
Definition duplicateSplitInvert : M unit :=
  orig <- IJ_getImage ;;
  modify (with_globals (set_originalImage (Ref orig))) ;;
  (* [if (!originalImage)]: [IJ.getImage] has returned an object *)
  o <- getImp orig ;;
  let currentSlice := currentSlice o in
  IJ_run_Duplicate orig (DupSliceUse currentSlice) None ;;
  dup <- IJ_getImage ;;
  modify (with_globals (set_duplicatedCroppedImage (Ref dup))) ;;
  splitArr <- ChannelSplitter_split dup ;;
  forEach (zip (seq 0 4) splitArr) (fun '(i, c) =>
    IJ_run_convert 8 c ;;
    IJ_run_Grays c ;;
    IJ_run_Invert false c ;;
    t <- imp_getTitle dup ;;
    imp_setTitle c ("C" +:+ pretty (i + 1) +:+ "-TempForMerge_" +:+ t) ;;
    imp_show c ;;
    storeChannel i (Ref c)) ;;
  forEach (seq (length splitArr) (4 - length splitArr)) (fun k =>
    storeChannel k Null) ;;
  t <- imp_getTitle orig ;;
  IJ_selectWindow t ;;
  imp_setSlice orig currentSlice ;;
  imp_show orig.

(** (3) Create the merged image. *)
Definition createMergeOnly (showImage : bool) : M jsval :=
  catch
    (orig <- gets (fun w => originalImage (globals w)) ;;
     if negb (truthy orig) then
       IJ_showMessage "Error" "Original image not available." ;;
       ret Null
     else
       original <- deref orig ;;
       checkboxes <- gets (fun w => mergeCheckboxes (ui w)) ;;
       o <- getImp original ;;
       let currentSlice := currentSlice o in
       count <- gets (fun w => mergeCount (globals w)) ;;
       let uniqueTitle := "C" +:+ "TempForMerge_" +:+ pretty count in
       modify (with_globals (set_mergeCount (increment count))) ;;
       IJ_run_Duplicate original (DupSliceUse currentSlice) (Some uniqueTitle) ;;
       localDup <- IJ_getImage ;;
       localSplit <- ChannelSplitter_split localDup ;;
       if length localSplit <? 1 then
         IJ_showMessage "Error" "No channels available in the duplicated image." ;;
         ret Null
       else
         convertSplitsTo16 localSplit ;;
         let toMerge := selectChannels 0 checkboxes localSplit in
         if length toMerge =? 0 then
           imp_setChanges localDup false ;;
           imp_close localDup ;;
           forEach localSplit (fun s => imp_setChanges s false ;; imp_close s) ;;
           ret Null
         else
           mergedImage <- RGBStackMerge_mergeChannels toMerge false ;;
           IJ_run_RGBColor mergedImage ;;
           titles <- mapM imp_getTitle toMerge ;;
           imp_setTitle mergedImage ("Merged_" +:+ join "_" titles) ;;
           cal <- imp_getCalibration original ;;
           copySpatial cal mergedImage ;;
           (if showImage then imp_show mergedImage else imp_hide mergedImage) ;;
           imp_setChanges localDup false ;;
           forEach localSplit (fun s => imp_setChanges s false) ;;
           imp_close localDup ;;
           forEach localSplit (fun s => imp_close s) ;;
           ret (Ref mergedImage))
    (fun _ => ret Null).

(** (4) A hidden 16-bit copy of the channel named by [chStr]. *)
Definition getChannelImage16OnTheFly (chStr : string) : M jsval :=
  if negb (startsWith "Ch" chStr) then ret Null
  else
    channels <- gets (fun w => splitInvertedChannels (globals w)) ;;
    match parseInt10 (substringFrom 2 chStr) with
    | None => ret Null
    | Some n =>
        let idx := (n - 1)%Z in
        if (idx <? 0)%Z || (Z.of_nat (length channels) <=? idx)%Z then ret Null
        else
          let visImp := arrayGet (Z.to_nat idx) channels in
          if isNullish visImp then ret Null
          else
            vis <- deref visImp ;;
            v <- getImp vis ;;
            IJ_selectWindow (title v) ;;
            IJ_run_Duplicate vis DupStack None ;;
            dup <- IJ_getImage ;;
            d <- getImp dup ;;
            (if negb (bitDepth d =? 16)%Z then IJ_run_convert 16 dup else ret tt) ;;
            imp_setTitle dup ("16bit_" +:+ title v) ;;
            original <- gets (fun w => originalImage (globals w)) ;;
            o <- deref original ;;
            cal <- imp_getCalibration o ;;
            copySpatial cal dup ;;
            imp_hide dup ;;
            ret (Ref dup)
    end.

(** (6) Stack an array of images horizontally. *)
Definition stackImagesHorizontally (images : list ImageId) : M jsval :=
  if length images <? 2 then
    IJ_showMessage "Stacking Error"
      "Need at least 2 images to create a horizontal stack." ;;
    ret Null
  else
    imgs <- mapM getImp images ;;
    let width := fold_left (fun sum img => sum + ImageJ.width img) imgs 0 in
    match Math_max (map ImageJ.height imgs), imgs with
    | Some height, first :: _ =>
        let anyRGB := existsb (fun img => (bitDepth img =? 24)%Z) imgs in
        stack <-
          (if anyRGB then IJ_createImage "Stacked" TypeRGBColor width height
           else
             let bd := bitDepth first in
             if (bd =? 16)%Z
             then IJ_createImage "Stacked" Type16bitBlack width height
             else IJ_createImage "Stacked" Type8bitBlack width height) ;;
        ip <- imp_getProcessor stack ;;
        _ <- foldM images 0 (fun xOffset i =>
               img <- getImp i ;;
               r <- imp_getProcessor i ;;
               proc <- ip_read r ;;
               pasteProcessor anyRGB ip img proc xOffset) ;;
        match images with
        | first :: _ =>
            cal <- imp_getCalibration first ;;
            copySpatial cal stack ;;
            imp_show stack ;;
            ret (Ref stack)
        | [] => throw "TypeError"
        end
    | _, _ => throw "TypeError"
    end.

(** The body of the loop over the alignment choices. *)
Definition resolveSelection (imagesToAlign : list ImageId) (selection : string)
    : M (list ImageId) :=
  if String.eqb selection "Merge" then
    mergedImage <- createMergeOnly false ;;
    match mergedImage with
    | Ref m => ret (imagesToAlign ++ [m])
    | _ => ret imagesToAlign
    end
  else if negb (String.eqb selection "None") then
    img16 <- getChannelImage16OnTheFly selection ;;
    match img16 with
    | Ref d => ret (imagesToAlign ++ [d])
    | _ => ret imagesToAlign
    end
  else ret imagesToAlign.

(** (5) Align the selected images. *)
Definition alignSelectedImages : M unit :=
  choices <- gets (fun w => alignmentChoices (ui w)) ;;
  imagesToAlign <- foldM choices [] resolveSelection ;;
  if length imagesToAlign <? 2 then
    IJ_showMessage "Stacking Error"
      "Need at least 2 images to create a horizontal stack."
  else
    final <- stackImagesHorizontally imagesToAlign ;;
    modify (with_globals (set_finalAlignedImage final)) ;;
    f <- deref final ;;
    t <- imp_getTitle f ;;
    IJ_selectWindow t.

End Script.
End Mittens1.

(** * Vocabulary of the statements

    The definitions below are not part of the script: they name what the
    script computes, so that the statements about it can be read. *)

(** ** Channel identifiers *)

(** The entry of the channel array that the identifier [chStr] names:
    ["Ch"] followed by a number [n] with [1 <= n <= channels.length] whose
    entry [n - 1] holds an image.  Everything else names no entry. *)
Definition resolveChannel (chStr : string) (channels : list jsval) : option ImageId :=
  if startsWith "Ch" chStr then
    match parseInt10 (substringFrom 2 chStr) with
    | Some n =>
        if (1 <=? n)%Z && (n <=? Z.of_nat (length channels))%Z then
          match arrayGet (Z.to_nat (n - 1)) channels with
          | Ref i => Some i
          | _ => None
          end
        else None
    | None => None
    end
  else None.

(** The duplicate options the provider asks for. *)
Definition providerOptions (useFrames : bool) (v : ImagePlus) : DuplicateOptions :=
  if useFrames && (1 <? nFrames v) then DupFrames (nFrames v) else DupStack.

(** The duplicate options the extractor and the merger ask for. *)
Definition extractorOptions (useFrames : bool) (orig : ImagePlus) : DuplicateOptions :=
  if useFrames && (1 <? nFrames orig)
  then if 1 <? nSlices orig
       then DupSliceFrames (currentZOf orig) (nFrames orig)
       else DupFrames (nFrames orig)
  else DupSliceUse (currentSlice orig).

(** The number of populated entries of a channel array. *)
Fixpoint countPopulated (a : list jsval) : nat :=
  match a with
  | [] => 0
  | v :: a' => (if truthy v then 1 else 0) + countPopulated a'
  end.

(** ** Selections *)

(** The number of set checkboxes among the first [available] ones. *)
Fixpoint countChecked (checkboxes : list bool) (available : nat) : nat :=
  match checkboxes, available with
  | b :: rest, S n => (if b then 1 else 0) + countChecked rest n
  | _, _ => 0
  end.

(** The number of alignment choices other than ["None"]. *)
Fixpoint countSelected (choices : list string) : nat :=
  match choices with
  | [] => 0
  | s :: rest => (if String.eqb s "None" then 0 else 1) + countSelected rest
  end.

(** ** Images *)

(** A temporary has been released: marked unmodified and closed. *)
Definition released (img : ImagePlus) : Prop :=
  changes img = false /\ closed img = true /\ visible img = false.

(** The current stack position is a position of the stack. *)
Definition validCur (img : ImagePlus) : Prop :=
  1 <= currentSlice img <= length (stack img).

(** A time series of single planes: one channel, one slice, and one plane
    of samples for each of its frames. *)
Definition planar (img : ImagePlus) : Prop :=
  nChannels img = 1 /\ nSlices img = 1 /\
  length (stack img) = nFrames img /\ 1 <= nFrames img /\ validCur img.

(** What the script needs of the image it starts from: at least one
    slice, and one channel where it is packed colour. *)
Definition sourceOK (img : ImagePlus) : Prop :=
  1 <= nSlices img /\ (bitDepth img = 24%Z -> nChannels img = 1).

(** A series of frames of one slice, with its channels. *)
Definition series (img : ImagePlus) : Prop :=
  nSlices img = 1 /\ 1 <= nFrames img /\ currentSlice img = 1 /\
  length (stack img) = nFrames img * nChannels img /\
  (bitDepth img = 24%Z -> nChannels img = 1).

(** The plane of frame [f] (1-based) of a time series of single planes. *)
Definition framePlane (img : ImagePlus) (f : nat) : ImageProcessor :=
  mkIP (width img) (height img) (bitDepth img) (nth (f - 1) (stack img) []).

(** Frame [f], or the last frame where the series has fewer than [f]. *)
Definition frameOf (img : ImagePlus) (f : nat) : ImageProcessor :=
  framePlane img (min f (nFrames img)).

(** The image after the montage loop has chosen its frame for output
    frame [f]. *)
Definition chosen (f : nat) (img : ImagePlus) : ImagePlus :=
  if f <=? nFrames img then setSliceOf f img
  else if 0 <? nFrames img then setSliceOf (nFrames img) img
  else img.

(** ** The montage *)

(** The bit depth of the image the montage allocates. *)
Definition montageDepth (imgs : list ImagePlus) : Z :=
  if existsb (fun img => (bitDepth img =? 24)%Z) imgs then 24%Z
  else match imgs with
       | first :: _ => if (bitDepth first =? 16)%Z then 16%Z else 8%Z
       | [] => 8%Z
       end.

(** The sum of the widths, as the script computes it. *)
Definition sumWidths (imgs : list ImagePlus) : nat :=
  fold_left (fun sum img => sum + width img) imgs 0.

(** The horizontal offset of input [k]: the widths of the inputs before it. *)
Definition offsetOf (imgs : list ImagePlus) (k : nat) : nat :=
  sumWidths (take k imgs).

(** The state of the store while the montage is being filled: the inputs
    are as they were up to their current slice, and the output image is
    the allocated one up to its planes and current slice. *)
Definition MontageState (h : list ImagePlus) (out0 : ImagePlus)
    (Q : list (list Z) -> Prop) (w1 : World) : Prop :=
  length (heap (host w1)) = S (length h) /\
  (forall i img0, h !! i = Some img0 ->
     exists cs, heap (host w1) !! i = Some (set_currentSlice cs img0) /\
       (validCur img0 -> 1 <= cs <= length (stack img0))) /\
  exists st cs,
    heap (host w1) !! length h
      = Some (set_pixels (bitDepth out0) st (set_currentSlice cs out0)) /\
    length st = length (stack out0) /\ Q st.

(** ** Relations between the states before and after a computation *)

(** Every state a computation can end in is related to the state it
    started from. *)
Definition preserves {A} (R : World -> World -> Prop) (c : M A) : Prop :=
  forall w, R w (snd (c w)).


(** Windows stay, and nothing is closed. *)
Definition flagsPres (w w' : World) : Prop :=
  forall i img, heap (host w) !! i = Some img ->
    exists img', heap (host w') !! i = Some img' /\
      visible img' = visible img /\ closed img' = closed img.

(** The script's globals stay. *)
Definition sameGlobals (w w' : World) : Prop := globals w' = globals w.

(** The original image and the channel array stay. *)
Definition sameChannels (w w' : World) : Prop :=
  originalImage (globals w') = originalImage (globals w) /\
  splitInvertedChannels (globals w') = splitInvertedChannels (globals w).

(** The reference to the original image stays. *)
Definition sameOriginal (w w' : World) : Prop :=
  originalImage (globals w') = originalImage (globals w).

(** Images stay, planar images stay planar, and so for [sourceOK]. *)
Definition shapePres (w w' : World) : Prop :=
  forall i img, heap (host w) !! i = Some img ->
    exists img', heap (host w') !! i = Some img' /\
      (planar img -> planar img') /\ (sourceOK img -> sourceOK img').

(** Images stay, with their slice and frame counts and stack positions. *)
Definition dimsPres (w w' : World) : Prop :=
  forall i img, heap (host w) !! i = Some img ->
    exists img', heap (host w') !! i = Some img' /\
      nSlices img' = nSlices img /\ nFrames img' = nFrames img /\
      currentSlice img' = currentSlice img.

(** ** States of the workflow *)

(** Every populated entry of the channel array is a planar image. *)
Definition entriesPlanar (w : World) : Prop :=
  forall j c, splitInvertedChannels (globals w) !! j = Some (Ref c) ->
    exists img, heap (host w) !! c = Some img /\ planar img.

(** The original image, once set, is an image the script can start from. *)
Definition sourceReady (w : World) : Prop :=
  forall o, originalImage (globals w) = Ref o ->
    exists orig, heap (host w) !! o = Some orig /\ sourceOK orig.

(** The references [images] are planar images of the store. *)
Definition allPlanar (images : list ImageId) (w : World) : Prop :=
  forall i, i ∈ images ->
    exists img, heap (host w) !! i = Some img /\ planar img.

(** ** Images after a host command *)

(** The image after [imp.changes = false; imp.close()]. *)
Definition releaseOf (img : ImagePlus) : ImagePlus :=
  set_closed true (set_visible false (set_changes false img)).

(** The image after [imp.show()]. *)
Definition shownOf (img : ImagePlus) : ImagePlus :=
  if visible img then img else set_closed false (set_visible true img).

(** An image as the window clean-up leaves it: released when it has a
    window whose title is not [t0]. *)
Definition closeOther (t0 : string) (img : ImagePlus) : ImagePlus :=
  if visible img && negb (String.eqb (title img) t0) then releaseOf img else img.

(** ** The two versions of the script *)

(** The state with the array of full stacks replaced by [a]. *)
Definition withFullStack (a : list jsval) (w : World) : World :=
  with_globals (set_splitInvertedChannelsFullStack a) w.

(** [c1] does what [c2] does, but for the array of full stacks, which [c1]
    finds and leaves as [a] whatever [c2] writes to it. *)
Definition ignoringFullStack {A} (a : list jsval) (c1 c2 : M A) : Prop :=
  forall w, c1 (withFullStack a w) = (fst (c2 w), withFullStack a (snd (c2 w))).

(** ** Further relations and states *)

(** Images stay, with their frame counts. *)
Definition framesPres (w w' : World) : Prop :=
  forall i img, heap (host w) !! i = Some img ->
    exists img', heap (host w') !! i = Some img' /\ nFrames img' = nFrames img.

(** The widgets stay as they are. *)
Definition sameUI (w w' : World) : Prop := ui w' = ui w.

(** Every populated entry of the channel array is an image of at most one
    frame. *)
Definition entriesSingle (w : World) : Prop :=
  forall j c, splitInvertedChannels (globals w) !! j = Some (Ref c) ->
    exists img, heap (host w) !! c = Some img /\ nFrames img <= 1.

(** The references [images] are images of at most one frame. *)
Definition allSingle (images : list ImageId) (w : World) : Prop :=
  forall i, i ∈ images ->
    exists img, heap (host w) !! i = Some img /\ nFrames img <= 1.

(** The globals the extractor's loops do not write. *)
Definition otherGlobals (g g' : Globals) : Prop :=
  originalImage g' = originalImage g /\
  duplicatedCroppedImage g' = duplicatedCroppedImage g /\
  finalAlignedImage g' = finalAlignedImage g /\
  mergeCount g' = mergeCount g.

Section Vocabulary.
Context `{PixelOps}.

(** The processor the montage pastes for [img]: converted to packed colour
    when some input is packed colour and [img] is not. *)
Definition rgbIf (anyRGB : bool) (img : ImagePlus) (proc : ImageProcessor)
    : ImageProcessor :=
  if anyRGB && negb (bitDepth img =? 24)%Z then convertToRGB proc else proc.

(** The output image [o] after [proc] has been inserted at [(x, 0)] into
    its plane [p]. *)
Definition pasted (o : ImagePlus) (p : nat) (proc : ImageProcessor) (x : nat)
    : ImagePlus :=
  set_pixels (bitDepth o)
    (<[p := ipPixels (ip_insert (mkIP (width o) (height o) (bitDepth o)
                                      (nth p (stack o) [])) proc x 0)]> (stack o)) o.

(** The plane [px] of a [W] by [Ht] image of depth [D] holds, at the
    offsets of the first [k] inputs, the converted samples of their frame
    [f]. *)
Definition Content (imgs : list ImagePlus) (W Ht : nat) (D : Z) (f : nat)
    (px : list Z) (k : nat) : Prop :=
  forall j img x y, j < k -> imgs !! j = Some img ->
    x < width img -> y < height img ->
    getPixel (mkIP W Ht D px) (offsetOf imgs j + x) y
    = getPixel (convertTo D (frameOf img f)) x y.

(** The image after [IJ.run(imp, "8-bit", "")] or [IJ.run(imp, "16-bit", "")]. *)
Definition convertOf (d : Z) (img : ImagePlus) : ImagePlus :=
  set_changes true
    (set_pixels d (map (convertPixels (bitDepth img) d) (stack img)) img).

(** The image after [IJ.run(imp, "Invert", "")], or with ["stack"]. *)
Definition invertOf (wholeStack : bool) (img : ImagePlus) : ImagePlus :=
  let inv := invertPixels (bitDepth img) in
  set_changes true
    (set_pixels (bitDepth img)
       (if wholeStack then map inv (stack img)
        else alter inv (currentSlice img - 1) (stack img)) img).

(** A split channel after the extractor has made it a visible 8-bit
    inverted image titled [t]. *)
Definition extractedChannel (wholeStack : bool) (t : string) (ch : ImagePlus)
    : ImagePlus :=
  shownOf (set_title t (invertOf wholeStack (convertOf 8 ch))).

End Vocabulary.

(** * Sample data *)

Module Samples.

(** One choice of the host's sample arithmetic: widening keeps the value,
    narrowing clips it, grey becomes the colour with three equal
    components; a composite assigns the first three channels to red, green
    and blue. *)
Definition grey (v : Z) : Z :=
  let g := Z.min (Z.max v 0) 255 in (g * 65536 + g * 256 + g)%Z.

Definition sampleOps : PixelOps :=
  {| convertSample := fun from to _ v =>
       if (to =? 24)%Z then grey v
       else if (from <? to)%Z then v
       else Z.min v (2 ^ to - 1);
     compositeSample := fun vs =>
       (Z.min (nth 0 vs 0) 255 * 65536 + Z.min (nth 1 vs 0) 255 * 256
        + Z.min (nth 2 vs 0) 255)%Z;
     invertSampleWide := fun depth _ v => (2 ^ depth - 1 - v)%Z |}.

#[local] Existing Instance sampleOps.

Definition micrometres : Calibration := mkCalibration 0.5 0.25 "um" 2 10.

(** A two-channel time series of three frames, two samples wide. *)
Definition cells : ImagePlus :=
  mkImagePlus "cells" 2 1 16 2 1 3
    [[1; 2]; [3; 4]; [5; 6]; [7; 8]; [9; 10]; [11; 12]]%Z
    1 micrometres true false false.

(** The state in which the script starts with [cells] open. *)
Definition session (useFrames : bool) (checkboxes : list bool)
    (choices : list string) : World :=
  mkWorld (mkHost [cells] (Some 0) []) initialGlobals
          (mkUI checkboxes choices useFrames).

(** The state after the channels have been extracted. *)
Definition extracted (useFrames : bool) (checkboxes : list bool)
    (choices : list string) : World :=
  snd (duplicateSplitInvert (session useFrames checkboxes choices)).

(** A single plane [w] samples wide and one sample high. *)
Definition strip (t : string) (w : nat) (d : Z) (v : Z) : ImagePlus :=
  mkImagePlus t w 1 d 1 1 1 [replicate w v] 1 defaultCalibration false false false.

Definition still : ImagePlus := strip "still" 2 8 5.
Definition narrow : ImagePlus := strip "narrow" 100 8 0.
Definition broad : ImagePlus := strip "broad" 150 8 0.
Definition short1 : ImagePlus := strip "short1" 1 16 300.
Definition short2 : ImagePlus := strip "short2" 2 16 400.
Definition float1 : ImagePlus := strip "float1" 1 32 3.
Definition float2 : ImagePlus := strip "float2" 2 32 4.

(** A series of three single-sample frames. *)
Definition movie : ImagePlus :=
  mkImagePlus "movie" 1 1 8 1 1 3 [[7]; [8]; [9]]%Z 1 defaultCalibration
    false false false.

(** A series of two frames of two slices each, one sample per plane; the
    planes are slices 1 and 2 of frame 1, then slices 1 and 2 of frame 2. *)
Definition volume : ImagePlus :=
  mkImagePlus "volume" 1 1 8 1 2 2 [[1]; [2]; [3]; [4]]%Z 1 defaultCalibration
    false false false.

(** A state that holds two images. *)
Definition gallery (a b : ImagePlus) : World :=
  mkWorld (mkHost [a; b] None []) initialGlobals (mkUI [] [] false).

(** The state after the channels of the current frame of [cells] have been
    extracted and every window but that of [cells] has been closed. *)
Definition cleanedUp : World :=
  snd (closeAllExceptOriginal (extracted false [] [])).

(** The state after the same extraction, with no original image set. *)
Definition noOriginal : World :=
  with_globals (set_originalImage Null) (extracted false [] []).

End Samples.

(** * Verification *)

Section Verification.
Context `{PixelOps}.

(** ** The monad *)

(** Equations for running a computation step by step. *)
Lemma bind_ok {A B} (c : M A) (k : A -> M B) w a w1 :
  c w = (Ok a, w1) -> bind c k w = k a w1.
Proof. intros E. unfold bind. now rewrite E. Qed.

Lemma bind_thrown {A B} (c : M A) (k : A -> M B) w e w1 :
  c w = (Thrown e, w1) -> bind c k w = (Thrown e, w1).
Proof. intros E. unfold bind. now rewrite E. Qed.

Lemma bind_Ok_inv {A B} (c : M A) (k : A -> M B) w b w' :
  bind c k w = (Ok b, w') ->
  exists a w1, c w = (Ok a, w1) /\ k a w1 = (Ok b, w').
Proof.
  unfold bind. destruct (c w) as [[a|e] w1]; intros E.
  - eauto.
  - discriminate.
Qed.

Lemma bind_assoc {A B C} (c : M A) (k1 : A -> M B) (k2 : B -> M C) w :
  bind (bind c k1) k2 w = bind c (fun a => bind (k1 a) k2) w.
Proof. unfold bind. destruct (c w) as [[a|e] w1]; reflexivity. Qed.

Lemma bind_ret {A B} (a : A) (k : A -> M B) w : bind (ret a) k w = k a w.
Proof. reflexivity. Qed.

Lemma bind_gets {A B} (f : World -> A) (k : A -> M B) w :
  bind (gets f) k w = k (f w) w.
Proof. reflexivity. Qed.

Lemma bind_modify {B} (f : World -> World) (k : unit -> M B) w :
  bind (modify f) k w = k tt (f w).
Proof. reflexivity. Qed.

Lemma catch_Ok {A} (c : M A) h w a w' :
  c w = (Ok a, w') -> catch c h w = (Ok a, w').
Proof. intros E. unfold catch. now rewrite E. Qed.

(** Taking apart a computation that is known to have returned. *)
Tactic Notation "inv_bind" hyp(E) "as" ident(a) ident(w1) ident(E1) :=
  apply bind_Ok_inv in E as (a & w1 & E1 & E); cbv beta in E.

Ltac inv_binds E :=
  repeat (lazymatch type of E with
          | bind _ _ _ = (Ok _, _) =>
              let a := fresh "a" in let w1 := fresh "w" in let E1 := fresh "E" in
              apply bind_Ok_inv in E as (a & w1 & E1 & E); cbv beta in E
          end).

(** ** Running the host commands *)

Lemma bind_newImp {B} img (k : ImageId -> M B) w :
  bind (newImp img) k w
  = k (length (heap (host w))) (with_heap (fun h => h ++ [img]) w).
Proof. reflexivity. Qed.

Lemma bind_newImps {B} imgs (k : list ImageId -> M B) w :
  bind (newImps imgs) k w
  = k (seq (length (heap (host w))) (length imgs))
      (with_heap (fun h => h ++ imgs) w).
Proof. reflexivity. Qed.

Lemma getImp_ok i img w :
  heap (host w) !! i = Some img -> getImp i w = (Ok img, w).
Proof. intros E. unfold getImp. now rewrite E. Qed.

Lemma bind_getImp {B} i img (k : ImagePlus -> M B) w :
  heap (host w) !! i = Some img -> bind (getImp i) k w = k img w.
Proof. intros E. apply bind_ok, getImp_ok, E. Qed.

Lemma bind_getImp_None {B} i (k : ImagePlus -> M B) w :
  heap (host w) !! i = None ->
  bind (getImp i) k w = (Thrown "dangling reference", w).
Proof. intros E. unfold bind, getImp. now rewrite E. Qed.

Lemma updImp_ok i f img w :
  heap (host w) !! i = Some img ->
  updImp i f w = (Ok tt, with_heap (alter f i) w).
Proof. intros E. unfold updImp. now rewrite (bind_getImp _ _ _ _ E). Qed.

Lemma bind_updImp {B} i f img (k : unit -> M B) w :
  heap (host w) !! i = Some img ->
  bind (updImp i f) k w = k tt (with_heap (alter f i) w).
Proof. intros E. apply bind_ok. eapply updImp_ok, E. Qed.

Lemma updImp_Ok_inv i f w w' :
  updImp i f w = (Ok tt, w') ->
  exists img, heap (host w) !! i = Some img /\ w' = with_heap (alter f i) w.
Proof.
  unfold updImp. destruct (heap (host w) !! i) as [img|] eqn:E.
  - rewrite (bind_getImp _ _ _ _ E). intros [= <-]. eauto.
  - rewrite (bind_getImp_None _ _ _ E). discriminate.
Qed.

Lemma alter_last {A} (f : A -> A) (h : list A) (x : A) :
  alter f (length h) (h ++ [x]) = h ++ [f x].
Proof.
  rewrite alter_app_r_alt by lia. now rewrite Nat.sub_diag.
Qed.

Lemma lookup_last {A} (h : list A) (x : A) : (h ++ [x]) !! length h = Some x.
Proof. apply list_lookup_middle. reflexivity. Qed.

Lemma alter_as_insert {A} (f : A -> A) i (l : list A) x :
  l !! i = Some x -> alter f i l = <[i := f x]> l.
Proof.
  revert i. induction l as [|a l IH]; intros [|i] E; try discriminate; cbn in *.
  - now injection E as ->.
  - f_equal. now apply IH.
Qed.

(** A window with the title exists, so one is found. *)
Lemma findWindow_Some t h n i img :
  h !! i = Some img -> visible img = true -> title img = t ->
  is_Some (findWindow t h n).
Proof.
  revert n i. induction h as [|x h IH]; intros n i Hl Hv Ht; [done|].
  cbn [findWindow]. destruct (visible x && String.eqb (title x) t) eqn:E; [eauto|].
  destruct i as [|i]; cbn in Hl.
  - injection Hl as ->. rewrite Hv, Ht, String.eqb_refl in E. discriminate.
  - eapply IH; eauto.
Qed.

(** Simplifying the state after a step. *)
Ltac wsimpl :=
  unfold with_heap, with_currentImage, with_message, with_globals,
    set_originalImage, set_duplicatedCroppedImage, set_splitInvertedChannels,
    set_splitInvertedChannelsFullStack, set_finalAlignedImage, set_mergeCount in *;
  cbn [host globals ui heap currentImage messages
       originalImage duplicatedCroppedImage splitInvertedChannels
       splitInvertedChannelsFullStack finalAlignedImage mergeCount
       mergeCheckboxes alignmentChoices useFramesCheckbox fst snd
       title width height bitDepth nChannels nSlices nFrames stack
       currentSlice calibration visible changes closed
       set_title set_pixels set_dimensions set_currentSlice set_calibration
       set_visible set_changes set_closed duplicateOf mergedOf
       pixelWidth pixelHeight calUnit frameInterval fps
       set_pixelWidth set_pixelHeight set_calUnit set_frameInterval set_fps] in *.

Ltac use_lookup :=
  match goal with
  | E : ?h !! ?i = Some _ |- context [?h !! ?i] => rewrite E
  end.

Ltac solve_lookup :=
  wsimpl;
  repeat first
    [ rewrite list_lookup_alter_eq
    | rewrite list_lookup_alter_ne by (first [lia | congruence]) ];
  first [ eassumption
        | apply lookup_last
        | use_lookup; reflexivity
        | apply lookup_app_l_Some; solve_lookup ].

(** Forward execution: the next primitive is run on the state, a test is
    decided by cases. *)
Ltac run1 :=
  first
    [ rewrite bind_assoc
    | rewrite bind_ret
    | rewrite bind_gets
    | rewrite bind_modify
    | rewrite bind_newImp
    | erewrite bind_getImp by solve_lookup
    | erewrite bind_updImp by solve_lookup
    | rewrite decide_True by reflexivity
    | match goal with
      | |- context [bind (if ?b then _ else _) _ _] => destruct b eqn:?
      end ];
  wsimpl; cbv beta; rewrite ?alter_last.

Ltac run := repeat run1.

(** The Duplicate command on a live image. *)
Lemma bind_Duplicate {B} src opt t img (k : unit -> M B) w :
  heap (host w) !! src = Some img ->
  bind (IJ_run_Duplicate src opt t) k w
  = k tt (with_currentImage (Some (length (heap (host w))))
            (with_heap (fun h => h ++ [duplicateOf opt t img]) w)).
Proof.
  intros E. unfold IJ_run_Duplicate. rewrite bind_assoc, (bind_getImp _ _ _ _ E).
  now rewrite bind_assoc, bind_newImp, bind_modify.
Qed.

(** ** Loops *)

(** A loop whose body keeps an invariant indexed by the iteration runs to
    its end without an exception and establishes the invariant there. *)
Lemma forEach_inv {A} (I : nat -> World -> Prop) (l : list A) (body : A -> M unit) :
  (forall k a w, l !! k = Some a -> I k w ->
     exists w', body a w = (Ok tt, w') /\ I (S k) w') ->
  forall w, I 0 w -> exists w', forEach l body w = (Ok tt, w') /\ I (length l) w'.
Proof.
  revert I. induction l as [|a l IH]; intros I Hbody w Hw; cbn [forEach length].
  - exists w. split; [reflexivity|exact Hw].
  - destruct (Hbody 0 a w eq_refl Hw) as (w1 & E1 & Hw1).
    rewrite (bind_ok _ _ _ _ _ E1).
    apply (IH (fun k => I (S k))); [|exact Hw1].
    intros k b w2 Hk. apply (Hbody (S k) b w2 Hk).
Qed.

Lemma foldM_inv {A St} (I : nat -> St -> World -> Prop) (l : list A)
    (body : St -> A -> M St) :
  (forall k a s w, l !! k = Some a -> I k s w ->
     exists s' w', body s a w = (Ok s', w') /\ I (S k) s' w') ->
  forall s w, I 0 s w ->
    exists s' w', foldM l s body w = (Ok s', w') /\ I (length l) s' w'.
Proof.
  revert I. induction l as [|a l IH]; intros I Hbody s w Hw; cbn [foldM length].
  - exists s, w. split; [reflexivity|exact Hw].
  - destruct (Hbody 0 a s w eq_refl Hw) as (s1 & w1 & E1 & Hw1).
    rewrite (bind_ok _ _ _ _ _ E1).
    apply (IH (fun k => I (S k))); [|exact Hw1].
    intros k b s2 w2 Hk. apply (Hbody (S k) b s2 w2 Hk).
Qed.

Lemma mapM_getImp images imgs w :
  Forall2 (fun i img => heap (host w) !! i = Some img) images imgs ->
  mapM getImp images w = (Ok imgs, w).
Proof.
  induction 1 as [|i img images imgs Hi _ IH]; cbn [mapM]; [reflexivity|].
  rewrite (bind_getImp _ _ _ _ Hi), (bind_ok _ _ _ _ _ IH). reflexivity.
Qed.

(** ** Relations that every step of a computation keeps *)

Section Preserves.
Context (R : World -> World -> Prop) `{!PreOrder R}.

(** One rule for each way of building a computation. *)
Lemma preserves_ret {A} (a : A) : preserves R (ret a).
Proof. intros w. reflexivity. Qed.

Lemma preserves_throw {A} e : preserves R (@throw A e).
Proof. intros w. reflexivity. Qed.

Lemma preserves_gets {A} (f : World -> A) : preserves R (gets f).
Proof. intros w. reflexivity. Qed.

Lemma preserves_getImp i : preserves R (getImp i).
Proof. intros w. unfold getImp. destruct (_ !! _); reflexivity. Qed.

Lemma preserves_modify f : (forall w, R w (f w)) -> preserves R (modify f).
Proof. intros Hf w. apply Hf. Qed.

Lemma preserves_bind {A B} (c : M A) (k : A -> M B) :
  preserves R c -> (forall a, preserves R (k a)) -> preserves R (bind c k).
Proof.
  intros Hc Hk w. unfold bind. specialize (Hc w).
  destruct (c w) as [[a|e] w1]; cbn [snd] in *; [|exact Hc].
  etransitivity; [exact Hc|apply Hk].
Qed.

Lemma preserves_catch {A} (c : M A) (h : string -> M A) :
  preserves R c -> (forall e, preserves R (h e)) -> preserves R (catch c h).
Proof.
  intros Hc Hh w. unfold catch. specialize (Hc w).
  destruct (c w) as [[a|e] w1]; cbn [snd] in *; [exact Hc|].
  etransitivity; [exact Hc|apply Hh].
Qed.

Lemma preserves_forEach {A} (l : list A) (body : A -> M unit) :
  (forall a, preserves R (body a)) -> preserves R (forEach l body).
Proof.
  intros Hb. induction l as [|a l IH]; cbn [forEach].
  - apply preserves_ret.
  - apply preserves_bind; auto.
Qed.

Lemma preserves_foldM {A St} (l : list A) (s : St) (body : St -> A -> M St) :
  (forall s a, preserves R (body s a)) -> preserves R (foldM l s body).
Proof.
  intros Hb. revert s. induction l as [|a l IH]; intros s; cbn [foldM].
  - apply preserves_ret.
  - apply preserves_bind; auto.
Qed.

Lemma preserves_mapM {A B} (f : A -> M B) (l : list A) :
  (forall a, preserves R (f a)) -> preserves R (mapM f l).
Proof.
  intros Hf. induction l as [|a l IH]; cbn [mapM].
  - apply preserves_ret.
  - apply preserves_bind; [auto|]. intros b.
    apply preserves_bind; [auto|]. intros bs. apply preserves_ret.
Qed.

Lemma preserves_updImp i f :
  (forall w, R w (with_heap (alter f i) w)) -> preserves R (updImp i f).
Proof.
  intros Hf. apply preserves_bind; [apply preserves_getImp|].
  intros _. apply preserves_modify, Hf.
Qed.

Lemma preserves_run {A} (c : M A) w o w' :
  preserves R c -> c w = (o, w') -> R w w'.
Proof. intros Hc E. specialize (Hc w). now rewrite E in Hc. Qed.

End Preserves.





#[local] Instance flagsPres_PreOrder : PreOrder flagsPres.
Proof.
  split.
  - intros w i img E. eauto.
  - intros w1 w2 w3 H12 H23 i img E.
    destruct (H12 i img E) as (img2 & E2 & V2 & C2).
    destruct (H23 i img2 E2) as (img3 & E3 & V3 & C3).
    exists img3. split; [exact E3|]. split; congruence.
Qed.

Lemma flagsPres_alter f i w :
  (forall img, visible (f img) = visible img /\ closed (f img) = closed img) ->
  flagsPres w (with_heap (alter f i) w).
Proof.
  intros Hf j img E. wsimpl.
  destruct (decide (i = j)) as [->|Hne].
  - rewrite list_lookup_alter_eq, E. cbn. eexists. split; [reflexivity|apply Hf].
  - rewrite list_lookup_alter_ne by exact Hne. eauto.
Qed.

#[local] Instance sameGlobals_PreOrder : PreOrder sameGlobals.
Proof.
  split.
  - intros w. reflexivity.
  - intros w1 w2 w3 H12 H23. unfold sameGlobals in *. congruence.
Qed.

(** Unfolding the host commands down to the primitives of the monad. *)
Ltac unfold_host :=
  unfold convertSplitsTo16, copySpatial, copyTemporal, updCalibration,
    IJ_showMessage, IJ_getImage, IJ_selectWindow, imp_getTitle,
    imp_setTitle, imp_setSlice, imp_show, imp_hide, imp_setChanges, imp_close,
    IJ_run_Duplicate, ChannelSplitter_split, IJ_run_convert, IJ_run_Grays,
    IJ_run_Invert, RGBStackMerge_mergeChannels, IJ_run_RGBColor, IJ_createImage,
    new_ImagePlus, imp_setDimensions, imp_getProcessor, ip_read, ip_insertInto,
    imp_getCalibration, deref, newImp, newImps, dropCurrent;
  unfold IJ_showMessage, imp_setChanges, imp_close, dropCurrent.

(** [preserves R c] by the structure of [c]; [leaf] proves the steps that
    change the state. *)
Ltac pres_with leaf :=
  repeat first
    [ apply preserves_ret; exact _
    | apply preserves_throw; exact _
    | apply preserves_gets; exact _
    | apply preserves_getImp; exact _
    | apply preserves_updImp; [exact _ | intros ?; leaf]
    | apply preserves_bind; [exact _ | | intros ?]
    | apply preserves_forEach; [exact _ | intros ?]
    | apply preserves_mapM; [exact _ | intros ?]
    | apply preserves_foldM; [exact _ | intros ? ?]
    | apply preserves_catch; [exact _ | | intros ?]
    | apply preserves_modify; intros ?; leaf
    | match goal with
      | |- preserves _ (if ?b then _ else _) => destruct b
      | |- preserves _ (match ?x with _ => _ end) => destruct x
      | |- preserves _ (fun _ => _) => intros ?; cbn [snd]; leaf
      end ].


Ltac sameGlobals_leaf :=
  unfold sameGlobals; wsimpl;
  try match goal with
      | |- context [if ?b then _ else _] => destruct b
      end; reflexivity.






Lemma imp_getCalibration_Ok_inv i w cal w' :
  imp_getCalibration i w = (Ok cal, w') ->
  exists img, heap (host w) !! i = Some img /\ cal = calibration img /\ w' = w.
Proof.
  unfold imp_getCalibration. destruct (heap (host w) !! i) as [img|] eqn:E.
  - rewrite (bind_getImp _ _ _ _ E). intros [= <- <-]. eauto.
  - rewrite (bind_getImp_None _ _ _ E). discriminate.
Qed.

(** Lengths of the stacks the host commands build. *)
Lemma length_flat_map_const {A B} (f : A -> list B) (l : list A) k :
  (forall x, length (f x) = k) -> length (flat_map f l) = length l * k.
Proof.
  intros Hf. induction l as [|a l IH]; cbn [flat_map length]; [reflexivity|].
  rewrite length_app, Hf, IH. lia.
Qed.

Lemma length_subStack i cs zs ts :
  length (subStack i cs zs ts) = length ts * (length zs * length cs).
Proof.
  unfold subStack. apply length_flat_map_const. intros t.
  apply length_flat_map_const. intros z. apply length_map.
Qed.

Lemma length_rgbStack (g : nat -> nat -> list Z) nZ nT :
  length (flat_map (fun t => map (fun z => g z t) (seq 0 nZ)) (seq 0 nT)) = nT * nZ.
Proof.
  rewrite (length_flat_map_const _ _ nZ), length_seq; [reflexivity|].
  intros t. now rewrite length_map, length_seq.
Qed.

#[local] Instance shapePres_PreOrder : PreOrder shapePres.
Proof.
  split.
  - intros w i img E. eauto.
  - intros w1 w2 w3 H12 H23 i img E.
    destruct (H12 i img E) as (img2 & E2 & P2 & S2).
    destruct (H23 i img2 E2) as (img3 & E3 & P3 & S3).
    exists img3. split; [exact E3|]. split; auto.
Qed.

(** Rules for the relation [shapePres] and its leaf steps. *)
Lemma shapePres_alter f i w :
  (forall img, (planar img -> planar (f img)) /\ (sourceOK img -> sourceOK (f img))) ->
  shapePres w (with_heap (alter f i) w).
Proof.
  intros Hf j img E. wsimpl.
  destruct (decide (i = j)) as [->|Hne].
  - rewrite list_lookup_alter_eq, E. cbn. eexists. split; [reflexivity|apply Hf].
  - rewrite list_lookup_alter_ne by exact Hne. eauto.
Qed.

Lemma shapePres_app l w : shapePres w (with_heap (fun h => h ++ l) w).
Proof.
  intros j img E. wsimpl. exists img. split; [|auto].
  now apply lookup_app_l_Some.
Qed.

Lemma shapePres_same_heap w w' :
  heap (host w') = heap (host w) -> shapePres w w'.
Proof. intros E i img Hi. rewrite E. eauto. Qed.

(** A series of one slice becomes planar when made packed colour. *)
Lemma rgbColorOf_planar img :
  nSlices img = 1 -> 1 <= nFrames img -> currentSlice img = 1 ->
  planar (rgbColorOf img).
Proof.
  intros HZ HF HV. unfold planar, validCur, rgbColorOf.
  cbn [nChannels nSlices nFrames stack currentSlice set_changes set_dimensions set_pixels].
  rewrite length_rgbStack, HZ, HV. lia.
Qed.

Ltac shape_goal :=
  unfold planar, sourceOK, validCur, rgbColorOf, setSliceOf in *;
  repeat match goal with
         | |- context [if ?b then _ else _] => destruct b eqn:?
         end;
  repeat match goal with
         | E : _ && _ = true |- _ => apply andb_prop in E as [? ?]
         | E : (_ <=? _) = true |- _ => apply Nat.leb_le in E
         end;
  cbn [nChannels nSlices nFrames stack currentSlice bitDepth
       set_title set_pixels set_dimensions set_currentSlice set_calibration
       set_visible set_changes set_closed] in *;
  rewrite ?length_map, ?length_alter, ?length_insert, ?length_rgbStack;
  repeat match goal with
         | H : _ /\ _ |- _ => destruct H
         end;
  repeat split; first [ assumption | lia | discriminate | nia | idtac ].

Ltac shapePres_leaf :=
  first [ apply shapePres_alter; intros ?; split; intros ?; shape_goal
        | apply shapePres_app
        | apply shapePres_same_heap; wsimpl;
          try match goal with
              | |- context [if ?b then _ else _] => destruct b
              end; reflexivity ].

#[local] Instance dimsPres_PreOrder : PreOrder dimsPres.
Proof.
  split.
  - intros w i img E. eauto.
  - intros w1 w2 w3 H12 H23 i img E.
    destruct (H12 i img E) as (img2 & E2 & Z2 & F2 & C2).
    destruct (H23 i img2 E2) as (img3 & E3 & Z3 & F3 & C3).
    exists img3. split; [exact E3|]. repeat split; congruence.
Qed.

Lemma dimsPres_alter f i w :
  (forall img, nSlices (f img) = nSlices img /\ nFrames (f img) = nFrames img /\
               currentSlice (f img) = currentSlice img) ->
  dimsPres w (with_heap (alter f i) w).
Proof.
  intros Hf j img E. wsimpl.
  destruct (decide (i = j)) as [->|Hne].
  - rewrite list_lookup_alter_eq, E. cbn. eexists. split; [reflexivity|apply Hf].
  - rewrite list_lookup_alter_ne by exact Hne. eauto.
Qed.

Lemma dimsPres_same_heap w w' :
  heap (host w') = heap (host w) -> dimsPres w w'.
Proof. intros E i img Hi. rewrite E. eauto. Qed.

Ltac dimsPres_leaf :=
  first [ apply dimsPres_alter; intros ?; repeat split
        | apply dimsPres_same_heap; wsimpl;
          try match goal with
              | |- context [if ?b then _ else _] => destruct b
              end; reflexivity ].

Ltac pres_run R leaf E :=
  eapply (preserves_run R) in E; [ | unfold_host; pres_with leaf ].

Lemma bind_throw {A B} e (k : A -> M B) w : bind (throw e) k w = (Thrown e, w).
Proof. reflexivity. Qed.

(** Reading a list of references that are all live. *)
Lemma mapM_getImp_inv images imgs w w' :
  mapM getImp images w = (Ok imgs, w') ->
  w' = w /\ Forall2 (fun i img => heap (host w) !! i = Some img) images imgs.
Proof.
  revert imgs. induction images as [|i images IH]; intros imgs; cbn [mapM].
  - intros [= <- <-]. split; constructor.
  - destruct (heap (host w) !! i) as [img|] eqn:Ei.
    + rewrite (bind_getImp _ _ _ _ Ei). intros E.
      inv_bind E as rest w1 Erest. injection E as <- <-.
      destruct (IH _ Erest) as [-> Hrest]. split; [reflexivity|].
      constructor; assumption.
    + rewrite (bind_getImp_None _ _ _ Ei). discriminate.
Qed.

(** The selected channels are among the splits. *)
Lemma selectChannels_elem j cb split x :
  x ∈ selectChannels j cb split -> x ∈ split.
Proof.
  revert j. induction cb as [|b rest IH]; intros j; cbn [selectChannels].
  - intros Hx. inversion Hx.
  - intros Hx. apply elem_of_app in Hx as [Hx|Hx]; [|eapply IH, Hx].
    destruct b; [|inversion Hx].
    destruct (split !! j) as [c|] eqn:Ej; [|inversion Hx].
    apply list_elem_of_singleton in Hx as ->.
    eapply list_elem_of_lookup_2, Ej.
Qed.

#[local] Instance sameOriginal_PreOrder : PreOrder sameOriginal.
Proof.
  split.
  - intros w. reflexivity.
  - intros w1 w2 w3 H12 H23. unfold sameOriginal in *. congruence.
Qed.

Ltac sameOriginal_leaf :=
  unfold sameOriginal; wsimpl;
  try match goal with
      | |- context [if ?b then _ else _] => destruct b
      end; reflexivity.

#[local] Instance sameChannels_PreOrder : PreOrder sameChannels.
Proof.
  split.
  - intros w. split; reflexivity.
  - intros w1 w2 w3 [H12 H12'] [H23 H23']. unfold sameChannels in *.
    split; congruence.
Qed.

Ltac sameChannels_leaf :=
  unfold sameChannels; wsimpl;
  try match goal with
      | |- context [if ?b then _ else _] => destruct b
      end; split; reflexivity.

(** ** The provider *)

(** The early returns of the provider. *)
Lemma getChannel_unresolved chStr w :
  resolveChannel chStr (splitInvertedChannels (globals w)) = None ->
  getChannelImage16OnTheFly chStr w = (Ok Null, w).
Proof.
  unfold resolveChannel, getChannelImage16OnTheFly.
  destruct (startsWith "Ch" chStr); [|reflexivity]. cbn [negb].
  unfold bind at 1, gets at 1.
  destruct (parseInt10 _) as [n|]; [|reflexivity].
  destruct (Z.leb_spec 1 n),
    (Z.leb_spec n (Z.of_nat (length (splitInvertedChannels (globals w)))));
    cbn [andb].
  - destruct (Z.ltb_spec (n - 1) 0); [lia|].
    destruct (Z.leb_spec (Z.of_nat (length (splitInvertedChannels (globals w)))) (n - 1)); [lia|].
    cbn [orb]. destruct (arrayGet _ _); try reflexivity. discriminate.
  - intros _. destruct (Z.ltb_spec (n - 1) 0); [reflexivity|].
    destruct (Z.leb_spec (Z.of_nat (length (splitInvertedChannels (globals w))))
                (n - 1)); [reflexivity|lia].
  - intros _. destruct (Z.ltb_spec (n - 1) 0); [reflexivity|lia].
  - intros _. destruct (Z.ltb_spec (n - 1) 0); [reflexivity|lia].
Qed.

Lemma resolveChannel_Some chStr channels vis :
  resolveChannel chStr channels = Some vis ->
  startsWith "Ch" chStr = true /\
  exists n, parseInt10 (substringFrom 2 chStr) = Some n /\
    ((n - 1 <? 0)%Z || (Z.of_nat (length channels) <=? n - 1)%Z) = false /\
    arrayGet (Z.to_nat (n - 1)) channels = Ref vis.
Proof.
  unfold resolveChannel.
  destruct (startsWith "Ch" chStr); [|discriminate].
  destruct (parseInt10 _) as [n|]; [|discriminate].
  destruct (Z.leb_spec 1 n), (Z.leb_spec n (Z.of_nat (length channels)));
    cbn [andb]; try discriminate.
  destruct (arrayGet _ _) eqn:E; try discriminate.
  intros [= ->]. split; [reflexivity|]. exists n. repeat split; [|exact E].
  destruct (Z.ltb_spec (n - 1) 0); [lia|].
  destruct (Z.leb_spec (Z.of_nat (length channels)) (n - 1)); [lia|]. reflexivity.
Qed.

Lemma map_convertPixels_same d (l : list (list Z)) :
  map (convertPixels d d) l = l.
Proof.
  unfold convertPixels. rewrite Z.eqb_refl. apply map_id.
Qed.

Lemma getChannel_Ok_resolved chStr w vis v w' :
  resolveChannel chStr (splitInvertedChannels (globals w)) = Some vis ->
  getChannelImage16OnTheFly chStr w = (Ok v, w') ->
  exists d, v = Ref d.
Proof.
  intros Hres E.
  apply resolveChannel_Some in Hres as (Hpre & n & Hn & Hrange & Hget).
  unfold getChannelImage16OnTheFly in E. rewrite Hpre in E. cbn [negb] in E.
  rewrite bind_gets, Hn in E. cbv zeta in E. rewrite Hrange, Hget in E.
  cbn [isNullish truthy negb] in E.
  inv_binds E. injection E as <- _. eauto.
Qed.

(** ** The extractor *)

Lemma arraySet_lt i v a : i < length a -> arraySet i v a = <[i := v]> a.
Proof. intros Hi. unfold arraySet. destruct (Nat.ltb_spec i (length a)); [reflexivity|lia]. Qed.

(** One pass through the body of the loop over the splits. *)
Lemma extractChannel_spec wholeStack src i c full w :
  c < length (heap (host w)) -> src < length (heap (host w)) -> src <> c ->
  exists w',
    (IJ_run_convert 8 c ;;
     IJ_run_Grays c ;;
     IJ_run_Invert wholeStack c ;;
     t <- imp_getTitle src ;;
     imp_setTitle c ("C" +:+ pretty (i + 1) +:+ "-TempForMerge_" +:+ t) ;;
     imp_show c ;;
     storeChannel i (Ref c) full) w = (Ok tt, w') /\
    length (heap (host w')) = length (heap (host w)) /\
    splitInvertedChannels (globals w')
    = arraySet i (Ref c) (splitInvertedChannels (globals w)).
Proof.
  intros Hc Hsrc Hne.
  destruct (lookup_lt_is_Some_2 _ _ Hc) as [imgc Ec].
  destruct (lookup_lt_is_Some_2 _ _ Hsrc) as [imgs Es].
  destruct w as [[h cur msgs] g u]. wsimpl.
  unfold IJ_run_convert, IJ_run_Grays, IJ_run_Invert, imp_getTitle, imp_setTitle,
    imp_show, storeChannel.
  run.
  all: eexists; split; [reflexivity|]; wsimpl; rewrite !length_alter; auto.
Qed.

Lemma length_channelsOf img : length (channelsOf img) = channelCount img.
Proof.
  unfold channelsOf, channelCount.
  destruct (bitDepth img =? 24)%Z; now rewrite length_map, length_seq.
Qed.

(** The two loops that fill the channel arrays. *)
Lemma extract_loops wholeStack src (fullOf : ImageId -> jsval) w L n :
  length (heap (host w)) = S L + n -> src <= L ->
  length (splitInvertedChannels (globals w)) = 4 ->
  exists w',
    (forEach (zip (seq 0 4) (seq (S L) n)) (fun '(i, c) =>
       IJ_run_convert 8 c ;;
       IJ_run_Grays c ;;
       IJ_run_Invert wholeStack c ;;
       t <- imp_getTitle src ;;
       imp_setTitle c ("C" +:+ pretty (i + 1) +:+ "-TempForMerge_" +:+ t) ;;
       imp_show c ;;
       storeChannel i (Ref c) (fullOf c)) ;;
     forEach (seq (length (seq (S L) n)) (4 - length (seq (S L) n))) (fun k =>
       storeChannel k Null Null)) w = (Ok tt, w') /\
    length (heap (host w')) = S L + n /\
    length (splitInvertedChannels (globals w')) = 4 /\
    (forall j, j < n -> j < 4 ->
       splitInvertedChannels (globals w') !! j = Some (Ref (S L + j))) /\
    (forall j, n <= j -> j < 4 ->
       splitInvertedChannels (globals w') !! j = Some Null) /\
    shapePres w w' /\ sameOriginal w w'.
Proof.
  intros Hlen Hsrc Harr.
  destruct (forEach_inv
    (fun k w1 =>
       length (heap (host w1)) = S L + n /\
       length (splitInvertedChannels (globals w1)) = 4 /\
       forall j, j < k ->
         splitInvertedChannels (globals w1) !! j = Some (Ref (S L + j)))
    (zip (seq 0 4) (seq (S L) n))
    (fun '(i, c) =>
       IJ_run_convert 8 c ;;
       IJ_run_Grays c ;;
       IJ_run_Invert wholeStack c ;;
       t <- imp_getTitle src ;;
       imp_setTitle c ("C" +:+ pretty (i + 1) +:+ "-TempForMerge_" +:+ t) ;;
       imp_show c ;;
       storeChannel i (Ref c) (fullOf c))) with (w := w) as (w1 & E1 & Hl1 & Ha1 & Hr1).
  { intros k [i c] w1 Hk (Hl & Ha & Hr).
    apply lookup_zip_with_Some in Hk as (i' & c' & [= -> ->] & Hi & Hc).
    apply lookup_seq in Hi as [-> Hi]. apply lookup_seq in Hc as [-> Hc].
    cbn [Nat.add] in *.
    destruct (extractChannel_spec wholeStack src k (S L + k) (fullOf (S L + k)) w1)
      as (w2 & E2 & Hl2 & Ha2); [lia..|].
    exists w2. split; [exact E2|]. rewrite Hl2, Ha2.
    rewrite arraySet_lt by lia. rewrite length_insert.
    repeat split; [exact Hl|exact Ha|].
    intros j Hj. destruct (decide (j = k)) as [->|Hne].
    - apply list_lookup_insert_eq. lia.
    - rewrite list_lookup_insert_ne by congruence. apply Hr. lia. }
  { repeat split; [exact Hlen|exact Harr|]. intros j Hj. lia. }
  rewrite (bind_ok _ _ _ _ _ E1).
  rewrite length_zip_with, !length_seq in Hr1.
  rewrite length_seq.
  destruct (forEach_inv
    (fun k w2 =>
       length (heap (host w2)) = S L + n /\
       length (splitInvertedChannels (globals w2)) = 4 /\
       (forall j, j < n -> j < 4 ->
         splitInvertedChannels (globals w2) !! j = Some (Ref (S L + j))) /\
       forall j, n <= j -> j < n + k ->
         splitInvertedChannels (globals w2) !! j = Some Null)
    (seq n (4 - n))
    (fun k => storeChannel k Null Null)) with (w := w1)
    as (w2 & E2 & Hl2 & Ha2 & Hr2 & Hn2).
  { intros k a w2 Hk (Hl & Ha & Hr & Hn).
    apply lookup_seq in Hk as [-> Hk].
    eexists. split; [reflexivity|].
    wsimpl. rewrite arraySet_lt by lia. rewrite length_insert.
    repeat split; [exact Hl|exact Ha| |].
    - intros j Hj1 Hj2. rewrite list_lookup_insert_ne by lia. now apply Hr.
    - intros j Hj1 Hj2. destruct (decide (j = n + k)) as [->|Hne].
      + apply list_lookup_insert_eq. lia.
      + rewrite list_lookup_insert_ne by congruence. apply Hn; lia. }
  { repeat split; [exact Hl1|exact Ha1| |].
    - intros j Hj1 Hj2. apply Hr1. lia.
    - intros j Hj1 Hj2. lia. }
  pose proof E1 as S1. pose proof E2 as S2. pose proof E1 as O1. pose proof E2 as O2.
  pres_run shapePres shapePres_leaf S1. pres_run shapePres shapePres_leaf S2.
  pres_run sameOriginal sameOriginal_leaf O1. pres_run sameOriginal sameOriginal_leaf O2.
  exists w2. rewrite length_seq in Hn2.
  split; [exact E2|]. split; [exact Hl2|]. split; [exact Ha2|]. split; [exact Hr2|].
  split; [intros j Hj1 Hj2; apply Hn2; lia|].
  split; etransitivity; eassumption.
Qed.

(** The extractor: [w2] is the state after its two loops, [wf] the state
    it ends in. *)
Lemma duplicateSplitInvert_run w o img :
  currentImage (host w) = Some o -> heap (host w) !! o = Some img ->
  length (splitInvertedChannels (globals w)) = 4 ->
  exists w2 wf,
    snd (duplicateSplitInvert w) = wf /\
    globals wf = globals w2 /\
    shapePres w2 wf /\
    originalImage (globals w2) = Ref o /\
    length (splitInvertedChannels (globals w2)) = 4 /\
    (forall j, j < channelCount img -> j < 4 ->
       splitInvertedChannels (globals w2) !! j
       = Some (Ref (S (length (heap (host w))) + j))) /\
    (forall k, channelCount img <= k -> k < 4 ->
       splitInvertedChannels (globals w2) !! k = Some Null) /\
    (forall i x,
       ((heap (host w)
         ++ [duplicateOf (extractorOptions (useFramesCheckbox (ui w)) img) None img])
        ++ channelsOf
             (duplicateOf (extractorOptions (useFramesCheckbox (ui w)) img) None img))
         !! i = Some x ->
       exists x', heap (host w2) !! i = Some x' /\
         (planar x -> planar x') /\ (sourceOK x -> sourceOK x')).
Proof.
  intros Hcur Himg Harr.
  unfold duplicateSplitInvert, IJ_getImage at 1.
  rewrite bind_assoc, bind_gets, Hcur, bind_ret, bind_modify, bind_gets.
  erewrite bind_getImp by (wsimpl; exact Himg). cbv zeta.
  destruct w as [[h c msgs] g u]. wsimpl.
  set (opt := extractorOptions (useFramesCheckbox u) img).
  match goal with |- context [bind (if ?b then ?x else ?y)] =>
    replace (if b then x else y) with (IJ_run_Duplicate o opt None)
      by (subst opt; unfold extractorOptions; destruct b;
          [destruct (1 <? nSlices img)|]; reflexivity)
  end.
  erewrite bind_Duplicate by (wsimpl; exact Himg). wsimpl.
  set (dup := duplicateOf opt None img).
  assert (Hn : length (channelsOf dup) = channelCount img).
  { rewrite length_channelsOf. reflexivity. }
  assert (Ho : o < length h) by (eapply lookup_lt_Some; eassumption).
  unfold IJ_getImage at 1, ChannelSplitter_split. run.
  all: rewrite bind_newImps; wsimpl; rewrite Hn, length_app; cbn [length];
    rewrite Nat.add_1_r.
  all: match goal with
       | |- context [bind (bind (forEach _ (fun '(i, c) =>
              _ ;; _ ;; IJ_run_Invert ?ws _ ;; t <- imp_getTitle ?src ;; _ ;; _ ;;
              storeChannel _ _ (@?full c))) _) _ ?w] =>
           destruct (extract_loops ws src full w (length h) (channelCount img))
             as (w2 & E2 & Hl2 & Ha2 & Hr2 & Hn2 & Hs2 & Ho2);
           [ wsimpl; rewrite !length_app, Hn; cbn [length]; lia
           | lia
           | exact Harr
           | rewrite (bind_ok _ _ _ _ _ E2) ]
       end.
  all: exists w2; eexists; split; [reflexivity|].
  all: split;
    [ match goal with
      | |- globals (snd (?c ?w)) = globals ?w =>
          cut (preserves sameGlobals c);
          [ intros Hp; exact (Hp w) | unfold_host; pres_with sameGlobals_leaf ]
      end | ].
  all: split;
    [ match goal with
      | |- shapePres ?w (snd (?c ?w)) =>
          cut (preserves shapePres c);
          [ intros Hp; exact (Hp w) | unfold_host; pres_with shapePres_leaf ]
      end | ].
  all: split; [exact Ho2|].
  all: split; [exact Ha2|].
  all: split; [exact Hr2|].
  all: split; [exact Hn2|].
  all: intros i x Ex; exact (Hs2 i x Ex).
Qed.

(** An array that is populated exactly below [n] has [min n 4] populated
    entries. *)
Lemma countPopulated_prefix a n :
  length a = 4 ->
  (forall j, j < n -> j < 4 -> exists c, a !! j = Some (Ref c)) ->
  (forall k, n <= k -> k < 4 -> a !! k = Some Null) ->
  countPopulated a = min n 4.
Proof.
  intros Hl Hp Hn.
  destruct a as [|a0 [|a1 [|a2 [|a3 [|]]]]]; try discriminate.
  assert (Hj : forall j v, [a0; a1; a2; a3] !! j = Some v -> j < 4 ->
            truthy v = (j <? n)).
  { intros j v Ej Hj. destruct (Nat.ltb_spec j n).
    - destruct (Hp j) as [c Ec]; [assumption..|]. rewrite Ec in Ej. now injection Ej as <-.
    - rewrite Hn in Ej by assumption. now injection Ej as <-. }
  cbn [countPopulated].
  rewrite (Hj 0 a0 eq_refl), (Hj 1 a1 eq_refl), (Hj 2 a2 eq_refl), (Hj 3 a3 eq_refl) by lia.
  destruct (Nat.ltb_spec 0 n), (Nat.ltb_spec 1 n), (Nat.ltb_spec 2 n), (Nat.ltb_spec 3 n); lia.
Qed.

(** ** The merger *)

(** As many channels are selected as there are set checkboxes among the
    available channels. *)
Lemma length_selectChannels j cb split :
  length (selectChannels j cb split) = countChecked cb (length split - j).
Proof.
  revert j. induction cb as [|b rest IH]; intros j; cbn [selectChannels countChecked];
    [reflexivity|].
  rewrite length_app, IH.
  destruct (length split - j) as [|m] eqn:Em.
  - replace (length split - S j) with 0 by lia.
    rewrite (lookup_ge_None_2 split j) by lia. destruct b, rest; reflexivity.
  - destruct (lookup_lt_is_Some_2 split j ltac:(lia)) as [c ->].
    replace (length split - S j) with m by lia. destruct b; reflexivity.
Qed.

(** Converting the splits succeeds, keeps the store's size, closes
    nothing and opens no window. *)
Lemma convertSplitsTo16_ok split w :
  Forall (fun s => s < length (heap (host w))) split ->
  exists w', convertSplitsTo16 split w = (Ok tt, w') /\
    length (heap (host w')) = length (heap (host w)) /\
    flagsPres w w'.
Proof.
  intros Hsplit. unfold convertSplitsTo16.
  match goal with |- exists w', forEach ?l ?body w = _ /\ _ =>
    destruct (forEach_inv
      (fun _ w1 => length (heap (host w1)) = length (heap (host w)) /\ flagsPres w w1)
      l body) with (w := w) as (w' & E & Hl & Hf)
  end.
  - intros k s w1 Hk (Hl & Hf).
    assert (Hs : s < length (heap (host w1))).
    { rewrite Hl. rewrite Forall_forall in Hsplit. apply Hsplit.
      eapply list_elem_of_lookup_2, Hk. }
    destruct (lookup_lt_is_Some_2 _ _ Hs) as [img Ei].
    rewrite (bind_getImp _ _ _ _ Ei).
    destruct (negb (bitDepth img =? 16)%Z).
    + unfold IJ_run_convert. rewrite (updImp_ok _ _ _ _ Ei).
      eexists. split; [reflexivity|]. wsimpl. rewrite length_alter.
      split; [exact Hl|]. etransitivity; [exact Hf|].
      apply flagsPres_alter. intros ?. split; reflexivity.
    + eexists. split; [reflexivity|]. auto.
  - split; reflexivity.
  - eauto.
Qed.

(** Releasing one image. *)
Lemma release_ok i w img :
  heap (host w) !! i = Some img ->
  exists w', (imp_setChanges i false ;; imp_close i) w = (Ok tt, w') /\
    heap (host w')
    = <[i := set_closed true (set_visible false (set_changes false img))]> (heap (host w)).
Proof.
  intros Ei. unfold imp_setChanges, imp_close, dropCurrent.
  destruct w as [[h c msgs] g u]. wsimpl.
  erewrite bind_updImp by (wsimpl; exact Ei).
  cbv beta.
  erewrite bind_updImp by (wsimpl; rewrite list_lookup_alter_eq, Ei; reflexivity).
  eexists. split; [reflexivity|]. unfold modify. wsimpl.
  rewrite (alter_as_insert _ i h img Ei).
  erewrite alter_as_insert
    by (apply list_lookup_insert_eq; eapply lookup_lt_Some, Ei).
  rewrite list_insert_insert_eq.
  destruct (decide _); reflexivity.
Qed.

(** The loop that releases the splits. *)
Lemma release_all L n w :
  length (heap (host w)) = S L + n ->
  exists w',
    forEach (seq (S L) n) (fun s => imp_setChanges s false ;; imp_close s) w
    = (Ok tt, w') /\
    length (heap (host w')) = S L + n /\
    (forall i, i <= L -> heap (host w') !! i = heap (host w) !! i) /\
    (forall i, L < i < S L + n ->
       exists tmp, heap (host w') !! i = Some tmp /\ released tmp).
Proof.
  intros Hlen.
  match goal with |- exists w', forEach ?l ?body w = _ /\ _ =>
    destruct (forEach_inv
      (fun k w1 => length (heap (host w1)) = S L + n /\
         (forall i, i <= L -> heap (host w1) !! i = heap (host w) !! i) /\
         (forall i, L < i < S L + k ->
            exists tmp, heap (host w1) !! i = Some tmp /\ released tmp))
      l body) with (w := w) as (w' & E & Hl & Hlow & Hrel)
  end.
  - intros k s w1 Hk (Hl & Hlow & Hrel).
    apply lookup_seq in Hk as [-> Hk].
    destruct (lookup_lt_is_Some_2 (heap (host w1)) (S L + k) ltac:(lia)) as [img Ei].
    destruct (release_ok _ _ _ Ei) as (w2 & E2 & Hheap).
    exists w2. split; [exact E2|]. rewrite Hheap, length_insert.
    split; [exact Hl|]. split.
    + intros i Hi. rewrite list_lookup_insert_ne by lia. now apply Hlow.
    + intros i Hi. destruct (decide (i = S L + k)) as [->|Hne].
      * rewrite list_lookup_insert_eq by lia. eexists. split; [reflexivity|].
        repeat split.
      * rewrite list_lookup_insert_ne by congruence. apply Hrel. lia.
  - split; [exact Hlen|]. split; [reflexivity|]. intros i Hi. lia.
  - exists w'. rewrite length_seq in Hrel. auto.
Qed.

(** The merger catches every exception. *)
Lemma createMergeOnly_Ok showImage w :
  exists v w', createMergeOnly showImage w = (Ok v, w').
Proof.
  unfold createMergeOnly, catch.
  match goal with |- context [match ?c w with _ => _ end] =>
    destruct (c w) as [[v|e] w1]
  end; eauto.
Qed.

(** ** Pixels *)

Lemma nth_map_seq {A} (f : nat -> A) n i d :
  i < n -> nth i (map f (seq 0 n)) d = f i.
Proof.
  intros Hi. rewrite (nth_indep _ d (f 0)) by now rewrite length_map, length_seq.
  rewrite map_nth. now rewrite seq_nth.
Qed.

Lemma getPixel_in ip x y :
  x < ipWidth ip -> y < ipHeight ip ->
  getPixel ip x y = nth (y * ipWidth ip + x) (ipPixels ip) 0%Z.
Proof.
  intros Hx Hy. unfold getPixel.
  destruct (Nat.ltb_spec x (ipWidth ip)); [|lia].
  destruct (Nat.ltb_spec y (ipHeight ip)); [|lia]. reflexivity.
Qed.

(** The samples of a plane after an insertion. *)
Lemma getPixel_insert dst src xl yl x y :
  x < ipWidth dst -> y < ipHeight dst ->
  getPixel (ip_insert dst src xl yl) x y
  = if (xl <=? x) && (x <? xl + ipWidth src) && (yl <=? y) && (y <? yl + ipHeight src)
    then getPixel (convertTo (ipBitDepth dst) src) (x - xl) (y - yl)
    else getPixel dst x y.
Proof.
  intros Hx Hy. rewrite getPixel_in by (cbn; lia).
  cbn [ip_insert ipWidth ipHeight ipPixels ipBitDepth convertTo].
  rewrite nth_map_seq by nia.
  assert (Hmod : (y * ipWidth dst + x) mod ipWidth dst = x).
  { rewrite Nat.add_comm, Nat.Div0.mod_add. apply Nat.mod_small, Hx. }
  assert (Hdiv : (y * ipWidth dst + x) / ipWidth dst = y).
  { rewrite Nat.add_comm, Nat.div_add by lia. rewrite Nat.div_small by lia. lia. }
  cbv zeta. rewrite Hmod, Hdiv.
  destruct ((xl <=? x) && (x <? xl + ipWidth src) && (yl <=? y) && (y <? yl + ipHeight src))
    eqn:Ein.
  - apply andb_prop in Ein as [Ein Ey2]. apply andb_prop in Ein as [Ein Ey1].
    apply andb_prop in Ein as [Ex1 Ex2].
    apply Nat.leb_le in Ex1, Ey1. apply Nat.ltb_lt in Ex2, Ey2.
    rewrite getPixel_in by (cbn; lia). reflexivity.
  - rewrite getPixel_in by assumption. reflexivity.
Qed.

Lemma convertPixels_idem a d px :
  convertPixels d d (convertPixels a d px) = convertPixels a d px.
Proof. unfold convertPixels at 1. now rewrite Z.eqb_refl. Qed.

Lemma convertTo_convertTo d p : convertTo d (convertTo d p) = convertTo d p.
Proof. unfold convertTo. cbn. now rewrite convertPixels_idem. Qed.

(** ** The montage *)

(** One pass through the body of the copy loop, for a time series and for
    a single frame. *)
Lemma paste_iter_multi anyRGB L p f i xOffset w1 img1 outimg :
  heap (host w1) !! i = Some img1 -> heap (host w1) !! L = Some outimg -> i <> L ->
  exists w2,
    (img <- getImp i ;;
     proc <-
       (if f <=? nFrames img then
          imp_setSlice i f ;;
          r <- imp_getProcessor i ;; ip_read r
        else if 0 <? nFrames img then
          imp_setSlice i (nFrames img) ;;
          r <- imp_getProcessor i ;; ip_read r
        else
          r <- imp_getProcessor i ;; ip_read r) ;;
     pasteProcessor anyRGB (L, p) img proc xOffset) w1
    = (Ok (xOffset + width img1), w2) /\
    heap (host w2)
    = <[L := pasted outimg p (rgbIf anyRGB img1 (processorOf (chosen f img1))) xOffset]>
        (<[i := chosen f img1]> (heap (host w1))).
Proof.
  intros Ei EL Hne.
  unfold pasteProcessor, ip_insertInto, ip_read, imp_getProcessor, imp_setSlice.
  run.
  all: eexists; split; [reflexivity|]; wsimpl.
  all: unfold chosen; rewrite ?Heqb, ?Heqb0.
  1,2: rewrite (alter_as_insert _ i _ img1 Ei);
       erewrite (alter_as_insert _ L _ outimg)
         by (rewrite list_lookup_insert_ne by exact Hne; exact EL);
       reflexivity.
  rewrite (list_insert_id _ i img1 Ei).
  rewrite (alter_as_insert _ L _ outimg EL). reflexivity.
Qed.

Lemma paste_iter_single anyRGB L p i xOffset w1 img1 outimg :
  heap (host w1) !! i = Some img1 -> heap (host w1) !! L = Some outimg -> i <> L ->
  exists w2,
    (img <- getImp i ;;
     r <- imp_getProcessor i ;;
     proc <- ip_read r ;;
     pasteProcessor anyRGB (L, p) img proc xOffset) w1
    = (Ok (xOffset + width img1), w2) /\
    heap (host w2)
    = <[L := pasted outimg p (rgbIf anyRGB img1 (processorOf img1)) xOffset]>
        (<[i := img1]> (heap (host w1))).
Proof.
  intros Ei EL Hne.
  unfold pasteProcessor, ip_insertInto, ip_read, imp_getProcessor, imp_setSlice.
  run.
  eexists; split; [reflexivity|]; wsimpl.
  rewrite (list_insert_id _ i img1 Ei).
  rewrite (alter_as_insert _ L _ outimg EL). reflexivity.
Qed.

Lemma fold_left_widths (imgs : list ImagePlus) a :
  fold_left (fun sum img => sum + width img) imgs a = a + sumWidths imgs.
Proof.
  unfold sumWidths. revert a. induction imgs as [|x l IH]; intros a; cbn [fold_left].
  - lia.
  - rewrite (IH (a + width x)), (IH (0 + width x)). lia.
Qed.

Lemma sumWidths_app l1 l2 : sumWidths (l1 ++ l2) = sumWidths l1 + sumWidths l2.
Proof. unfold sumWidths at 1. rewrite fold_left_app. apply fold_left_widths. Qed.

Lemma offsetOf_S imgs k img :
  imgs !! k = Some img -> offsetOf imgs (S k) = offsetOf imgs k + width img.
Proof.
  intros E. unfold offsetOf. rewrite (take_S_r _ _ _ E), sumWidths_app.
  cbn. lia.
Qed.

Lemma offsetOf_mono imgs j k : j <= k -> offsetOf imgs j <= offsetOf imgs k.
Proof.
  intros Hjk. unfold offsetOf.
  replace k with (j + (k - j)) by lia.
  rewrite <- (take_drop j (take (j + (k - j)) imgs)).
  rewrite take_take, Nat.min_l by lia. rewrite sumWidths_app. lia.
Qed.

Lemma offsetOf_all imgs k : length imgs <= k -> offsetOf imgs k = sumWidths imgs.
Proof. intros Hk. unfold offsetOf. now rewrite take_ge. Qed.

Lemma sumWidths_sum_list imgs : sumWidths imgs = sum_list (map width imgs).
Proof.
  induction imgs as [|x l IH]; [reflexivity|].
  change (x :: l) with ([x] ++ l). rewrite sumWidths_app, IH. cbn. lia.
Qed.

(** The loop over the inputs for the output plane [p] and the frame [f];
    [body] and [pick] stand for the two variants of the loop body. *)
Section InnerLoop.
Variables (h : list ImagePlus) (images : list ImageId) (imgs : list ImagePlus).
Variables (out0 : ImagePlus) (anyRGB : bool) (p f : nat).
Variables (body : nat -> ImageId -> M nat) (pick : ImagePlus -> ImagePlus).
Hypothesis Himgs : Forall2 (fun i img => h !! i = Some img) images imgs.
Hypothesis Hwidth : sumWidths imgs <= width out0.
Hypothesis Hheight : forall img, img ∈ imgs -> height img <= height out0.
Hypothesis Hdepth : anyRGB = true -> bitDepth out0 = 24%Z.
Hypothesis Hbody : forall i xOffset w1 img1 outimg,
  heap (host w1) !! i = Some img1 -> heap (host w1) !! length h = Some outimg ->
  i <> length h ->
  exists w2,
    body xOffset i w1 = (Ok (xOffset + width img1), w2) /\
    heap (host w2)
    = <[length h := pasted outimg p (rgbIf anyRGB img1 (processorOf (pick img1))) xOffset]>
        (<[i := pick img1]> (heap (host w1))).
Hypothesis Hpick : forall cs img0,
  exists cs', pick (set_currentSlice cs img0) = set_currentSlice cs' img0 /\
    (1 <= cs <= length (stack img0) -> 1 <= cs' <= length (stack img0)).
Hypothesis Hframe : forall img0 cs,
  img0 ∈ imgs -> planar img0 -> 1 <= cs <= length (stack img0) ->
  processorOf (pick (set_currentSlice cs img0)) = frameOf img0 f.

Lemma inner_loop st0 w1 :
  p < length st0 ->
  MontageState h out0 (eq st0) w1 ->
  exists s' w2,
    foldM images 0 body w1 = (Ok s', w2) /\
    MontageState h out0
      (fun st => (forall q, q <> p -> st !! q = st0 !! q) /\
                 (Forall planar imgs ->
                  Content imgs (width out0) (height out0) (bitDepth out0) f
                          (nth p st []) (length imgs)))
      w2.
Proof.
  intros Hp Hstart.
  assert (Hp0 : p < length (stack out0)).
  { destruct Hstart as (_ & _ & st & cs & _ & Hst & <-). lia. }
  destruct (foldM_inv
    (fun k s w => s = offsetOf imgs k /\
       MontageState h out0
         (fun st => (forall q, q <> p -> st !! q = st0 !! q) /\
                    (Forall planar imgs ->
                     Content imgs (width out0) (height out0) (bitDepth out0) f
                             (nth p st []) k)) w)
    images body) with (s := 0) (w := w1) as (s' & w2 & E & _ & Hdone).
  - intros k i s w Hk (-> & Hlen & Hin & st & cs & Hout & Hst & Hq & Hc).
    destruct (Forall2_lookup_l _ _ _ _ _ Himgs Hk) as (img0 & Hk' & Hi).
    destruct (Hin i img0 Hi) as (csi & Hi1 & Hvalid).
    assert (HiL : i < length h) by (eapply lookup_lt_Some; eassumption).
    destruct (Hbody i (offsetOf imgs k) w _ _ Hi1 Hout) as (w2 & E2 & Hheap); [lia|].
    destruct (Hpick csi img0) as (cs' & Epick & Hvalid').
    exists (offsetOf imgs k + width (set_currentSlice csi img0)), w2.
    split; [exact E2|].
    split; [cbn [width set_currentSlice]; symmetry; apply offsetOf_S, Hk'|].
    rewrite Epick in Hheap.
    unfold MontageState. rewrite Hheap, !length_insert. split; [exact Hlen|]. split.
    + intros i' img0' Hi'.
      assert (i' < length h) by (eapply lookup_lt_Some; eassumption).
      rewrite list_lookup_insert_ne by lia.
      destruct (decide (i' = i)) as [->|Hne].
      * rewrite list_lookup_insert_eq by lia.
        rewrite Hi in Hi'. injection Hi' as <-.
        exists cs'. split; [reflexivity|]. intros Hv. apply Hvalid', Hvalid, Hv.
      * rewrite list_lookup_insert_ne by congruence. apply Hin, Hi'.
    + eexists (<[p := _]> st), cs.
      rewrite list_lookup_insert_eq by (rewrite length_insert; lia).
      split; [reflexivity|]. rewrite length_insert. split; [exact Hst|]. split.
      * intros q Hq'. rewrite list_lookup_insert_ne by congruence. now apply Hq.
      * intros Hplanar j img x y Hj Hj' Hx Hy.
        rewrite nth_lookup, list_lookup_insert_eq by lia. cbn [default].
        cbn [stack set_pixels set_currentSlice width height bitDepth].
        match goal with |- getPixel ?ip _ _ = _ =>
          change ip with
            (ip_insert (mkIP (width out0) (height out0) (bitDepth out0) (nth p st []))
               (rgbIf anyRGB (set_currentSlice csi img0)
                  (processorOf (set_currentSlice cs' img0)))
               (offsetOf imgs k) 0)
        end.
        assert (Hjin : img ∈ imgs) by (eapply list_elem_of_lookup_2; eassumption).
        assert (Hoff : offsetOf imgs (S j) <= width out0).
        { etransitivity; [|exact Hwidth].
          rewrite <- (offsetOf_all imgs (length imgs)) by lia.
          apply offsetOf_mono. apply lookup_lt_Some in Hj'. lia. }
        rewrite (offsetOf_S _ _ _ Hj') in Hoff.
        specialize (Hheight _ Hjin).
        rewrite getPixel_insert by (cbn; lia).
        assert (Ewidth : ipWidth (rgbIf anyRGB (set_currentSlice csi img0)
                  (processorOf (set_currentSlice cs' img0))) = width img0).
        { unfold rgbIf. destruct (_ && _); reflexivity. }
        assert (Eheight : ipHeight (rgbIf anyRGB (set_currentSlice csi img0)
                  (processorOf (set_currentSlice cs' img0))) = height img0).
        { unfold rgbIf. destruct (_ && _); reflexivity. }
        rewrite Ewidth, Eheight.
        destruct (decide (j = k)) as [->|Hne].
        -- rewrite Hk' in Hj'. injection Hj' as <-.
           destruct (Nat.leb_spec (offsetOf imgs k) (offsetOf imgs k + x)); [|lia].
           destruct (Nat.ltb_spec (offsetOf imgs k + x) (offsetOf imgs k + width img0)); [|lia].
           destruct (Nat.ltb_spec y (0 + height img0)); [|lia].
           cbn [andb Nat.leb].
           replace (offsetOf imgs k + x - offsetOf imgs k) with x by lia.
           rewrite Nat.sub_0_r.
           rewrite <- Epick, (Hframe img0 csi Hjin).
           ++ unfold rgbIf. destruct anyRGB eqn:Ergb; cbn [andb]; [|reflexivity].
              destruct (negb _); [|reflexivity].
              rewrite (Hdepth eq_refl). unfold convertToRGB. cbn [ipBitDepth].
              now rewrite convertTo_convertTo.
           ++ rewrite Forall_forall in Hplanar. apply Hplanar, Hjin.
           ++ apply Hvalid. rewrite Forall_forall in Hplanar.
              apply (Hplanar _ Hjin).
        -- assert (Hjk : offsetOf imgs (S j) <= offsetOf imgs k)
             by (apply offsetOf_mono; lia).
           rewrite (offsetOf_S _ _ _ Hj') in Hjk.
           destruct (Nat.leb_spec (offsetOf imgs k) (offsetOf imgs j + x)); [lia|].
           cbn [andb]. apply (Hc Hplanar j img x y); [lia|assumption..].
  - split; [reflexivity|].
    destruct Hstart as (Hlen & Hin & st & cs & Hout & Hst & <-).
    split; [exact Hlen|]. split; [exact Hin|].
    exists st0, cs. repeat split; try assumption.
    intros _ j img x y Hj. lia.
  - exists s', w2. split; [exact E|].
    rewrite (Forall2_length _ _ _ Himgs) in Hdone. exact Hdone.
Qed.

End InnerLoop.

Lemma MontageState_weaken h out0 (Q Q' : list (list Z) -> Prop) w :
  (forall st, length st = length (stack out0) -> Q st -> Q' st) ->
  MontageState h out0 Q w -> MontageState h out0 Q' w.
Proof.
  intros HQ (Hlen & Hin & st & cs & Hout & Hst & Hq).
  split; [exact Hlen|]. split; [exact Hin|]. exists st, cs. auto.
Qed.

Lemma set_currentSlice_same img : set_currentSlice (currentSlice img) img = img.
Proof. now destruct img. Qed.

Lemma setSliceOf_base n cs img0 :
  exists cs', setSliceOf n (set_currentSlice cs img0) = set_currentSlice cs' img0 /\
    (1 <= cs <= length (stack img0) -> 1 <= cs' <= length (stack img0)) /\
    (1 <= n <= length (stack img0) -> cs' = n).
Proof.
  unfold setSliceOf. cbn [stack set_currentSlice].
  destruct (Nat.leb_spec 1 n), (Nat.leb_spec n (length (stack img0))); cbn [andb].
  - exists n. repeat split; try lia.
  - exists cs. repeat split; try lia.
  - exists cs. repeat split; try lia.
  - exists cs. repeat split; try lia.
Qed.

Lemma setSliceOf_valid n img :
  1 <= n <= length (stack img) -> setSliceOf n img = set_currentSlice n img.
Proof.
  intros Hn. unfold setSliceOf.
  destruct (Nat.leb_spec 1 n); [|lia].
  destruct (Nat.leb_spec n (length (stack img))); [|lia]. reflexivity.
Qed.

Lemma chosen_pick f cs img0 :
  exists cs', chosen f (set_currentSlice cs img0) = set_currentSlice cs' img0 /\
    (1 <= cs <= length (stack img0) -> 1 <= cs' <= length (stack img0)).
Proof.
  unfold chosen. cbn [nFrames set_currentSlice].
  destruct (f <=? nFrames img0); [|destruct (0 <? nFrames img0)].
  - destruct (setSliceOf_base f cs img0) as (cs' & E & Hv & _). eauto.
  - destruct (setSliceOf_base (nFrames img0) cs img0) as (cs' & E & Hv & _). eauto.
  - eauto.
Qed.

Lemma chosen_frame f cs img0 :
  1 <= f -> planar img0 -> 1 <= cs <= length (stack img0) ->
  processorOf (chosen f (set_currentSlice cs img0)) = frameOf img0 f.
Proof.
  intros Hf (_ & _ & Hst & HnF & _) Hcs.
  unfold chosen. cbn [nFrames set_currentSlice].
  destruct (Nat.leb_spec f (nFrames img0)).
  - destruct (setSliceOf_base f cs img0) as (cs' & -> & _ & Hn).
    rewrite (Hn ltac:(lia)). unfold processorOf, frameOf, framePlane.
    cbn [width height bitDepth stack currentSlice set_currentSlice].
    now rewrite Nat.min_l by lia.
  - destruct (Nat.ltb_spec 0 (nFrames img0)); [|lia].
    destruct (setSliceOf_base (nFrames img0) cs img0) as (cs' & -> & _ & Hn).
    rewrite (Hn ltac:(lia)). unfold processorOf, frameOf, framePlane.
    cbn [width height bitDepth stack currentSlice set_currentSlice].
    now rewrite Nat.min_r by lia.
Qed.

Lemma current_frame cs img0 :
  planar img0 -> nFrames img0 <= 1 -> 1 <= cs <= length (stack img0) ->
  processorOf (set_currentSlice cs img0) = frameOf img0 1.
Proof.
  intros (_ & _ & Hst & HnF & _) Hle Hcs.
  unfold processorOf, frameOf, framePlane.
  cbn [width height bitDepth stack currentSlice set_currentSlice].
  replace cs with 1 by lia. now rewrite Nat.min_l by lia.
Qed.

Lemma max_list_cons x l : max_list (x :: l) = max x (max_list l).
Proof. reflexivity. Qed.

(** The loop that looks for time frames finds the largest frame count. *)
Lemma frameScan_acc (imgs : list ImagePlus) b m :
  1 <= m ->
  let r := fold_left (fun '(hasTimeFrames, maxFrames) img =>
               let nF := nFrames img in
               if 1 <? nF
               then (true, if maxFrames <? nF then nF else maxFrames)
               else (hasTimeFrames, maxFrames))
            imgs (b, m) in
  snd r = max m (max_list (map nFrames imgs)) /\
  (fst r = false -> forall img, img ∈ imgs -> nFrames img <= 1) /\
  (fst r = false -> b = false).
Proof.
  revert b m. induction imgs as [|x l IH]; intros b m Hm; cbn [fold_left map];
    rewrite ?max_list_cons.
  - cbn. repeat split; [lia| |auto]. intros _ img Hin. inversion Hin.
  - cbv zeta. destruct (Nat.ltb_spec 1 (nFrames x)).
    + destruct (Nat.ltb_spec m (nFrames x)).
      * destruct (IH true (nFrames x) ltac:(lia)) as (E & Hf & Hb).
        cbv zeta in E, Hf, Hb. rewrite E. repeat split; [lia| |].
        -- intros Hfalse. specialize (Hb Hfalse). discriminate.
        -- intros Hfalse. specialize (Hb Hfalse). discriminate.
      * destruct (IH true m Hm) as (E & Hf & Hb).
        cbv zeta in E, Hf, Hb. rewrite E. repeat split; [lia| |].
        -- intros Hfalse. specialize (Hb Hfalse). discriminate.
        -- intros Hfalse. specialize (Hb Hfalse). discriminate.
    + destruct (IH b m Hm) as (E & Hf & Hb).
      cbv zeta in E, Hf, Hb. rewrite E. repeat split; [lia| |exact Hb].
      intros Hfalse img Hin. apply elem_of_cons in Hin as [->|Hin]; [lia|].
      now apply Hf.
Qed.

Lemma frameScan_spec (imgs : list ImagePlus) :
  snd (frameScan imgs) = max 1 (max_list (map nFrames imgs)) /\
  (fst (frameScan imgs) = false -> forall img, img ∈ imgs -> nFrames img <= 1).
Proof.
  destruct (frameScan_acc imgs false 1 (le_n 1)) as (E & Hf & _). split; assumption.
Qed.

Lemma fold_left_max l a : fold_left Nat.max l a = max a (max_list l).
Proof.
  revert a. induction l as [|x l IH]; intros a; cbn [fold_left];
    rewrite ?max_list_cons.
  - change (max_list []) with 0. lia.
  - rewrite IH. lia.
Qed.

Lemma Math_max_spec l : l <> [] -> Math_max l = Some (max_list l).
Proof.
  destruct l as [|x l]; [congruence|]. intros _. cbn [Math_max].
  rewrite max_list_cons.
  now rewrite fold_left_max.
Qed.

(** The loop over the output frames. *)
Section OuterLoop.
Variables (h : list ImagePlus) (images : list ImageId) (imgs : list ImagePlus).
Variables (out0 : ImagePlus) (anyRGB : bool).
Hypothesis Himgs : Forall2 (fun i img => h !! i = Some img) images imgs.
Hypothesis Hwidth : sumWidths imgs <= width out0.
Hypothesis Hheight : forall img, img ∈ imgs -> height img <= height out0.
Hypothesis Hdepth : anyRGB = true -> bitDepth out0 = 24%Z.

Lemma outer_loop n w1 :
  length (stack out0) = n ->
  MontageState h out0 (fun _ => True) w1 ->
  exists w2,
    forEach (seq 1 n) (fun f =>
      imp_setSlice (length h) f ;;
      ip <- imp_getProcessor (length h) ;;
      _ <- foldM images 0 (fun xOffset i =>
             img <- getImp i ;;
             proc <-
               (if f <=? nFrames img then
                  imp_setSlice i f ;;
                  r <- imp_getProcessor i ;; ip_read r
                else if 0 <? nFrames img then
                  imp_setSlice i (nFrames img) ;;
                  r <- imp_getProcessor i ;; ip_read r
                else
                  r <- imp_getProcessor i ;; ip_read r) ;;
             pasteProcessor anyRGB ip img proc xOffset) ;;
      ret tt) w1 = (Ok tt, w2) /\
    MontageState h out0
      (fun st => Forall planar imgs ->
         forall g, 1 <= g <= n ->
           Content imgs (width out0) (height out0) (bitDepth out0) g
                   (nth (g - 1) st []) (length imgs)) w2.
Proof.
  intros Hn Hstart.
  match goal with |- exists w2, forEach ?l ?body w1 = _ /\ _ =>
    destruct (forEach_inv
      (fun k w => MontageState h out0
         (fun st => Forall planar imgs ->
            forall g, 1 <= g <= k ->
              Content imgs (width out0) (height out0) (bitDepth out0) g
                      (nth (g - 1) st []) (length imgs)) w)
      l body) with (w := w1) as (w2 & E & Hdone)
  end.
  - intros k f w Hk (Hlen & Hin & st & cs & Hout & Hst & Hq).
    apply lookup_seq in Hk as [-> Hk]. cbn [Nat.add].
    unfold imp_setSlice at 1, imp_getProcessor at 1.
    erewrite bind_updImp by exact Hout.
    rewrite bind_assoc.
    erewrite bind_getImp
      by (wsimpl; rewrite list_lookup_alter_eq, Hout; reflexivity).
    rewrite bind_ret.
    rewrite setSliceOf_valid by (cbn [stack set_pixels]; lia).
    cbn [currentSlice set_currentSlice set_pixels]. rewrite Nat.sub_succ, Nat.sub_0_r.
    match goal with |- context [bind (foldM images 0 ?body) _ ?wA] =>
      destruct (inner_loop h images imgs out0 anyRGB k (S k) body (chosen (S k))
                  Himgs Hwidth Hheight Hdepth) with (st0 := st) (w1 := wA)
        as (s' & w2 & E2 & Hlen2 & Hin2 & st2 & cs2 & Hout2 & Hst2 & Hq2 & Hc2)
    end.
    + intros i xOffset w0 img1 outimg. apply paste_iter_multi.
    + intros cs0 img0. apply chosen_pick.
    + intros img0 cs0 _ Hpl Hcs. apply chosen_frame; [lia|assumption..].
    + lia.
    + unfold MontageState. wsimpl. split; [now rewrite length_alter|]. split.
      * intros i img0 Hi.
        assert (i < length h) by (eapply lookup_lt_Some; eassumption).
        rewrite list_lookup_alter_ne by lia. now apply Hin.
      * exists st, (S k). rewrite list_lookup_alter_eq, Hout. cbn [fmap option_fmap option_map].
        rewrite setSliceOf_valid by (cbn [stack set_pixels]; lia).
        split; [reflexivity|]. split; [exact Hst|reflexivity].
    + rewrite (bind_ok _ _ _ _ _ E2). exists w2. split; [reflexivity|].
      split; [exact Hlen2|]. split; [exact Hin2|].
      exists st2, cs2. split; [exact Hout2|]. split; [exact Hst2|].
      intros Hplanar g Hg.
      destruct (decide (g = S k)) as [->|Hne].
      * rewrite Nat.sub_succ, Nat.sub_0_r. now apply Hc2.
      * rewrite nth_lookup, Hq2 by lia. rewrite <- nth_lookup.
        apply Hq; [assumption|lia].
  - destruct Hstart as (Hlen & Hin & st & cs & Hout & Hst & _).
    split; [exact Hlen|]. split; [exact Hin|].
    exists st, cs. repeat split; try assumption. intros _ g Hg. lia.
  - exists w2. split; [exact E|]. now rewrite length_seq in Hdone.
Qed.

End OuterLoop.

(** The calibration copy and the display that end the montage. *)
Lemma montage_tail h out0 (Q : list (list Z) -> Prop) first img0 hasTimeFrames w2 :
  MontageState h out0 Q w2 -> h !! first = Some img0 -> visible out0 = false ->
  exists w' out,
    (cal <- imp_getCalibration first ;;
     copySpatial cal (length h) ;;
     (if hasTimeFrames : bool then copyTemporal cal (length h) else ret tt) ;;
     imp_show (length h) ;;
     ret (Ref (length h))) w2 = (Ok (Ref (length h)), w') /\
    heap (host w') !! length h = Some out /\
    width out = width out0 /\ height out = height out0 /\
    bitDepth out = bitDepth out0 /\ nFrames out = nFrames out0 /\
    length (stack out) = length (stack out0) /\ Q (stack out) /\
    visible out = true /\
    pixelWidth (calibration out) = pixelWidth (calibration img0) /\
    pixelHeight (calibration out) = pixelHeight (calibration img0) /\
    calUnit (calibration out) = calUnit (calibration img0).
Proof.
  intros (Hlen & Hin & st & cs & Hout & Hst & Hq) Hfirst Hvis.
  destruct (Hin _ _ Hfirst) as (csf & Hf & _).
  assert (first < length h) by (eapply lookup_lt_Some; eassumption).
  unfold imp_getCalibration, copySpatial, copyTemporal, updCalibration, imp_show.
  run.
  all: rewrite ?Hvis in *; try discriminate.
  all: run.
  all: do 2 eexists; split; [reflexivity|]; wsimpl.
  all: rewrite !list_lookup_alter_eq, Hout; cbn [fmap option_fmap option_map].
  all: split; [reflexivity|]; wsimpl; auto 20.
Qed.

Lemma MontageState_fresh h out0 c msgs g u :
  MontageState h out0 (eq (stack out0))
    (mkWorld (mkHost (h ++ [out0]) c msgs) g u).
Proof.
  unfold MontageState. wsimpl. split; [rewrite length_app; cbn; lia|]. split.
  - intros i img0 Hi. exists (currentSlice img0).
    rewrite set_currentSlice_same. split; [now apply lookup_app_l_Some|].
    intros Hv. exact Hv.
  - exists (stack out0), (currentSlice out0). rewrite lookup_last.
    split; [now destruct out0|]. split; reflexivity.
Qed.

(** What the montage assembler does with two or more images. *)
Lemma stackImagesHorizontally_spec images imgs w :
  2 <= length images ->
  Forall2 (fun i img => heap (host w) !! i = Some img) images imgs ->
  exists w' out,
    stackImagesHorizontally images w = (Ok (Ref (length (heap (host w)))), w') /\
    heap (host w') !! length (heap (host w)) = Some out /\
    width out = sumWidths imgs /\
    height out = max_list (map height imgs) /\
    bitDepth out = montageDepth imgs /\
    nFrames out = snd (frameScan imgs) /\
    length (stack out) = nFrames out /\
    visible out = true /\
    (Forall planar imgs ->
     forall g, 1 <= g <= nFrames out ->
       Content imgs (width out) (height out) (bitDepth out) g
               (nth (g - 1) (stack out) []) (length imgs)).
Proof.
  intros Hlen Himgs.
  unfold stackImagesHorizontally.
  destruct (Nat.ltb_spec (length images) 2); [lia|].
  rewrite (bind_ok _ _ _ _ _ (mapM_getImp _ _ _ Himgs)).
  pose proof (Forall2_length _ _ _ Himgs) as Hlen'.
  destruct (frameScan_spec imgs) as (Emax & Hnotime).
  destruct (frameScan imgs) as [hasTimeFrames maxFrames] eqn:Escan.
  cbn [fst snd] in *.
  rewrite Math_max_spec by (destruct imgs; [cbn in Hlen'; lia|discriminate]).
  destruct imgs as [|first imgs']; [cbn in Hlen'; lia|].
  destruct images as [|i0 images']; [cbn in Hlen; lia|].
  pose proof (Forall2_cons_1 _ _ _ _ _ Himgs) as [Hfirst _].
  set (imgs := first :: imgs') in *. set (images := i0 :: images') in *.
  rewrite fold_left_widths, Nat.add_0_l.
  set (W := sumWidths imgs). set (Ht := max_list (map height imgs)).
  set (anyRGB := existsb (fun img => (bitDepth img =? 24)%Z) imgs).
  assert (Hheight : forall img, img ∈ imgs -> height img <= Ht).
  { intros img Hin. apply max_list_elem_of_le.
    apply list_elem_of_fmap. exists img. auto. }
  destruct w as [[h c msgs] g u]. wsimpl.
  assert (Hmax1 : 1 <= maxFrames) by lia.
  set (ty := if anyRGB then (if hasTimeFrames then TypeRGB else TypeRGBColor)
             else if (bitDepth first =? 16)%Z then Type16bitBlack else Type8bitBlack).
  assert (Hty : typeDepth ty = montageDepth imgs).
  { unfold ty, montageDepth. fold anyRGB. subst imgs.
    destruct anyRGB, hasTimeFrames, (bitDepth first =? 16)%Z; reflexivity. }
  assert (Hrgb : anyRGB = true -> typeDepth ty = 24%Z).
  { intros E. unfold ty. rewrite E. now destruct hasTimeFrames. }
  assert (Hi0 : h !! i0 = Some first) by exact Hfirst.
  destruct hasTimeFrames.
  - (* time frames *)
    match goal with |- context [bind (if anyRGB then ?a else ?b)] =>
      replace (if anyRGB then a else b)
        with (stack0 <- new_ImagePlus "Stacked" ty W Ht maxFrames ;;
              imp_setDimensions stack0 1 1 maxFrames ;; ret stack0)
        by (unfold ty; destruct anyRGB; reflexivity)
    end.
    unfold new_ImagePlus, imp_setDimensions. run.
    set (out0 := set_dimensions 1 1 maxFrames _).
    match goal with |- context [bind (forEach _ _) _ ?wA] =>
      destruct (outer_loop h images imgs out0 anyRGB Himgs) with (n := maxFrames) (w1 := wA)
        as (w2 & E2 & Hstate)
    end.
    + cbn. lia.
    + exact Hheight.
    + exact Hrgb.
    + cbn. apply length_replicate.
    + eapply MontageState_weaken; [|apply MontageState_fresh]. auto.
    + rewrite (bind_ok _ _ _ _ _ E2), bind_ret.
      destruct (montage_tail _ _ _ i0 first true _ Hstate Hi0 eq_refl)
        as (w' & out & E & Hout & Hw & Hh & Hd & HnF & Hst & Hq & Hvis & _).
      exists w', out. split; [exact E|]. split; [exact Hout|].
      rewrite Hw, Hh, Hd, HnF, Hst. cbn [width height bitDepth nFrames stack out0 set_dimensions].
      rewrite length_replicate.
      repeat split; try assumption; try reflexivity.
  - (* single frame *)
    assert (Hone : maxFrames = 1).
    { rewrite Emax. apply Nat.max_l. clear - Hnotime.
      specialize (Hnotime eq_refl).
      assert (Hall : forall n, n ∈ map nFrames imgs -> n <= 1).
      { intros n Hn. apply list_elem_of_fmap in Hn as (img & -> & Hin). auto. }
      revert Hall. generalize (map nFrames imgs). intros l.
      induction l as [|x l IH]; intros Hall; [cbn; lia|].
      rewrite max_list_cons.
      assert (x <= 1) by (apply Hall; left).
      assert (max_list l <= 1) by (apply IH; intros n Hn; apply Hall; now right).
      lia. }
    match goal with |- context [bind (if anyRGB then ?a else ?b)] =>
      replace (if anyRGB then a else b)
        with (IJ_createImage "Stacked" ty W Ht)
        by (unfold ty; destruct anyRGB; [|destruct (bitDepth first =? 16)%Z]; reflexivity)
    end.
    unfold IJ_createImage, imp_getProcessor at 1. run.
    cbn [Nat.sub].
    set (out0 := mkImagePlus _ _ _ _ _ _ _ _ _ _ _ _ _).
    match goal with |- context [bind (foldM images 0 ?body) _ ?wA] =>
      destruct (inner_loop h images imgs out0 anyRGB 0 1 body (fun img => img) Himgs)
        with (st0 := stack out0) (w1 := wA)
        as (s' & w2 & E2 & Hstate)
    end.
    + cbn. lia.
    + exact Hheight.
    + exact Hrgb.
    + intros i xOffset w0 img1 outimg. apply paste_iter_single.
    + intros cs img0. eauto.
    + intros img0 cs Hin Hpl Hcs. apply current_frame; auto.
    + cbn. lia.
    + apply MontageState_fresh.
    + rewrite (bind_ok _ _ _ _ _ E2), bind_ret.
      destruct (montage_tail _ _ _ i0 first false _ Hstate Hi0 eq_refl)
        as (w' & out & E & Hout & Hw & Hh & Hd & HnF & Hst & (_ & Hq) & Hvis & _).
      exists w', out. split; [exact E|]. split; [exact Hout|].
      rewrite Hw, Hh, Hd, HnF, Hst. cbn [width height bitDepth nFrames stack out0].
      cbn [length].
      repeat split; try assumption; try (symmetry; assumption); try reflexivity.
      intros Hplanar g0 Hg0. replace g0 with 1 by lia. now apply Hq.
Qed.

Lemma stackImagesHorizontally_too_few images w :
  length images < 2 ->
  stackImagesHorizontally images w
  = (Ok Null, with_message ("Stacking Error",
                            "Need at least 2 images to create a horizontal stack.") w).
Proof.
  intros Hlt. unfold stackImagesHorizontally.
  destruct (Nat.ltb_spec (length images) 2); [reflexivity|lia].
Qed.

(** ** The alignment workflow *)

(** The body of the loop over the alignment choices, by kind of choice. *)
Lemma resolveSelection_Merge acc w :
  exists v w',
    createMergeOnly false w = (Ok v, w') /\
    resolveSelection acc "Merge" w
    = (Ok (match v with Ref m => acc ++ [m] | _ => acc end), w').
Proof.
  destruct (createMergeOnly_Ok false w) as (v & w' & E).
  exists v, w'. split; [exact E|].
  unfold resolveSelection. cbn [String.eqb Ascii.eqb Bool.eqb andb].
  rewrite (bind_ok _ _ _ _ _ E). now destruct v.
Qed.

Lemma resolveSelection_unresolved acc sel w :
  sel <> "Merge" ->
  resolveChannel sel (splitInvertedChannels (globals w)) = None ->
  resolveSelection acc sel w = (Ok acc, w).
Proof.
  intros Hm Hres. unfold resolveSelection.
  apply String.eqb_neq in Hm. rewrite Hm.
  destruct (String.eqb sel "None"); cbn [negb]; [reflexivity|].
  now rewrite (bind_ok _ _ _ _ _ (getChannel_unresolved _ _ Hres)).
Qed.

Lemma resolveSelection_length acc sel w acc' w' :
  resolveSelection acc sel w = (Ok acc', w') ->
  length acc' <= length acc + (if String.eqb sel "None" then 0 else 1).
Proof.
  unfold resolveSelection.
  destruct (String.eqb sel "Merge") eqn:Em.
  - apply String.eqb_eq in Em as ->. cbn [String.eqb Ascii.eqb Bool.eqb andb].
    intros E. inv_bind E as v w1 E1.
    destruct v; injection E as <- _; rewrite ?length_app; cbn; lia.
  - destruct (String.eqb sel "None"); cbn [negb].
    + intros [= <- _]. lia.
    + intros E. inv_bind E as v w1 E1.
      destruct v; injection E as <- _; rewrite ?length_app; cbn; lia.
Qed.

(** The loop gathers at most one image for each choice other than
    ["None"]. *)
Lemma gather_length choices acc w imgs w' :
  foldM choices acc resolveSelection w = (Ok imgs, w') ->
  length imgs <= length acc + countSelected choices.
Proof.
  revert acc w. induction choices as [|sel rest IH]; intros acc w; cbn [foldM countSelected].
  - intros [= <- _]. lia.
  - intros E. inv_bind E as acc1 w1 E1.
    apply resolveSelection_length in E1. apply IH in E. lia.
Qed.

(** Choices that name no populated channel gather nothing. *)
Lemma gather_unresolved choices acc w :
  Forall (fun sel => sel <> "Merge" /\
            resolveChannel sel (splitInvertedChannels (globals w)) = None) choices ->
  foldM choices acc resolveSelection w = (Ok acc, w).
Proof.
  induction 1 as [|sel rest [Hm Hr] _ IH]; cbn [foldM]; [reflexivity|].
  rewrite (bind_ok _ _ _ _ _ (resolveSelection_unresolved acc sel w Hm Hr)). exact IH.
Qed.

Lemma alignSelectedImages_too_few w imgs w1 :
  foldM (alignmentChoices (ui w)) [] resolveSelection w = (Ok imgs, w1) ->
  length imgs < 2 ->
  alignSelectedImages w
  = (Ok tt, with_message ("Stacking Error",
                          "Need at least 2 images to create a horizontal stack.") w1).
Proof.
  intros E Hlt. unfold alignSelectedImages.
  rewrite bind_gets, (bind_ok _ _ _ _ _ E).
  destruct (Nat.ltb_spec (length imgs) 2); [reflexivity|lia].
Qed.

Lemma alignSelectedImages_enough w imgs w1 :
  foldM (alignmentChoices (ui w)) [] resolveSelection w = (Ok imgs, w1) ->
  2 <= length imgs ->
  alignSelectedImages w
  = (final <- stackImagesHorizontally imgs ;;
     modify (with_globals (set_finalAlignedImage final)) ;;
     f <- deref final ;;
     t <- imp_getTitle f ;;
     IJ_selectWindow t) w1.
Proof.
  intros E Hge. unfold alignSelectedImages.
  rewrite bind_gets, (bind_ok _ _ _ _ _ E).
  destruct (Nat.ltb_spec (length imgs) 2); [lia|reflexivity].
Qed.

(** ** Shapes of the images of the workflow *)

(** The merger and the provider keep shapes, the original image and the
    channel array. *)
Lemma createMergeOnly_shapePres showImage : preserves shapePres (createMergeOnly showImage).
Proof. unfold createMergeOnly. unfold_host. pres_with shapePres_leaf. Qed.

Lemma getChannel_shapePres chStr : preserves shapePres (getChannelImage16OnTheFly chStr).
Proof. unfold getChannelImage16OnTheFly. unfold_host. pres_with shapePres_leaf. Qed.

(** The duplicate the extractor and the merger make. *)
Lemma duplicate_series useFrames t orig :
  sourceOK orig -> series (duplicateOf (extractorOptions useFrames orig) t orig).
Proof.
  intros [HZ HC]. unfold series, extractorOptions.
  destruct (useFrames && (1 <? nFrames orig)) eqn:Emode.
  - apply andb_prop in Emode as [_ HF]. apply Nat.ltb_lt in HF.
    destruct (Nat.ltb_spec 1 (nSlices orig));
      cbn [duplicateOf duplicateSlices duplicateFrames duplicateStack
           nSlices nFrames currentSlice stack nChannels bitDepth];
      rewrite length_subStack, ?length_seq; cbn [length];
      repeat split; try assumption; try lia.
    replace (nSlices orig) with 1 by lia. lia.
  - cbn [duplicateOf duplicateSlices duplicateFrames duplicateStack
         nSlices nFrames currentSlice stack nChannels bitDepth].
    rewrite length_subStack, ?length_seq; cbn [length].
    repeat split; try assumption; try lia.
Qed.

(** The duplicate the provider makes. *)
Lemma duplicate_planar useFrames t v :
  planar v -> planar (duplicateOf (providerOptions useFrames v) t v).
Proof.
  intros (HC & HZ & HL & HF & HV). unfold planar, validCur, providerOptions.
  destruct (useFrames && (1 <? nFrames v));
    cbn [duplicateOf duplicateSlices duplicateFrames duplicateStack
         nSlices nFrames currentSlice stack nChannels bitDepth];
    rewrite ?length_subStack, ?length_seq, ?HC, ?HZ; cbn [length];
    repeat split; try assumption; try lia.
Qed.

Lemma channelsOf_planar dup : series dup -> Forall planar (channelsOf dup).
Proof.
  intros (HZ & HF & HV & HL & HC). apply Forall_forall. intros x Hx.
  unfold channelsOf in Hx.
  destruct (bitDepth dup =? 24)%Z eqn:Ed.
  - apply Z.eqb_eq in Ed. specialize (HC Ed).
    apply list_elem_of_fmap in Hx as (k & -> & _).
    unfold planar, validCur.
    cbn [nChannels nSlices nFrames stack currentSlice].
    rewrite length_map, HL, HC, HZ. lia.
  - apply list_elem_of_fmap in Hx as (k & -> & _).
    unfold planar, validCur.
    cbn [nChannels nSlices nFrames stack currentSlice].
    rewrite length_subStack, !length_seq, HZ. cbn [length]. lia.
Qed.

Lemma lookup_Ref channels k c :
  arrayGet k channels = Ref c -> channels !! k = Some (Ref c).
Proof.
  unfold arrayGet. destruct (channels !! k) as [v|]; cbn.
  - now intros ->.
  - discriminate.
Qed.

(** What the provider returns is planar where the entries are. *)
Lemma getChannel_Ok_planar chStr w d w' :
  entriesPlanar w ->
  getChannelImage16OnTheFly chStr w = (Ok (Ref d), w') ->
  exists dup, heap (host w') !! d = Some dup /\ planar dup.
Proof.
  intros Hent E.
  destruct (resolveChannel chStr (splitInvertedChannels (globals w))) as [vis|] eqn:Hres;
    [|rewrite (getChannel_unresolved _ _ Hres) in E; discriminate].
  apply resolveChannel_Some in Hres as (Hpre & n & Hn & Hrange & Hget).
  destruct (Hent _ _ (lookup_Ref _ _ _ Hget)) as (v & Hv & Hpl).
  unfold getChannelImage16OnTheFly in E. rewrite Hpre in E. cbn [negb] in E.
  rewrite bind_gets, Hn in E. cbv zeta in E. rewrite Hrange, Hget in E.
  cbn [isNullish truthy negb deref] in E.
  rewrite bind_ret, (bind_getImp _ _ _ _ Hv) in E.
  unfold IJ_selectWindow in E. rewrite bind_assoc, bind_gets in E.
  destruct (findWindow (title v) (heap (host w)) 0) as [j|].
  2:{ unfold IJ_showMessage in E.
      rewrite bind_assoc, bind_modify, bind_throw in E. discriminate. }
  rewrite bind_modify, bind_gets in E.
  destruct w as [[h c m] g u]. wsimpl.
  match type of E with context [bind (if ?b then ?x else ?y)] =>
    replace (if b then x else y)
      with (IJ_run_Duplicate vis (providerOptions (useFramesCheckbox u) v) None) in E
      by (unfold providerOptions; destruct b; reflexivity)
  end.
  rewrite (bind_Duplicate _ _ _ v) in E by exact Hv. wsimpl.
  unfold IJ_getImage in E. rewrite bind_assoc, bind_gets in E. wsimpl.
  rewrite bind_ret in E.
  assert (Hd : d = length h).
  { clear - E. inv_binds E. now injection E as <-. }
  subst d.
  pres_run shapePres shapePres_leaf E.
  destruct (E (length h) _ (lookup_last _ _)) as (dup & Ed & Hp & _).
  exists dup. split; [exact Ed|]. apply Hp, duplicate_planar, Hpl.
Qed.

(** What a channel merge that has returned has done. *)
Lemma mergeChannels_Ok_inv images keep w m w' :
  RGBStackMerge_mergeChannels images keep w = (Ok m, w') ->
  exists hd first X,
    images !! 0 = Some hd /\ heap (host w) !! hd = Some first /\
    heap (host w') !! m = Some X /\
    nSlices X = nSlices first /\ nFrames X = nFrames first /\ currentSlice X = 1 /\
    shapePres w w'.
Proof.
  unfold RGBStackMerge_mergeChannels. intros E.
  inv_bind E as imgs w1 Emap.
  apply mapM_getImp_inv in Emap as [-> Himgs].
  destruct Himgs as [|hd first images' imgs' Hhd Hrest]; [discriminate|].
  rewrite bind_newImp in E.
  inv_bind E as u w2 Eclose. injection E as <- <-.
  pose proof Eclose as Eshape.
  pres_run dimsPres dimsPres_leaf Eclose.
  pres_run shapePres shapePres_leaf Eshape.
  destruct (Eclose (length (heap (host w))) _ (lookup_last _ _))
    as (X & EX & HZ & HF & HV).
  exists hd, first, X. repeat split; try assumption.
  etransitivity; [apply (shapePres_app [mergedOf first (first :: imgs')])|exact Eshape].
Qed.

(** The splits of a series are planar images at the end of the store. *)
Lemma splits_planar h dup s :
  series dup ->
  s ∈ seq (length (h ++ [dup])) (length (channelsOf dup)) ->
  exists ch, ((h ++ [dup]) ++ channelsOf dup) !! s = Some ch /\ planar ch.
Proof.
  intros Hser Hs. apply elem_of_seq in Hs.
  destruct (lookup_lt_is_Some_2 (channelsOf dup) (s - length (h ++ [dup])) ltac:(lia))
    as [ch Ech].
  exists ch. split.
  - rewrite lookup_app_r by lia. exact Ech.
  - pose proof (channelsOf_planar dup Hser) as Hall.
    rewrite Forall_forall in Hall. eapply Hall, list_elem_of_lookup_2, Ech.
Qed.

(** The composite of planar splits, made packed colour, is planar. *)
Lemma merged_planar toMerge w2 m w3 w4 cb splits :
  (forall s, s ∈ splits -> exists img, heap (host w2) !! s = Some img /\ planar img) ->
  toMerge = selectChannels 0 cb splits ->
  RGBStackMerge_mergeChannels toMerge false w2 = (Ok m, w3) ->
  IJ_run_RGBColor m w3 = (Ok tt, w4) ->
  exists img, heap (host w4) !! m = Some img /\ planar img.
Proof.
  intros Hsplits -> Emerge Ergb.
  apply mergeChannels_Ok_inv in Emerge
    as (hd & first & X & Hhd & Hfirst & HX & HZ & HF & HV & _).
  destruct (Hsplits hd) as (first' & Hfirst' & (_ & HZ1 & _ & HF1 & _)).
  { eapply selectChannels_elem, list_elem_of_lookup_2, Hhd. }
  rewrite Hfirst in Hfirst'. injection Hfirst' as <-.
  unfold IJ_run_RGBColor in Ergb.
  apply updImp_Ok_inv in Ergb as (X' & EX' & ->).
  rewrite HX in EX'. injection EX' as <-.
  exists (rgbColorOf X). wsimpl. rewrite list_lookup_alter_eq, HX.
  split; [reflexivity|]. apply rgbColorOf_planar; congruence.
Qed.

(** What the merger returns is planar. *)
Lemma createMergeOnly_Ok_planar showImage w m w' :
  sourceReady w ->
  createMergeOnly showImage w = (Ok (Ref m), w') ->
  exists img, heap (host w') !! m = Some img /\ planar img.
Proof.
  intros Hsrc.
  unfold createMergeOnly, catch.
  match goal with |- context [match ?b w with _ => _ end] =>
    destruct (b w) as [[r|e] w1] eqn:E end; [|discriminate].
  intros [= -> ->]. revert E.
  rewrite bind_gets.
  destruct (originalImage (globals w)) as [| |o] eqn:Ho; cbn [truthy negb];
    [discriminate..|].
  destruct (Hsrc o Ho) as (orig & Horig & Hok).
  cbn [deref]. rewrite bind_ret, !bind_gets.
  rewrite (bind_getImp _ _ _ _ Horig). cbv zeta. rewrite bind_gets, bind_modify.
  set (uniqueTitle := "C" +:+ "TempForMerge_" +:+ pretty (mergeCount (globals w))).
  match goal with |- context [bind (if ?b then ?x else ?y)] =>
    replace (if b then x else y)
      with (IJ_run_Duplicate o (extractorOptions (useFramesCheckbox (ui w)) orig)
              (Some uniqueTitle))
      by (unfold extractorOptions; destruct b; [destruct (1 <? nSlices orig)|];
          reflexivity)
  end.
  destruct w as [[h c msgs] g u]. wsimpl.
  rewrite (bind_Duplicate _ _ _ orig) by exact Horig. wsimpl.
  unfold IJ_getImage. run.
  pose proof (duplicate_series (useFramesCheckbox u) (Some uniqueTitle) orig Hok) as Hser.
  set (dup := duplicateOf _ _ orig) in *.
  assert (Hsplits : forall w2,
            shapePres (mkWorld (mkHost ((h ++ [dup]) ++ channelsOf dup)
                                 (Some (length h)) msgs)
                         (mkGlobals (originalImage g) (duplicatedCroppedImage g)
                            (splitInvertedChannels g) (splitInvertedChannelsFullStack g)
                            (finalAlignedImage g) (increment (mergeCount g))) u) w2 ->
            forall s, s ∈ seq (length (h ++ [dup])) (length (channelsOf dup)) ->
              exists img, heap (host w2) !! s = Some img /\ planar img).
  { intros w2 Hshape s Hs.
    destruct (splits_planar h dup s Hser Hs) as (ch & Ech & Hch).
    destruct (Hshape s ch Ech) as (img & Eimg & Hp & _). eauto. }
  match goal with |- (if ?b then _ else _) _ = _ -> _ => destruct b end; intros E.
  - (* time stack *)
    unfold ChannelSplitter_split in E. rewrite bind_assoc in E.
    erewrite bind_getImp in E by (wsimpl; apply lookup_last).
    rewrite bind_newImps in E. wsimpl.
    inv_bind E as u1 w2 Econv.
    match type of E with (if ?b then _ else _) _ = _ => destruct b end;
      [|discriminate].
    inv_bind E as merged w3 Emerge.
    inv_bind E as u3 w4 Ergb.
    assert (Em : merged = m).
    { clear - E. inv_binds E. now injection E as ->. }
    subst merged. destruct u3.
    pres_run shapePres shapePres_leaf Econv.
    destruct (merged_planar _ _ _ _ _ _ _ (Hsplits w2 Econv) eq_refl Emerge Ergb)
      as (img4 & E4 & Hp4).
    pres_run shapePres shapePres_leaf E.
    destruct (E m img4 E4) as (img & Eimg & Hp & _). eauto.
  - (* single frame *)
    unfold ChannelSplitter_split in E. rewrite bind_assoc in E.
    erewrite bind_getImp in E by (wsimpl; apply lookup_last).
    rewrite bind_newImps in E. wsimpl.
    match type of E with (if ?b then _ else _) _ = _ => destruct b end;
      [clear - E; inv_binds E; discriminate|].
    inv_bind E as u1 w2 Econv.
    match type of E with (if ?b then _ else _) _ = _ => destruct b end;
      [clear - E; inv_binds E; discriminate|].
    inv_bind E as merged w3 Emerge.
    inv_bind E as u3 w4 Ergb.
    assert (Em : merged = m).
    { clear - E. inv_binds E. now injection E as ->. }
    subst merged. destruct u3.
    pres_run shapePres shapePres_leaf Econv.
    destruct (merged_planar _ _ _ _ _ _ _ (Hsplits w2 Econv) eq_refl Emerge Ergb)
      as (img4 & E4 & Hp4).
    pres_run shapePres shapePres_leaf E.
    destruct (E m img4 E4) as (img & Eimg & Hp & _). eauto.
Qed.

Lemma createMergeOnly_sameChannels showImage :
  preserves sameChannels (createMergeOnly showImage).
Proof. unfold createMergeOnly. unfold_host. pres_with sameChannels_leaf. Qed.

Lemma getChannel_sameChannels chStr :
  preserves sameChannels (getChannelImage16OnTheFly chStr).
Proof. unfold getChannelImage16OnTheFly. unfold_host. pres_with sameChannels_leaf. Qed.

(** The state of the workflow is kept by what keeps shapes and channels. *)
Lemma workflow_state_kept w w' :
  shapePres w w' -> sameChannels w w' ->
  entriesPlanar w -> sourceReady w ->
  entriesPlanar w' /\ sourceReady w'.
Proof.
  intros Hshape [Ho Hc] Hent Hsrc. split.
  - intros j c Hj. rewrite Hc in Hj.
    destruct (Hent j c Hj) as (img & Ei & Hp).
    destruct (Hshape c img Ei) as (img' & Ei' & Hp' & _). eauto.
  - intros o Hor. rewrite Ho in Hor.
    destruct (Hsrc o Hor) as (orig & Ei & Hok).
    destruct (Hshape o orig Ei) as (img' & Ei' & _ & Hok'). eauto.
Qed.

Lemma allPlanar_kept images w w' :
  shapePres w w' -> allPlanar images w -> allPlanar images w'.
Proof.
  intros Hshape Hall i Hi.
  destruct (Hall i Hi) as (img & Ei & Hp).
  destruct (Hshape i img Ei) as (img' & Ei' & Hp' & _). eauto.
Qed.

Lemma allPlanar_snoc images i w img :
  allPlanar images w -> heap (host w) !! i = Some img -> planar img ->
  allPlanar (images ++ [i]) w.
Proof.
  intros Hall Ei Hp k Hk. apply elem_of_app in Hk as [Hk|Hk]; [now apply Hall|].
  apply list_elem_of_singleton in Hk as ->. eauto.
Qed.

Lemma allPlanar_Forall2 images w :
  allPlanar images w ->
  exists imgs,
    Forall2 (fun i img => heap (host w) !! i = Some img) images imgs /\
    Forall planar imgs.
Proof.
  induction images as [|i images IH]; intros Hall.
  - exists []. split; constructor.
  - destruct (Hall i) as (img & Ei & Hp); [left|].
    destruct IH as (imgs & Himgs & Hps).
    { intros k Hk. apply Hall. now right. }
    exists (img :: imgs). split; constructor; assumption.
Qed.

(** One pass through the body of the loop over the alignment choices. *)
Lemma resolveSelection_planar acc sel w acc' w' :
  entriesPlanar w -> sourceReady w -> allPlanar acc w ->
  resolveSelection acc sel w = (Ok acc', w') ->
  entriesPlanar w' /\ sourceReady w' /\ allPlanar acc' w'.
Proof.
  intros Hent Hsrc Hall. unfold resolveSelection.
  destruct (String.eqb sel "Merge").
  - intros E. inv_bind E as v w1 E1.
    assert (Hshape : shapePres w w1).
    { eapply (preserves_run shapePres); [apply createMergeOnly_shapePres|exact E1]. }
    assert (Hch : sameChannels w w1).
    { eapply (preserves_run sameChannels); [apply createMergeOnly_sameChannels|exact E1]. }
    destruct (workflow_state_kept _ _ Hshape Hch Hent Hsrc) as [Hent1 Hsrc1].
    pose proof (allPlanar_kept _ _ _ Hshape Hall) as Hall1.
    destruct v as [| |m]; injection E as <- <-; try (repeat split; assumption).
    destruct (createMergeOnly_Ok_planar _ _ _ _ Hsrc E1) as (img & Ei & Hp).
    repeat split; try assumption. eapply allPlanar_snoc; eassumption.
  - destruct (negb (String.eqb sel "None")).
    + intros E. inv_bind E as v w1 E1.
      assert (Hshape : shapePres w w1).
      { eapply (preserves_run shapePres); [apply getChannel_shapePres|exact E1]. }
      assert (Hch : sameChannels w w1).
      { eapply (preserves_run sameChannels); [apply getChannel_sameChannels|exact E1]. }
      destruct (workflow_state_kept _ _ Hshape Hch Hent Hsrc) as [Hent1 Hsrc1].
      pose proof (allPlanar_kept _ _ _ Hshape Hall) as Hall1.
      destruct v as [| |d]; injection E as <- <-; try (repeat split; assumption).
      destruct (getChannel_Ok_planar _ _ _ _ Hent E1) as (img & Ei & Hp).
      repeat split; try assumption. eapply allPlanar_snoc; eassumption.
    + intros [= <- <-]. repeat split; assumption.
Qed.

(** The loop over the alignment choices. *)
Lemma gather_planar choices acc w images w' :
  entriesPlanar w -> sourceReady w -> allPlanar acc w ->
  foldM choices acc resolveSelection w = (Ok images, w') ->
  entriesPlanar w' /\ sourceReady w' /\ allPlanar images w'.
Proof.
  revert acc w. induction choices as [|sel rest IH]; intros acc w Hent Hsrc Hall;
    cbn [foldM].
  - intros [= <- <-]. repeat split; assumption.
  - intros E. inv_bind E as acc1 w1 E1.
    destruct (resolveSelection_planar _ _ _ _ _ Hent Hsrc Hall E1)
      as (Hent1 & Hsrc1 & Hall1).
    eapply IH; eassumption.
Qed.

(** ** The properties of the specification *)

(** C1 (amended): for at least two montage inputs that are time series of
    single planes, the montage has as many frames as the longest input (at least
    one), and in every output frame [f] the samples at the horizontal
    offset of input [k] (the sum of the widths of the inputs before it)
    are the samples of frame [f] of input [k], converted to the depth of
    the output, where an input with fewer than [f] frames contributes its
    last frame.  In particular, for inputs with frame counts 1 and 3 the
    output has 3 frames, and in frames 2 and 3 the region of the first
    input holds its frame 1. *)
Theorem montage_copies_inputs images imgs w :
  2 <= length images ->
  Forall2 (fun i img => heap (host w) !! i = Some img) images imgs ->
  Forall planar imgs ->
  exists w' out,
    stackImagesHorizontally images w = (Ok (Ref (length (heap (host w)))), w') /\
    heap (host w') !! length (heap (host w)) = Some out /\
    nFrames out = max 1 (max_list (map nFrames imgs)) /\
    length (stack out) = nFrames out /\
    (forall f k img x y,
       1 <= f <= nFrames out -> imgs !! k = Some img ->
       x < width img -> y < height img ->
       getPixel (framePlane out f) (offsetOf imgs k + x) y
       = getPixel (convertTo (bitDepth out) (frameOf img f)) x y) /\
    (map nFrames imgs = [1; 3] ->
     nFrames out = 3 /\
     forall f first x y,
       2 <= f <= 3 -> imgs !! 0 = Some first ->
       x < width first -> y < height first ->
       getPixel (framePlane out f) x y
       = getPixel (convertTo (bitDepth out) (framePlane first 1)) x y).
Proof.
  intros Hlen Himgs Hplanar.
  destruct (stackImagesHorizontally_spec images imgs w Hlen Himgs)
    as (w' & out & E & Hout & _ & _ & _ & HnF & Hst & _ & Hcontent).
  destruct (frameScan_spec imgs) as [Emax _]. rewrite Emax in HnF.
  exists w', out.
  split; [exact E|]. split; [exact Hout|]. split; [exact HnF|].
  split; [exact Hst|]. split.
  - intros f k img x y Hf Hk Hx Hy.
    apply (Hcontent Hplanar f Hf k img x y); [|assumption..].
    eapply lookup_lt_Some, Hk.
  - intros Hcounts.
    assert (H3 : nFrames out = 3) by (rewrite HnF, Hcounts; reflexivity).
    split; [exact H3|].
    intros f first x y Hf Hfirst Hx Hy.
    assert (H1 : nFrames first = 1).
    { destruct imgs as [|a rest]; [discriminate|].
      injection Hfirst as ->. now injection Hcounts. }
    assert (Hclamp : frameOf first f = framePlane first 1).
    { unfold frameOf. rewrite H1. f_equal. lia. }
    rewrite <- Hclamp.
    apply (Hcontent Hplanar f ltac:(lia) 0 first x y); [|assumption..].
    eapply lookup_lt_Some, Hfirst.
Qed.

(** C2: with fewer than two inputs the montage assembler returns [null],
    tells the user in a message dialog, and creates no image; with two or
    more inputs the image it returns is as wide as the sum of the input
    widths and as high as the highest input. *)
Theorem montage_extent images w :
  (length images < 2 ->
   exists w',
     stackImagesHorizontally images w = (Ok Null, w') /\
     heap (host w') = heap (host w) /\
     messages (host w')
     = messages (host w)
       ++ [("Stacking Error",
            "Need at least 2 images to create a horizontal stack.")]) /\
  (2 <= length images ->
   forall imgs,
     Forall2 (fun i img => heap (host w) !! i = Some img) images imgs ->
     exists w' out,
       stackImagesHorizontally images w
       = (Ok (Ref (length (heap (host w)))), w') /\
       heap (host w') !! length (heap (host w)) = Some out /\
       width out = sum_list (map width imgs) /\
       height out = max_list (map height imgs)).
Proof.
  split.
  - intros Hlt. eexists. split; [apply stackImagesHorizontally_too_few, Hlt|].
    split; reflexivity.
  - intros Hlen imgs Himgs.
    destruct (stackImagesHorizontally_spec images imgs w Hlen Himgs)
      as (w' & out & E & Hout & Hw & Hh & _).
    exists w', out. rewrite sumWidths_sum_list in Hw. auto.
Qed.

(** C3: in multi-frame mode (the checkbox is set and the source has more
    than one frame) with no checkbox selecting an available channel, the
    merger returns [undefined], and the duplicate it made and every
    per-channel split are still open when it returns; the duplicate still
    has its window. *)
Theorem merger_time_stack_zero_selection_leaks showImage w o orig :
  originalImage (globals w) = Ref o -> heap (host w) !! o = Some orig ->
  useFramesCheckbox (ui w) = true -> 1 < nFrames orig ->
  countChecked (mergeCheckboxes (ui w)) (channelCount orig) = 0 ->
  exists w' dup,
    createMergeOnly showImage w = (Ok Undefined, w') /\
    length (heap (host w')) = S (length (heap (host w))) + channelCount orig /\
    heap (host w') !! length (heap (host w)) = Some dup /\
    visible dup = true /\
    forall i, length (heap (host w)) <= i < length (heap (host w')) ->
      exists tmp, heap (host w') !! i = Some tmp /\ closed tmp = false.
Proof.
  intros Ho Horig Huf HnF Hzero.
  unfold createMergeOnly.
  match goal with |- exists w' dup, catch ?c ?h w = _ /\ _ =>
    enough (exists w' dup, c w = (Ok Undefined, w') /\
      length (heap (host w')) = S (length (heap (host w))) + channelCount orig /\
      heap (host w') !! length (heap (host w)) = Some dup /\
      visible dup = true /\
      forall i, length (heap (host w)) <= i < length (heap (host w')) ->
        exists tmp, heap (host w') !! i = Some tmp /\ closed tmp = false)
      as (w' & dup & E & HP);
    [exists w', dup; split; [apply catch_Ok, E|exact HP]|]
  end.
  rewrite bind_gets, Ho. cbn [truthy negb deref].
  rewrite bind_ret, !bind_gets, (bind_getImp _ _ _ _ Horig). cbv zeta.
  rewrite bind_gets, bind_modify, Huf.
  destruct (Nat.ltb_spec 1 (nFrames orig)) as [_|]; [|lia]. cbn [andb].
  set (uniqueTitle := "C" +:+ "TempForMerge_" +:+ pretty (mergeCount (globals w))).
  set (opt := if 1 <? nSlices orig
              then DupSliceFrames (currentZOf orig) (nFrames orig)
              else DupFrames (nFrames orig)).
  match goal with |- context [bind (if ?b then ?x else ?y)] =>
    replace (if b then x else y) with (IJ_run_Duplicate o opt (Some uniqueTitle))
      by (subst opt; destruct b; reflexivity)
  end.
  destruct w as [[h c msgs] g u]. wsimpl.
  rewrite (bind_Duplicate _ _ _ orig) by exact Horig. wsimpl.
  unfold IJ_getImage. run.
  assert (HdF : duplicateFrames opt orig = nFrames orig).
  { subst opt. destruct (1 <? nSlices orig); reflexivity. }
  rewrite HdF.
  destruct (Nat.ltb_spec 1 (nFrames orig)) as [_|]; [|lia]. cbn [andb].
  unfold ChannelSplitter_split. run. rewrite bind_newImps. wsimpl.
  set (dup := duplicateOf opt (Some uniqueTitle) orig).
  assert (Hn : length (channelsOf dup) = channelCount orig).
  { rewrite length_channelsOf. reflexivity. }
  rewrite Hn, length_app. cbn [length]. rewrite Nat.add_1_r.
  match goal with |- context [bind (convertSplitsTo16 ?l) _ ?wA] =>
    destruct (convertSplitsTo16_ok l wA) as (w2 & E2 & Hl2 & Hf2)
  end.
  { wsimpl. rewrite Forall_forall. intros s Hs.
    apply elem_of_seq in Hs. rewrite !length_app, Hn. cbn [length]. lia. }
  rewrite (bind_ok _ _ _ _ _ E2).
  rewrite length_selectChannels, length_seq, Nat.sub_0_r, Hzero. cbn [Nat.ltb Nat.leb].
  wsimpl. rewrite !length_app, Hn in Hl2. cbn [length] in Hl2.
  destruct (Hf2 (length h) dup) as (dup' & Ed & Vd & Cd).
  { wsimpl. apply lookup_app_l_Some, lookup_last. }
  exists w2, dup'. split; [reflexivity|]. split; [lia|]. split; [exact Ed|].
  split; [rewrite Vd; reflexivity|].
  intros i Hi.
  assert (Hex : is_Some (((h ++ [dup]) ++ channelsOf dup) !! i)).
  { apply lookup_lt_is_Some_2. rewrite !length_app, Hn. cbn [length]. lia. }
  destruct Hex as [tmp0 E0].
  destruct (Hf2 i tmp0 E0) as (tmp & Et & _ & Ct).
  exists tmp. split; [exact Et|]. rewrite Ct.
  destruct (decide (i = length h)) as [->|Hne].
  - rewrite lookup_app_l_Some with (x := dup) in E0 by apply lookup_last.
    now injection E0 as <-.
  - rewrite lookup_app_r in E0 by (rewrite length_app; cbn [length]; lia).
    apply list_elem_of_lookup_2 in E0. unfold channelsOf in E0.
    destruct (bitDepth dup =? 24)%Z; apply list_elem_of_fmap in E0 as (k & -> & _);
      reflexivity.
Qed.

(** C4 (amended): the montage is 24-bit packed colour if some input is;
    otherwise it is 16-bit if the first input is 16-bit, and 8-bit for
    every other bit depth of the first input. *)
Theorem montage_depth images imgs w :
  2 <= length images ->
  Forall2 (fun i img => heap (host w) !! i = Some img) images imgs ->
  exists w' out first,
    stackImagesHorizontally images w = (Ok (Ref (length (heap (host w)))), w') /\
    heap (host w') !! length (heap (host w)) = Some out /\
    imgs !! 0 = Some first /\
    (Exists (fun img => bitDepth img = 24%Z) imgs -> bitDepth out = 24%Z) /\
    (Forall (fun img => bitDepth img <> 24%Z) imgs ->
     (bitDepth first = 16%Z -> bitDepth out = 16%Z) /\
     (bitDepth first <> 16%Z -> bitDepth out = 8%Z)).
Proof.
  intros Hlen Himgs.
  destruct (stackImagesHorizontally_spec images imgs w Hlen Himgs)
    as (w' & out & E & Hout & _ & _ & Hd & _).
  pose proof (Forall2_length _ _ _ Himgs) as Hlen'.
  destruct imgs as [|first rest]; [cbn in Hlen'; lia|].
  exists w', out, first.
  split; [exact E|]. split; [exact Hout|]. split; [reflexivity|].
  rewrite Hd. unfold montageDepth.
  destruct (existsb (fun img => (bitDepth img =? 24)%Z) (first :: rest)) eqn:Ergb.
  - split; [reflexivity|]. intros Hnone.
    apply existsb_exists in Ergb as (img & Hin & Himg).
    apply Z.eqb_eq in Himg.
    rewrite Forall_forall in Hnone. apply list_elem_of_In in Hin.
    now destruct (Hnone img Hin).
  - split.
    + intros Hsome. apply Exists_exists in Hsome as (img & Hin & Himg).
      assert (Hex : existsb (fun img => (bitDepth img =? 24)%Z) (first :: rest) = true).
      { apply existsb_exists. exists img. split.
        - apply list_elem_of_In, Hin.
        - apply Z.eqb_eq, Himg. }
      congruence.
    + intros _. split.
      * intros ->. reflexivity.
      * intros Hne. apply Z.eqb_neq in Hne. now rewrite Hne.
Qed.


(** C6 (amended): an identifier that names no populated entry of the
    channel array makes the provider return [null].  An identifier that
    names an entry which still has its window, in a state in which the
    original image is set, makes it return a new image that has no window
    when the provider returns, is 16 bits deep, has the extent of the
    entry and the entry's planes converted to 16 bits, and whose pixel
    width, pixel height and unit are those of the original image; where
    the new image has more than one frame, so are its frame interval and
    sampling rate. *)
Theorem provider_hidden_16bit_copy chStr w :
  (resolveChannel chStr (splitInvertedChannels (globals w)) = None ->
   getChannelImage16OnTheFly chStr w = (Ok Null, w)) /\
  (forall vis v o orig,
     resolveChannel chStr (splitInvertedChannels (globals w)) = Some vis ->
     heap (host w) !! vis = Some v -> visible v = true ->
     originalImage (globals w) = Ref o -> heap (host w) !! o = Some orig ->
     exists w' dup,
       getChannelImage16OnTheFly chStr w = (Ok (Ref (length (heap (host w)))), w') /\
       heap (host w') = heap (host w) ++ [dup] /\
       globals w' = globals w /\
       visible dup = false /\
       bitDepth dup = 16%Z /\
       width dup = width v /\ height dup = height v /\
       nFrames dup = duplicateFrames (providerOptions (useFramesCheckbox (ui w)) v) v /\
       stack dup
       = map (convertPixels (bitDepth v) 16)
             (duplicateStack (providerOptions (useFramesCheckbox (ui w)) v) v) /\
       pixelWidth (calibration dup) = pixelWidth (calibration orig) /\
       pixelHeight (calibration dup) = pixelHeight (calibration orig) /\
       calUnit (calibration dup) = calUnit (calibration orig) /\
       (1 < nFrames dup ->
          frameInterval (calibration dup) = frameInterval (calibration orig) /\
          fps (calibration dup) = fps (calibration orig))).
Proof.
  split; [apply getChannel_unresolved|].
  intros vis v o orig Hres Hv Hvis Ho Horig.
  apply resolveChannel_Some in Hres as (Hpre & n & Hn & Hrange & Hget).
  unfold getChannelImage16OnTheFly. rewrite Hpre. cbn [negb].
  rewrite bind_gets, Hn. cbv zeta. rewrite Hrange, Hget. cbn [isNullish truthy negb deref].
  rewrite bind_ret, (bind_getImp _ _ _ _ Hv).
  destruct (findWindow_Some (title v) (heap (host w)) 0 vis v Hv Hvis eq_refl) as [j Hj].
  unfold IJ_selectWindow. rewrite bind_assoc, bind_gets, Hj, bind_modify, bind_gets.
  destruct w as [[h c m] g u]. wsimpl.
  set (opt := providerOptions (useFramesCheckbox u) v).
  replace (if useFramesCheckbox u && (1 <? nFrames v)
      then IJ_run_Duplicate vis (DupFrames (nFrames v)) None
      else IJ_run_Duplicate vis DupStack None) with (IJ_run_Duplicate vis opt None)
    by (subst opt; unfold providerOptions; destruct (_ && _); reflexivity).
  unfold IJ_run_Duplicate, IJ_getImage, IJ_run_convert, imp_setTitle, imp_getCalibration,
    copySpatial, copyTemporal, updCalibration, imp_hide, dropCurrent.
  run.
  all: cbn [deref]; rewrite ?Ho; cbn [deref]; run.
  all: repeat match goal with
    | E : negb _ = true |- _ => apply negb_true_iff in E
    | E : negb _ = false |- _ => apply negb_false_iff in E
    | E : (_ =? _)%Z = true |- _ => apply Z.eqb_eq in E
    | E : (_ <? _) = false |- _ => apply Nat.ltb_ge in E
    end.
  all: do 2 eexists; (split; [reflexivity|]); wsimpl; (split; [reflexivity|]).
  all: repeat match goal with
    | |- _ /\ _ => split
    | |- _ -> _ => intros ?
    end; wsimpl; try reflexivity; try assumption; try lia.
  all: rewrite Heqb; symmetry; apply map_convertPixels_same.
Qed.

(** C7: after the extractor has run on a current image, the channel array
    still has its four entries; the entries below the number of images
    the channel splitter makes of the source hold images, every entry at
    or beyond that number is [null], and so the number of populated
    entries is the smaller of that number and 4.  This holds for either
    state of the time-frames checkbox. *)
Theorem extractor_channel_set w o img :
  currentImage (host w) = Some o -> heap (host w) !! o = Some img ->
  length (splitInvertedChannels (globals w)) = 4 ->
  exists a,
    splitInvertedChannels (globals (snd (duplicateSplitInvert w))) = a /\
    length a = 4 /\
    countPopulated a = min (channelCount img) 4 /\
    countPopulated a <= 4 /\
    (forall j, j < channelCount img -> j < 4 -> exists c, a !! j = Some (Ref c)) /\
    (forall k, channelCount img <= k -> k < 4 -> a !! k = Some Null).
Proof.
  intros Hcur Himg Harr.
  destruct (duplicateSplitInvert_run w o img Hcur Himg Harr)
    as (w2 & wf & <- & Eg & _ & _ & Hl & Hp & Hn & _).
  rewrite Eg. exists (splitInvertedChannels (globals w2)).
  split; [reflexivity|]. split; [exact Hl|].
  assert (Hp' : forall j, j < channelCount img -> j < 4 ->
            exists c, splitInvertedChannels (globals w2) !! j = Some (Ref c)).
  { intros j Hj1 Hj2. eexists. apply Hp; assumption. }
  pose proof (countPopulated_prefix _ (channelCount img) Hl Hp' Hn) as Hcount.
  split; [exact Hcount|]. split; [lia|]. split; assumption.
Qed.

(** C8: on an 8-bit sample the Invert command computes 255 minus the
    sample, and inverting twice gives the sample back. *)
Theorem invert_involutive v :
  (0 <= v <= 255)%Z ->
  invert8 v = (255 - v)%Z /\ invert8 (invert8 v) = v.
Proof.
  intros Hv. unfold invert8.
  change 255%Z with (Z.ones 8). rewrite !Z.land_ones by lia.
  change (Z.ones 8) with 255%Z. change (2 ^ 8)%Z with 256%Z.
  rewrite (Z.mod_small v) by lia.
  rewrite !(Z.mod_small (255 - v)) by lia.
  split; [reflexivity|].
  rewrite Z.mod_small by lia. lia.
Qed.

(** C9: a ["Merge"] choice never raises an error: when the merger gives
    no image the list of images to align stays as it was.  A choice that
    names no populated channel leaves both the list and the state as they
    were.  Once the choices have been gone through, the error dialog is
    shown exactly when fewer than two images have been gathered; so it is
    shown when no choice resolves, however many of the choices are other
    than ["None"]. *)
Theorem align_skips_unresolved w :
  (forall acc w0,
     exists v w',
       createMergeOnly false w0 = (Ok v, w') /\
       resolveSelection acc "Merge" w0
       = (Ok (match v with Ref m => acc ++ [m] | _ => acc end), w')) /\
  (forall acc sel w0,
     sel <> "Merge" ->
     resolveChannel sel (splitInvertedChannels (globals w0)) = None ->
     resolveSelection acc sel w0 = (Ok acc, w0)) /\
  (forall imgs w1,
     foldM (alignmentChoices (ui w)) [] resolveSelection w = (Ok imgs, w1) ->
     length imgs <= countSelected (alignmentChoices (ui w)) /\
     (length imgs < 2 ->
      alignSelectedImages w
      = (Ok tt, with_message
                  ("Stacking Error",
                   "Need at least 2 images to create a horizontal stack.") w1)) /\
     (2 <= length imgs ->
      alignSelectedImages w
      = (final <- stackImagesHorizontally imgs ;;
         modify (with_globals (set_finalAlignedImage final)) ;;
         f <- deref final ;;
         t <- imp_getTitle f ;;
         IJ_selectWindow t) w1)) /\
  (Forall (fun sel => sel <> "Merge" /\
             resolveChannel sel (splitInvertedChannels (globals w)) = None)
          (alignmentChoices (ui w)) ->
   alignSelectedImages w
   = (Ok tt, with_message
               ("Stacking Error",
                "Need at least 2 images to create a horizontal stack.") w)).
Proof.
  split; [intros acc w0; apply resolveSelection_Merge|].
  split; [intros acc sel w0; apply resolveSelection_unresolved|].
  split.
  - intros imgs w1 E. split; [|split].
    + apply gather_length in E. cbn [length] in E. lia.
    + intros Hlt. now apply alignSelectedImages_too_few with (imgs := imgs).
    + intros Hge. now apply alignSelectedImages_enough.
  - intros Hnone.
    apply alignSelectedImages_too_few with (imgs := []); [|cbn; lia].
    apply gather_unresolved, Hnone.
Qed.

(** C10: an identifier that names no populated entry makes the provider
    return [null] in the state it was called in; and whenever the provider
    returns [null] or [undefined], the identifier named no populated entry
    and the state is the one it was called in: no image has been created,
    no window selected, no image changed. *)
Theorem provider_nothing_is_inert chStr w :
  (resolveChannel chStr (splitInvertedChannels (globals w)) = None ->
   getChannelImage16OnTheFly chStr w = (Ok Null, w)) /\
  (forall v w',
     getChannelImage16OnTheFly chStr w = (Ok v, w') -> isNullish v = true ->
     resolveChannel chStr (splitInvertedChannels (globals w)) = None /\ w' = w).
Proof.
  split; [apply getChannel_unresolved|].
  intros v w' E Hv.
  destruct (resolveChannel chStr (splitInvertedChannels (globals w))) as [vis|] eqn:Hres.
  - destruct (getChannel_Ok_resolved _ _ _ _ _ Hres E) as [d ->]. discriminate.
  - rewrite (getChannel_unresolved _ _ Hres) in E. now injection E as _ <-.
Qed.

(** ** The single-frame counterpart of C3 *)

(** X1: in single-frame mode with no checkbox selecting an available
    channel, the merger returns [null], and the duplicate and every split
    it made have been released when it returns. *)
Theorem merger_single_frame_zero_selection_releases showImage w o orig :
  originalImage (globals w) = Ref o -> heap (host w) !! o = Some orig ->
  useFramesCheckbox (ui w) && (1 <? nFrames orig) = false ->
  1 <= channelCount orig ->
  countChecked (mergeCheckboxes (ui w)) (channelCount orig) = 0 ->
  exists w',
    createMergeOnly showImage w = (Ok Null, w') /\
    length (heap (host w')) = S (length (heap (host w))) + channelCount orig /\
    forall i, length (heap (host w)) <= i < length (heap (host w')) ->
      exists tmp, heap (host w') !! i = Some tmp /\ released tmp.
Proof.
  intros Ho Horig Hmode Hch Hzero.
  unfold createMergeOnly.
  match goal with |- exists w', catch ?c ?h w = _ /\ _ =>
    enough (exists w', c w = (Ok Null, w') /\
      length (heap (host w')) = S (length (heap (host w))) + channelCount orig /\
      forall i, length (heap (host w)) <= i < length (heap (host w')) ->
        exists tmp, heap (host w') !! i = Some tmp /\ released tmp)
      as (w' & E & HP);
    [exists w'; split; [apply catch_Ok, E|exact HP]|]
  end.
  rewrite bind_gets, Ho. cbn [truthy negb deref].
  rewrite bind_ret, !bind_gets, (bind_getImp _ _ _ _ Horig). cbv zeta.
  rewrite bind_gets, bind_modify, Hmode.
  set (uniqueTitle := "C" +:+ "TempForMerge_" +:+ pretty (mergeCount (globals w))).
  set (opt := DupSliceUse (currentSlice orig)).
  destruct w as [[h c msgs] g u]. wsimpl.
  rewrite (bind_Duplicate _ _ _ orig) by exact Horig. wsimpl.
  unfold IJ_getImage. run.
  change (duplicateFrames opt orig) with 1.
  replace (useFramesCheckbox u && (1 <? 1)) with false
    by (destruct (useFramesCheckbox u); reflexivity).
  unfold ChannelSplitter_split. run. rewrite bind_newImps. wsimpl.
  set (dup := duplicateOf opt (Some uniqueTitle) orig).
  assert (Hn : length (channelsOf dup) = channelCount orig).
  { rewrite length_channelsOf. reflexivity. }
  rewrite Hn, length_app, length_seq. cbn [length]. rewrite Nat.add_1_r.
  destruct (Nat.ltb_spec (channelCount orig) 1); [lia|].
  match goal with |- context [bind (convertSplitsTo16 ?l) _ ?wA] =>
    destruct (convertSplitsTo16_ok l wA) as (w2 & E2 & Hl2 & _)
  end.
  { wsimpl. rewrite Forall_forall. intros s Hs.
    apply elem_of_seq in Hs. rewrite !length_app, Hn. cbn [length]. lia. }
  rewrite (bind_ok _ _ _ _ _ E2).
  rewrite length_selectChannels, length_seq, Nat.sub_0_r, Hzero. cbn [Nat.eqb].
  wsimpl. rewrite !length_app, Hn in Hl2. cbn [length] in Hl2.
  destruct (lookup_lt_is_Some_2 (heap (host w2)) (length h) ltac:(lia)) as [d2 Ed2].
  rewrite <- bind_assoc.
  destruct (release_ok _ _ _ Ed2) as (w3 & E3 & Hheap3).
  rewrite (bind_ok _ _ _ _ _ E3).
  destruct (release_all (length h) (channelCount orig) w3) as (w4 & E4 & Hl4 & Hlow & Hrel).
  { rewrite Hheap3, length_insert. lia. }
  rewrite (bind_ok _ _ _ _ _ E4).
  exists w4. split; [reflexivity|]. split; [lia|].
  intros i Hi. destruct (decide (i = length h)) as [->|Hne].
  - rewrite Hlow, Hheap3 by lia. rewrite list_lookup_insert_eq by lia.
    eexists. split; [reflexivity|]. repeat split.
  - apply Hrel. lia.
Qed.

(** ** The images the workflow hands to the montage *)

(** X2: after the extractor has run on a current image with at least one
    slice (and one channel where it is packed colour), every populated
    entry of the channel array is a time series of single planes, and the
    original image is set to an image the merger can start from. *)
Theorem extractor_entries_planar w o img :
  currentImage (host w) = Some o -> heap (host w) !! o = Some img ->
  sourceOK img ->
  length (splitInvertedChannels (globals w)) = 4 ->
  entriesPlanar (snd (duplicateSplitInvert w)) /\
  sourceReady (snd (duplicateSplitInvert w)).
Proof.
  intros Hcur Himg Hok Harr.
  destruct (duplicateSplitInvert_run w o img Hcur Himg Harr)
    as (w2 & wf & <- & Eg & Hshape & Ho & Hl & Hp & Hn & Hheap).
  set (dup := duplicateOf (extractorOptions (useFramesCheckbox (ui w)) img) None img)
    in Hheap.
  pose proof (duplicate_series (useFramesCheckbox (ui w)) None img Hok) as Hser.
  fold dup in Hser.
  split.
  - intros j c Hj. rewrite Eg in Hj.
    assert (Hj4 : j < 4) by (rewrite <- Hl; eapply lookup_lt_Some, Hj).
    destruct (Nat.lt_ge_cases j (channelCount img)) as [Hlt|Hge].
    2:{ rewrite (Hn j Hge Hj4) in Hj. discriminate. }
    rewrite (Hp j Hlt Hj4) in Hj. injection Hj as <-.
    destruct (splits_planar (heap (host w)) dup (S (length (heap (host w))) + j) Hser)
      as (ch & Ech & Hch).
    { apply elem_of_seq. rewrite length_app, length_channelsOf. cbn [length].
      unfold dup, channelCount in *. cbn [duplicateOf bitDepth nChannels]. lia. }
    destruct (Hheap _ _ Ech) as (x & Ex & Hx & _).
    destruct (Hshape _ _ Ex) as (x' & Ex' & Hx' & _). eauto.
  - intros o' Ho'. rewrite Eg, Ho in Ho'. injection Ho' as <-.
    destruct (Hheap o img) as (x & Ex & _ & Hx).
    { apply lookup_app_l_Some, lookup_app_l_Some, Himg. }
    destruct (Hshape _ _ Ex) as (x' & Ex' & _ & Hx'). eauto.
Qed.

(** X3: in a state in which the populated entries of the channel array are
    time series of single planes and the original image is one the merger
    can start from, every image that the loop over the alignment choices
    gathers for the montage is a time series of single planes of the
    store, and the state it leaves is again such a state. *)
Theorem align_inputs_planar w images w1 :
  entriesPlanar w -> sourceReady w ->
  foldM (alignmentChoices (ui w)) [] resolveSelection w = (Ok images, w1) ->
  entriesPlanar w1 /\ sourceReady w1 /\
  exists imgs,
    Forall2 (fun i img => heap (host w1) !! i = Some img) images imgs /\
    Forall planar imgs.
Proof.
  intros Hent Hsrc E.
  destruct (gather_planar (alignmentChoices (ui w)) [] w images w1 Hent Hsrc)
    as (Hent1 & Hsrc1 & Hall).
  - intros i Hi. inversion Hi.
  - exact E.
  - split; [exact Hent1|]. split; [exact Hsrc1|]. apply allPlanar_Forall2, Hall.
Qed.

(** The widgets are never written. *)
#[local] Instance sameUI_PreOrder : PreOrder sameUI.
Proof.
  split.
  - intros w. reflexivity.
  - intros w1 w2 w3 H12 H23. unfold sameUI in *. congruence.
Qed.

Ltac sameUI_leaf :=
  unfold sameUI; wsimpl;
  try match goal with
      | |- context [if ?b then _ else _] => destruct b
      end; reflexivity.

(** ** The window clean-up *)

(** Releasing one image changes nothing else. *)
Lemma release_run i w img :
  heap (host w) !! i = Some img ->
  exists w', (imp_setChanges i false ;; imp_close i) w = (Ok tt, w') /\
    heap (host w') = <[i := releaseOf img]> (heap (host w)) /\
    globals w' = globals w /\ messages (host w') = messages (host w) /\ ui w' = ui w.
Proof.
  intros Ei. unfold imp_setChanges, imp_close, dropCurrent.
  destruct w as [[h c msgs] g u]. wsimpl.
  erewrite bind_updImp by (wsimpl; exact Ei).
  cbv beta.
  erewrite bind_updImp by (wsimpl; rewrite list_lookup_alter_eq, Ei; reflexivity).
  eexists. split; [reflexivity|]. unfold modify. wsimpl.
  rewrite (alter_as_insert _ i h img Ei).
  erewrite alter_as_insert
    by (apply list_lookup_insert_eq; eapply lookup_lt_Some, Ei).
  rewrite list_insert_insert_eq.
  destruct (decide _); repeat split.
Qed.

(** The search for a window passes over the images that are not one. *)
Lemma findWindow_app t done rest n :
  Forall (fun x => visible x && String.eqb (title x) t = false) done ->
  findWindow t (done ++ rest) n = findWindow t rest (n + length done).
Proof.
  intros Hdone. revert n. induction Hdone as [|x done Hx _ IH]; intros n; cbn [app length].
  - now rewrite Nat.add_0_r.
  - cbn [findWindow]. rewrite Hx, IH. f_equal. lia.
Qed.

Lemma findWindow_None t h n :
  Forall (fun x => visible x && String.eqb (title x) t = false) h ->
  findWindow t h n = None.
Proof.
  intros Hh. rewrite <- (app_nil_r h), findWindow_app by exact Hh. reflexivity.
Qed.

(** The image a successful search finds. *)
Lemma findWindow_found t h n j :
  findWindow t h n = Some j ->
  exists x, h !! (j - n) = Some x /\ n <= j /\ visible x = true /\ title x = t.
Proof.
  revert n. induction h as [|a h IH]; intros n; cbn [findWindow]; [discriminate|].
  destruct (visible a && String.eqb (title a) t) eqn:E.
  - intros [= <-]. rewrite Nat.sub_diag. exists a.
    apply andb_prop in E as [Hv Ht]. apply String.eqb_eq in Ht. auto.
  - intros Hj. destruct (IH _ Hj) as (x & Hx & Hn & Hv & Ht).
    exists x. replace (j - n) with (S (j - S n)) by lia. repeat split; auto. lia.
Qed.

Section CloseLoop.
Variables (o : ImageId) (t0 : string).

(** The loop over the window titles: [done] are the images whose titles
    have been dealt with, [rest] the others. *)
Lemma close_loop rest : forall done w,
  heap (host w) = done ++ rest ->
  Forall (fun x => visible x = true -> title x = t0) done ->
  (exists x, (done ++ rest) !! o = Some x /\ title x = t0) ->
  exists w',
    forEach (map title (List.filter visible rest)) (fun t =>
      t1 <- imp_getTitle o ;;
      if negb (String.eqb t t1) then
        img <- WindowManager_getImage t ;;
        match img with
        | Ref i => imp_setChanges i false ;; imp_close i
        | _ => ret tt
        end
      else ret tt) w = (Ok tt, w') /\
    heap (host w') = done ++ map (closeOther t0) rest /\
    globals w' = globals w /\ messages (host w') = messages (host w) /\ ui w' = ui w.
Proof.
  induction rest as [|img rest IH]; intros done w Hheap Hdone (x & Hx & Ht0).
  - exists w. cbn. rewrite Hheap. auto.
  - cbn [List.filter map]. unfold closeOther at 1.
    destruct (visible img) eqn:Hvis; cbn [andb map forEach].
    + unfold imp_getTitle. rewrite !bind_assoc.
      erewrite bind_getImp by (rewrite Hheap; exact Hx).
      rewrite bind_ret, Ht0.
      destruct (String.eqb (title img) t0) eqn:Et; cbn [negb].
      * rewrite bind_ret.
        destruct (IH (done ++ [img]) w) as (w' & E & Hh & Hrest).
        { now rewrite <- app_assoc. }
        { apply Forall_app. split; [exact Hdone|]. constructor; [|constructor].
          intros _. now apply String.eqb_eq. }
        { exists x. now rewrite <- app_assoc. }
        exists w'. split; [exact E|]. rewrite Hh, <- app_assoc. auto.
      * unfold WindowManager_getImage. rewrite bind_assoc, bind_gets, Hheap.
        rewrite findWindow_app.
        2: { eapply Forall_impl; [exact Hdone|]. intros y Hy. cbn beta in *.
             destruct (visible y); [|reflexivity]. rewrite (Hy eq_refl).
             cbn [andb]. rewrite String.eqb_sym. exact Et. }
        cbn [findWindow Nat.add]. rewrite Hvis, String.eqb_refl. cbn [andb].
        destruct (release_run (length done) w img) as (w1 & E1 & Hh1 & Hg1 & Hm1 & Hu1).
        { rewrite Hheap. apply list_lookup_middle. reflexivity. }
        rewrite (bind_ok _ _ _ _ _ E1).
        assert (Hne : o <> length done).
        { intros ->. rewrite list_lookup_middle in Hx by reflexivity.
          injection Hx as <-. rewrite Ht0, String.eqb_refl in Et. discriminate. }
        destruct (IH (done ++ [releaseOf img]) w1) as (w' & E & Hh & Hg & Hm & Hu).
        { rewrite Hh1, Hheap, <- app_assoc.
          rewrite insert_app_r_alt by lia. now rewrite Nat.sub_diag. }
        { apply Forall_app. split; [exact Hdone|]. constructor; [|constructor].
          discriminate. }
        { exists x. split; [|exact Ht0]. rewrite <- app_assoc. cbn [app].
          rewrite <- Hx.
          destruct (Nat.lt_ge_cases o (length done)).
          - now rewrite !lookup_app_l by assumption.
          - rewrite !lookup_app_r by assumption.
            destruct (o - length done) as [|k] eqn:Ek; [lia|reflexivity]. }
        exists w'. split; [exact E|]. rewrite Hh, <- app_assoc.
        repeat split; congruence.
    + destruct (IH (done ++ [img]) w) as (w' & E & Hh & Hrest).
      { now rewrite <- app_assoc. }
      { apply Forall_app. split; [exact Hdone|]. constructor; [|constructor].
        rewrite Hvis. discriminate. }
      { exists x. now rewrite <- app_assoc. }
      exists w'. split; [exact E|]. rewrite Hh, <- app_assoc. auto.
Qed.

End CloseLoop.

Lemma closeOther_same t0 img : title img = t0 -> closeOther t0 img = img.
Proof.
  intros <-. unfold closeOther. rewrite String.eqb_refl. now rewrite andb_false_r.
Qed.

(** The clean-up with an original image: the store it leaves. *)
Lemma closeAllExceptOriginal_run w o orig :
  originalImage (globals w) = Ref o -> heap (host w) !! o = Some orig ->
  exists w' j,
    closeAllExceptOriginal w = (Ok tt, w') /\
    heap (host w')
    = <[o := shownOf orig]> (map (closeOther (title orig)) (heap (host w))) /\
    globals w' = globals w /\ messages (host w') = messages (host w) /\
    ui w' = ui w /\
    currentImage (host w') = Some j /\
    findWindow (title orig) (heap (host w')) 0 = Some j.
Proof.
  intros Ho Horig. unfold closeAllExceptOriginal.
  rewrite bind_gets, Ho. cbn [truthy negb deref].
  rewrite bind_ret. unfold WindowManager_getImageTitles. rewrite bind_gets.
  destruct (close_loop o (title orig) (heap (host w)) [] w) as (w1 & E1 & Hh1 & Hg1 & Hm1 & Hu1).
  { reflexivity. }
  { constructor. }
  { exists orig. auto. }
  rewrite (bind_ok _ _ _ _ _ E1). cbn [app] in Hh1.
  assert (Ho1 : heap (host w1) !! o = Some orig).
  { rewrite Hh1, list_lookup_fmap, Horig. cbn. now rewrite closeOther_same. }
  assert (Hlt : o < length (heap (host w1))) by (eapply lookup_lt_Some, Ho1).
  destruct w1 as [[h1 c1 m1] g1 u1]. wsimpl.
  unfold imp_show, imp_getTitle, IJ_selectWindow.
  rewrite bind_assoc. erewrite bind_getImp by (wsimpl; exact Ho1).
  match goal with |- context [bind (if visible orig then _ else _) _ ?w] =>
    assert (Hshow : exists c2,
      (if visible orig then ret tt
       else updImp o (fun img => set_closed false (set_visible true img)) ;;
            modify (with_currentImage (Some o))) w
      = (Ok tt, mkWorld (mkHost (<[o := shownOf orig]> h1) c2 m1) g1 u1))
  end.
  { unfold shownOf. destruct (visible orig).
    - exists c1. now rewrite list_insert_id.
    - exists (Some o). erewrite bind_updImp by (wsimpl; exact Ho1).
      unfold modify. wsimpl. now rewrite (alter_as_insert _ _ _ _ Ho1). }
  destruct Hshow as (c2 & Eshow). rewrite (bind_ok _ _ _ _ _ Eshow).
  rewrite bind_assoc.
  erewrite bind_getImp by (wsimpl; apply list_lookup_insert_eq; exact Hlt).
  rewrite bind_ret, bind_gets. wsimpl.
  assert (Ht : title (shownOf orig) = title orig).
  { unfold shownOf. now destruct (visible orig). }
  assert (Hv : visible (shownOf orig) = true).
  { unfold shownOf. now destruct (visible orig) eqn:E. }
  rewrite Ht.
  destruct (findWindow_Some (title orig) (<[o := shownOf orig]> h1) 0 o (shownOf orig))
    as [j Hj]; [now apply list_lookup_insert_eq|exact Hv|exact Ht|].
  rewrite Hj. exists (mkWorld (mkHost (<[o := shownOf orig]> h1) (Some j) m1) g1 u1), j.
  split; [reflexivity|]. wsimpl. subst h1. auto 10.
Qed.

(** After the clean-up every window has the title of the original. *)
Lemma windows_after_clean_up (h : list ImagePlus) o orig i img :
  h !! o = Some orig ->
  <[o := shownOf orig]> (map (closeOther (title orig)) h) !! i = Some img ->
  visible img = true -> title img = title orig.
Proof.
  intros Horig Hi Hvis.
  assert (Hlt : o < length h) by (eapply lookup_lt_Some, Horig).
  destruct (decide (i = o)) as [->|Hne].
  - rewrite list_lookup_insert_eq in Hi by now rewrite length_map.
    injection Hi as <-. unfold shownOf. now destruct (visible orig).
  - rewrite list_lookup_insert_ne in Hi by congruence.
    rewrite list_lookup_fmap in Hi.
    destruct (h !! i) as [x|]; [|discriminate].
    injection Hi as <-. unfold closeOther in Hvis |- *.
    destruct (visible x) eqn:Ex; cbn [andb] in *.
    + destruct (String.eqb (title x) (title orig)) eqn:Et; cbn [negb] in *.
      * now apply String.eqb_eq.
      * discriminate.
    + congruence.
Qed.

(** X5: the window clean-up.  Without an original image it only reports
    that.  With one it returns normally; every image that had a window
    whose title is not the original's has been marked unmodified and
    closed; every other image but the original is as it was, so an image
    without a window stays open; the original has a window, and a window
    with its title is the current one; every remaining window has the
    original's title; the script's globals, and with them the channel
    array, are as before. *)
Theorem close_all_except_original w :
  (truthy (originalImage (globals w)) = false ->
   closeAllExceptOriginal w
   = (Ok tt, with_message ("Error", "Original image not found!") w)) /\
  (forall o orig,
     originalImage (globals w) = Ref o -> heap (host w) !! o = Some orig ->
     exists w' j cur,
       closeAllExceptOriginal w = (Ok tt, w') /\
       globals w' = globals w /\ messages (host w') = messages (host w) /\
       length (heap (host w')) = length (heap (host w)) /\
       (forall i img, heap (host w) !! i = Some img ->
          visible img = true -> title img <> title orig ->
          heap (host w') !! i = Some (releaseOf img)) /\
       (forall i img, heap (host w) !! i = Some img -> i <> o ->
          visible img = false \/ title img = title orig ->
          heap (host w') !! i = Some img) /\
       heap (host w') !! o = Some (shownOf orig) /\
       currentImage (host w') = Some j /\
       heap (host w') !! j = Some cur /\ visible cur = true /\
       title cur = title orig /\
       (forall i img, heap (host w') !! i = Some img -> visible img = true ->
          title img = title orig)).
Proof.
  split.
  { intros Hnone. unfold closeAllExceptOriginal. rewrite bind_gets, Hnone. reflexivity. }
  intros o orig Ho Horig.
  destruct (closeAllExceptOriginal_run w o orig Ho Horig)
    as (w' & j & E & Hh & Hg & Hm & _ & Hc & Hj).
  destruct (findWindow_found _ _ _ _ Hj) as (cur & Hcur & _ & Hvc & Htc).
  rewrite Nat.sub_0_r in Hcur.
  assert (Hlt : o < length (heap (host w))) by (eapply lookup_lt_Some, Horig).
  exists w', j, cur. split; [exact E|]. split; [exact Hg|]. split; [exact Hm|].
  rewrite Hh. rewrite length_insert, length_map. split; [reflexivity|].
  assert (Hother : forall i img, heap (host w) !! i = Some img -> i <> o ->
            <[o := shownOf orig]> (map (closeOther (title orig)) (heap (host w))) !! i
            = Some (closeOther (title orig) img)).
  { intros i img Hi Hne. rewrite list_lookup_insert_ne by congruence.
    rewrite list_lookup_fmap, Hi. reflexivity. }
  split.
  { intros i img Hi Hvis Ht.
    assert (i <> o) by (intros ->; rewrite Horig in Hi; injection Hi as <-; congruence).
    rewrite (Hother i img Hi) by assumption. unfold closeOther.
    apply String.eqb_neq in Ht. now rewrite Hvis, Ht. }
  split.
  { intros i img Hi Hne Hcase. rewrite (Hother i img Hi Hne). unfold closeOther.
    destruct Hcase as [->|Ht]; [reflexivity|].
    rewrite Ht, String.eqb_refl. now rewrite andb_false_r. }
  split.
  { apply list_lookup_insert_eq. now rewrite length_map. }
  split; [exact Hc|]. rewrite <- Hh. split; [exact Hcur|]. split; [exact Hvc|].
  split; [exact Htc|].
  intros i img Hi Hvis. rewrite Hh in Hi.
  eapply windows_after_clean_up; eassumption.
Qed.

(** X6: once the clean-up has run, an identifier that named a channel whose
    title is not the original's still names it, for the channel array is
    as before, but the channel has no window any more: the provider
    reports that the window was not found and aborts. *)
Theorem provider_aborts_after_clean_up chStr w o orig vis v w' :
  originalImage (globals w) = Ref o -> heap (host w) !! o = Some orig ->
  resolveChannel chStr (splitInvertedChannels (globals w)) = Some vis ->
  heap (host w) !! vis = Some v -> title v <> title orig ->
  closeAllExceptOriginal w = (Ok tt, w') ->
  getChannelImage16OnTheFly chStr w'
  = (Thrown "Macro canceled",
     with_message ("Macro Error", title v +:+ " not found") w').
Proof.
  intros Ho Horig Hres Hv Ht E.
  destruct (closeAllExceptOriginal_run w o orig Ho Horig)
    as (w'' & j & E' & Hh & Hg & _).
  rewrite E in E'. injection E' as <-.
  apply resolveChannel_Some in Hres as (Hpre & n & Hn & Hrange & Hget).
  unfold getChannelImage16OnTheFly. rewrite Hpre. cbn [negb].
  rewrite bind_gets, Hg, Hn. cbv zeta. rewrite Hrange, Hget.
  cbn [isNullish truthy negb deref]. rewrite bind_ret.
  assert (Hvo : vis <> o).
  { intros ->. rewrite Horig in Hv. injection Hv as <-. congruence. }
  assert (Hv' : heap (host w') !! vis = Some (closeOther (title orig) v)).
  { rewrite Hh, list_lookup_insert_ne by congruence.
    now rewrite list_lookup_fmap, Hv. }
  rewrite (bind_getImp _ _ _ _ Hv').
  assert (Etitle : title (closeOther (title orig) v) = title v).
  { unfold closeOther. now destruct (_ && _). }
  rewrite Etitle. unfold IJ_selectWindow. rewrite bind_assoc, bind_gets.
  rewrite findWindow_None; [reflexivity|].
  rewrite Forall_forall. intros x Hx.
  apply list_elem_of_lookup_1 in Hx as [i Hi].
  destruct (visible x) eqn:Hvis; [|reflexivity]. cbn [andb].
  rewrite Hh in Hi.
  rewrite (windows_after_clean_up _ _ _ _ _ Horig Hi Hvis).
  apply String.eqb_neq. congruence.
Qed.

(** ** What the montage does to the store *)

(** Without an input of more than one frame the scan finds no time frames. *)
Lemma frameScan_single imgs :
  Forall (fun img => nFrames img <= 1) imgs -> frameScan imgs = (false, 1).
Proof.
  unfold frameScan. induction 1 as [|x l Hx _ IH]; cbn [fold_left]; [reflexivity|].
  destruct (Nat.ltb_spec 1 (nFrames x)); [lia|]. exact IH.
Qed.

(** The calibration copy and the display that end the montage, in full. *)
Lemma montage_tail_full h out0 (Q : list (list Z) -> Prop) first img0 hasTimeFrames w2 :
  MontageState h out0 Q w2 -> h !! first = Some img0 -> visible out0 = false ->
  exists w' out,
    (cal <- imp_getCalibration first ;;
     copySpatial cal (length h) ;;
     (if hasTimeFrames : bool then copyTemporal cal (length h) else ret tt) ;;
     imp_show (length h) ;;
     ret (Ref (length h))) w2 = (Ok (Ref (length h)), w') /\
    length (heap (host w')) = S (length h) /\
    (forall i, i < length h -> heap (host w') !! i = heap (host w2) !! i) /\
    heap (host w') !! length h = Some out /\
    currentImage (host w') = Some (length h) /\
    title out = title out0 /\ visible out = true /\ closed out = false /\
    pixelWidth (calibration out) = pixelWidth (calibration img0) /\
    pixelHeight (calibration out) = pixelHeight (calibration img0) /\
    calUnit (calibration out) = calUnit (calibration img0) /\
    frameInterval (calibration out)
    = frameInterval (calibration (if hasTimeFrames then img0 else out0)) /\
    fps (calibration out) = fps (calibration (if hasTimeFrames then img0 else out0)).
Proof.
  intros (Hlen & Hin & st & cs & Hout & Hst & Hq) Hfirst Hvis.
  destruct (Hin _ _ Hfirst) as (csf & Hf & _).
  assert (first < length h) by (eapply lookup_lt_Some; eassumption).
  unfold imp_getCalibration, copySpatial, copyTemporal, updCalibration, imp_show.
  run.
  all: rewrite ?Hvis in *; try discriminate.
  all: run.
  all: do 2 eexists; split; [reflexivity|]; wsimpl.
  all: rewrite !length_alter; split; [exact Hlen|].
  all: split; [intros i Hi; now rewrite !list_lookup_alter_ne by lia|].
  all: rewrite !list_lookup_alter_eq, Hout; cbn [fmap option_fmap option_map].
  all: split; [reflexivity|]; wsimpl; auto 20.
Qed.

(** The copy loop for single frames leaves the inputs as they are. *)
Lemma single_loop_keeps anyRGB (h : list ImagePlus) images imgs p w1 s' w2 :
  Forall2 (fun i img => h !! i = Some img) images imgs ->
  length h < length (heap (host w1)) ->
  (forall i, i < length h -> heap (host w1) !! i = h !! i) ->
  foldM images 0 (fun xOffset i =>
    img <- getImp i ;;
    r <- imp_getProcessor i ;;
    proc <- ip_read r ;;
    pasteProcessor anyRGB (length h, p) img proc xOffset) w1 = (Ok s', w2) ->
  forall i, i < length h -> heap (host w2) !! i = h !! i.
Proof.
  intros Himgs Hlen Hkeep E.
  match type of E with foldM _ _ ?body _ = _ =>
    destruct (foldM_inv
      (fun _ (_ : nat) w => length h < length (heap (host w)) /\
         forall i, i < length h -> heap (host w) !! i = h !! i)
      images body) with (s := 0) (w := w1) as (s'' & w2' & E' & _ & Hdone)
  end.
  - intros k i s w Hk (Hl & Hsame).
    destruct (Forall2_lookup_l _ _ _ _ _ Himgs Hk) as (img0 & _ & Hi).
    assert (HiL : i < length h) by (eapply lookup_lt_Some; eassumption).
    destruct (lookup_lt_is_Some_2 _ _ Hl) as [outimg Hout].
    destruct (paste_iter_single anyRGB (length h) p i s w img0 outimg)
      as (w3 & E3 & Hheap); [now rewrite Hsame|exact Hout|lia|].
    exists (s + width img0), w3. split; [exact E3|].
    rewrite Hheap, !length_insert. split; [exact Hl|].
    intros j Hj. rewrite list_lookup_insert_ne by lia.
    rewrite list_insert_id by now rewrite Hsame. now apply Hsame.
  - auto.
  - rewrite E in E'. injection E' as _ <-. exact Hdone.
Qed.

(** The montage of two or more live images: the store it leaves. *)
Lemma stackImagesHorizontally_effects images imgs w :
  2 <= length images ->
  Forall2 (fun i img => heap (host w) !! i = Some img) images imgs ->
  exists w' out first,
    stackImagesHorizontally images w = (Ok (Ref (length (heap (host w)))), w') /\
    length (heap (host w')) = S (length (heap (host w))) /\
    (forall i img, heap (host w) !! i = Some img ->
       exists cs, heap (host w') !! i = Some (set_currentSlice cs img) /\
         (fst (frameScan imgs) = false -> cs = currentSlice img)) /\
    heap (host w') !! length (heap (host w)) = Some out /\
    currentImage (host w') = Some (length (heap (host w))) /\
    title out = "Stacked" /\ visible out = true /\ closed out = false /\
    head imgs = Some first /\
    pixelWidth (calibration out) = pixelWidth (calibration first) /\
    pixelHeight (calibration out) = pixelHeight (calibration first) /\
    calUnit (calibration out) = calUnit (calibration first) /\
    frameInterval (calibration out)
    = (if fst (frameScan imgs) then frameInterval (calibration first) else 0%float) /\
    fps (calibration out)
    = (if fst (frameScan imgs) then fps (calibration first) else 0%float).
Proof.
  intros Hlen Himgs.
  unfold stackImagesHorizontally.
  destruct (Nat.ltb_spec (length images) 2); [lia|].
  rewrite (bind_ok _ _ _ _ _ (mapM_getImp _ _ _ Himgs)).
  pose proof (Forall2_length _ _ _ Himgs) as Hlen'.
  destruct (frameScan_spec imgs) as (Emax & Hnotime).
  destruct (frameScan imgs) as [hasTimeFrames maxFrames] eqn:Escan.
  cbn [fst snd] in *.
  rewrite Math_max_spec by (destruct imgs; [cbn in Hlen'; lia|discriminate]).
  destruct imgs as [|first imgs']; [cbn in Hlen'; lia|].
  destruct images as [|i0 images']; [cbn in Hlen; lia|].
  pose proof (Forall2_cons_1 _ _ _ _ _ Himgs) as [Hfirst _].
  set (imgs := first :: imgs') in *. set (images := i0 :: images') in *.
  rewrite fold_left_widths, Nat.add_0_l.
  set (W := sumWidths imgs). set (Ht := max_list (map height imgs)).
  set (anyRGB := existsb (fun img => (bitDepth img =? 24)%Z) imgs).
  assert (Hheight : forall img, img ∈ imgs -> height img <= Ht).
  { intros img Hin. apply max_list_elem_of_le.
    apply list_elem_of_fmap. exists img. auto. }
  destruct w as [[h c msgs] g u]. wsimpl.
  assert (Hmax1 : 1 <= maxFrames) by lia.
  set (ty := if anyRGB then (if hasTimeFrames then TypeRGB else TypeRGBColor)
             else if (bitDepth first =? 16)%Z then Type16bitBlack else Type8bitBlack).
  assert (Hrgb : anyRGB = true -> typeDepth ty = 24%Z).
  { intros E. unfold ty. rewrite E. now destruct hasTimeFrames. }
  assert (Hi0 : h !! i0 = Some first) by exact Hfirst.
  destruct hasTimeFrames.
  - (* time frames *)
    match goal with |- context [bind (if anyRGB then ?a else ?b)] =>
      replace (if anyRGB then a else b)
        with (stack0 <- new_ImagePlus "Stacked" ty W Ht maxFrames ;;
              imp_setDimensions stack0 1 1 maxFrames ;; ret stack0)
        by (unfold ty; destruct anyRGB; reflexivity)
    end.
    unfold new_ImagePlus, imp_setDimensions. run.
    set (out0 := set_dimensions 1 1 maxFrames _).
    match goal with |- context [bind (forEach _ _) _ ?wA] =>
      destruct (outer_loop h images imgs out0 anyRGB Himgs) with (n := maxFrames) (w1 := wA)
        as (w2 & E2 & Hstate)
    end.
    + cbn. lia.
    + exact Hheight.
    + exact Hrgb.
    + cbn. apply length_replicate.
    + eapply MontageState_weaken; [|apply MontageState_fresh]. auto.
    + rewrite (bind_ok _ _ _ _ _ E2), bind_ret.
      destruct (montage_tail_full _ _ _ i0 first true _ Hstate Hi0 eq_refl)
        as (w' & out & E & Hl & Hlow & Hout & Hcur & Htitle & Hvis & Hcl & Hcal).
      exists w', out, first. split; [exact E|]. split; [exact Hl|]. split.
      { intros i img Hi.
        destruct Hstate as (_ & Hin & _). destruct (Hin i img Hi) as (cs & Hcs & _).
        exists cs. rewrite Hlow by (eapply lookup_lt_Some; eassumption).
        split; [exact Hcs|discriminate]. }
      split; [exact Hout|]. split; [exact Hcur|]. split; [exact Htitle|].
      split; [exact Hvis|]. split; [exact Hcl|]. split; [reflexivity|]. exact Hcal.
  - (* single frame *)
    match goal with |- context [bind (if anyRGB then ?a else ?b)] =>
      replace (if anyRGB then a else b)
        with (IJ_createImage "Stacked" ty W Ht)
        by (unfold ty; destruct anyRGB; [|destruct (bitDepth first =? 16)%Z]; reflexivity)
    end.
    unfold IJ_createImage, imp_getProcessor at 1. run.
    cbn [Nat.sub].
    set (out0 := mkImagePlus _ _ _ _ _ _ _ _ _ _ _ _ _).
    match goal with |- context [bind (foldM images 0 ?body) _ ?wA] =>
      destruct (inner_loop h images imgs out0 anyRGB 0 1 body (fun img => img) Himgs)
        with (st0 := stack out0) (w1 := wA)
        as (s' & w2 & E2 & Hstate)
    end.
    + cbn. lia.
    + exact Hheight.
    + exact Hrgb.
    + intros i xOffset w0 img1 outimg. apply paste_iter_single.
    + intros cs img0. eauto.
    + intros img0 cs Hin Hpl Hcs. apply current_frame; auto.
    + cbn. lia.
    + apply MontageState_fresh.
    + rewrite (bind_ok _ _ _ _ _ E2), bind_ret.
      pose proof (fun Hl Hk => single_loop_keeps anyRGB h images imgs 0 _ _ _ Himgs Hl Hk E2)
        as Hkeep.
      specialize (Hkeep ltac:(wsimpl; rewrite length_app; cbn; lia)).
      specialize (Hkeep ltac:(intros i Hi; wsimpl; now rewrite lookup_app_l by exact Hi)).
      destruct (montage_tail_full _ _ _ i0 first false _ Hstate Hi0 eq_refl)
        as (w' & out & E & Hl & Hlow & Hout & Hcur & Htitle & Hvis & Hcl & Hcal).
      exists w', out, first. split; [exact E|]. split; [exact Hl|]. split.
      { intros i img Hi.
        assert (i < length h) by (eapply lookup_lt_Some; eassumption).
        exists (currentSlice img). rewrite set_currentSlice_same, Hlow, Hkeep by assumption.
        auto. }
      split; [exact Hout|]. split; [exact Hcur|]. split; [exact Htitle|].
      split; [exact Hvis|]. split; [exact Hcl|]. split; [reflexivity|]. exact Hcal.
Qed.

Lemma stackImagesHorizontally_sameGlobals images :
  preserves sameGlobals (stackImagesHorizontally images).
Proof.
  unfold stackImagesHorizontally, pasteProcessor. unfold_host.
  pres_with sameGlobals_leaf.
Qed.

Lemma frameScan_some imgs img :
  img ∈ imgs -> 1 < nFrames img -> fst (frameScan imgs) = true.
Proof.
  intros Hin Hmany. destruct (frameScan_spec imgs) as [_ Hnone].
  destruct (fst (frameScan imgs)); [reflexivity|].
  specialize (Hnone eq_refl img Hin). lia.
Qed.

(** X9: given two or more live images, the montage assembler returns a new
    image that has a window titled "Stacked" and is the current image.  It
    carries the pixel width, pixel height and unit of the first input;
    its frame interval and sampling rate are those of the first input when
    some input has more than one frame and are left at zero otherwise.
    The images that existed before are still there: when no input has more
    than one frame they are exactly as they were, otherwise they are as
    they were except for their stack position.  The script's globals are
    not touched. *)
Theorem montage_effects images imgs w :
  2 <= length images ->
  Forall2 (fun i img => heap (host w) !! i = Some img) images imgs ->
  exists w' out first,
    stackImagesHorizontally images w = (Ok (Ref (length (heap (host w)))), w') /\
    globals w' = globals w /\
    length (heap (host w')) = S (length (heap (host w))) /\
    heap (host w') !! length (heap (host w)) = Some out /\
    currentImage (host w') = Some (length (heap (host w))) /\
    title out = "Stacked" /\ visible out = true /\ closed out = false /\
    head imgs = Some first /\
    pixelWidth (calibration out) = pixelWidth (calibration first) /\
    pixelHeight (calibration out) = pixelHeight (calibration first) /\
    calUnit (calibration out) = calUnit (calibration first) /\
    ((exists img, img ∈ imgs /\ 1 < nFrames img) ->
       frameInterval (calibration out) = frameInterval (calibration first) /\
       fps (calibration out) = fps (calibration first)) /\
    (Forall (fun img => nFrames img <= 1) imgs ->
       frameInterval (calibration out) = 0%float /\
       fps (calibration out) = 0%float) /\
    (forall i img, heap (host w) !! i = Some img ->
       exists cs, heap (host w') !! i = Some (set_currentSlice cs img)) /\
    (Forall (fun img => nFrames img <= 1) imgs ->
     forall i img, heap (host w) !! i = Some img -> heap (host w') !! i = Some img).
Proof.
  intros Hlen Himgs.
  destruct (stackImagesHorizontally_effects images imgs w Hlen Himgs)
    as (w' & out & first & E & Hl & Hin & Hout & Hcur & Ht & Hv & Hc & Hf
        & Hpw & Hph & Hu & Hfi & Hfps).
  exists w', out, first. split; [exact E|].
  split; [pose proof (stackImagesHorizontally_sameGlobals images w) as Hg;
          now rewrite E in Hg|].
  repeat (split; [assumption|]).
  split; [|split; [|split]].
  - intros (img & Himg & Hmany). rewrite (frameScan_some _ _ Himg Hmany) in Hfi, Hfps. auto.
  - intros Hone. rewrite (frameScan_single _ Hone) in Hfi, Hfps. auto.
  - intros i img Hi. destruct (Hin i img Hi) as (cs & Hcs & _). eauto.
  - intros Hone i img Hi. destruct (Hin i img Hi) as (cs & Hcs & Hsame).
    rewrite (frameScan_single _ Hone) in Hsame. rewrite Hsame in Hcs by reflexivity.
    now rewrite set_currentSlice_same in Hcs.
Qed.

(** X10: when the loop over the alignment choices has gathered two or more
    live images, the alignment workflow returns normally;
    [finalAlignedImage] is the new montage, which has a window titled
    "Stacked", and a window of that title is the current one.  The
    gathered images are still in the store, as they were but for their
    stack position: the workflow does not close the hidden copies it has
    made. *)
Theorem align_shows_montage w images imgs w1 :
  foldM (alignmentChoices (ui w)) [] resolveSelection w = (Ok images, w1) ->
  2 <= length images ->
  Forall2 (fun i img => heap (host w1) !! i = Some img) images imgs ->
  exists w' out j cur,
    alignSelectedImages w = (Ok tt, w') /\
    finalAlignedImage (globals w') = Ref (length (heap (host w1))) /\
    heap (host w') !! length (heap (host w1)) = Some out /\
    title out = "Stacked" /\ visible out = true /\
    currentImage (host w') = Some j /\
    heap (host w') !! j = Some cur /\ visible cur = true /\ title cur = "Stacked" /\
    Forall2 (fun i img =>
               exists cs, heap (host w') !! i = Some (set_currentSlice cs img))
            images imgs.
Proof.
  intros Egather Hlen Himgs.
  rewrite (alignSelectedImages_enough _ _ _ Egather Hlen).
  destruct (stackImagesHorizontally_effects images imgs w1 Hlen Himgs)
    as (w2 & out & first & E & Hl & Hin & Hout & Hcur & Ht & Hv & _).
  rewrite (bind_ok _ _ _ _ _ E), bind_modify. cbn [deref]. rewrite bind_ret.
  unfold imp_getTitle, IJ_selectWindow.
  rewrite bind_assoc. erewrite bind_getImp by (wsimpl; exact Hout).
  rewrite bind_ret, bind_gets. wsimpl. rewrite Ht.
  destruct (findWindow_Some "Stacked" (heap (host w2)) 0 _ out Hout Hv Ht) as [j Hj].
  rewrite Hj.
  destruct (findWindow_found _ _ _ _ Hj) as (cur & Hc & _ & Hvc & Htc).
  rewrite Nat.sub_0_r in Hc.
  eexists _, out, j, cur. split; [reflexivity|]. wsimpl.
  repeat (split; [first [reflexivity|assumption]|]).
  eapply Forall2_impl; [exact Himgs|]. intros i img Hi.
  destruct (Hin i img Hi) as (cs & Hcs & _). eauto.
Qed.

(** ** What the extractor makes of the channels *)

Lemma insert_alter_same {A} (f : A -> A) i (x : A) (l : list A) :
  <[i := x]> (alter f i l) = <[i := x]> l.
Proof.
  revert i. induction l as [|a l IH]; intros [|i]; cbn; try reflexivity.
  f_equal. apply IH.
Qed.

(** One pass through the body of the loop over the splits, in full. *)
Lemma extractChannel_run wholeStack src i c full w ch s :
  heap (host w) !! c = Some ch -> heap (host w) !! src = Some s -> src <> c ->
  exists w',
    (IJ_run_convert 8 c ;;
     IJ_run_Grays c ;;
     IJ_run_Invert wholeStack c ;;
     t <- imp_getTitle src ;;
     imp_setTitle c ("C" +:+ pretty (i + 1) +:+ "-TempForMerge_" +:+ t) ;;
     imp_show c ;;
     storeChannel i (Ref c) full) w = (Ok tt, w') /\
    heap (host w')
    = <[c := extractedChannel wholeStack
               ("C" +:+ pretty (i + 1) +:+ "-TempForMerge_" +:+ title s) ch]>
        (heap (host w)) /\
    messages (host w') = messages (host w) /\
    globals w'
    = set_splitInvertedChannelsFullStack
        (arraySet i full (splitInvertedChannelsFullStack (globals w)))
        (set_splitInvertedChannels
           (arraySet i (Ref c) (splitInvertedChannels (globals w))) (globals w)).
Proof.
  intros Ec Es Hne.
  destruct w as [[h cur msgs] g u]. wsimpl.
  unfold IJ_run_convert, IJ_run_Grays, IJ_run_Invert, imp_getTitle, imp_setTitle,
    imp_show, storeChannel.
  run.
  all: eexists; split; [reflexivity|]; wsimpl.
  all: split; [|split; reflexivity].
  all: unfold extractedChannel, shownOf, invertOf, convertOf; wsimpl; rewrite ?Heqb.
  all: repeat (erewrite alter_as_insert by solve_lookup; wsimpl).
  all: now rewrite !insert_alter_same.
Qed.

(** The two loops that fill the channel arrays: what they do to the store
    and to the array of full stacks. *)
Lemma extract_loops_heap wholeStack src (fullOf : ImageId -> jsval) w L n s :
  length (heap (host w)) = S L + n -> src <= L ->
  heap (host w) !! src = Some s ->
  length (splitInvertedChannels (globals w)) = 4 ->
  length (splitInvertedChannelsFullStack (globals w)) = 4 ->
  exists w',
    (forEach (zip (seq 0 4) (seq (S L) n)) (fun '(i, c) =>
       IJ_run_convert 8 c ;;
       IJ_run_Grays c ;;
       IJ_run_Invert wholeStack c ;;
       t <- imp_getTitle src ;;
       imp_setTitle c ("C" +:+ pretty (i + 1) +:+ "-TempForMerge_" +:+ t) ;;
       imp_show c ;;
       storeChannel i (Ref c) (fullOf c)) ;;
     forEach (seq (length (seq (S L) n)) (4 - length (seq (S L) n))) (fun k =>
       storeChannel k Null Null)) w = (Ok tt, w') /\
    length (heap (host w')) = S L + n /\
    (forall i, i <= L -> heap (host w') !! i = heap (host w) !! i) /\
    (forall j ch, j < 4 -> heap (host w) !! (S L + j) = Some ch ->
       heap (host w') !! (S L + j)
       = Some (extractedChannel wholeStack
                 ("C" +:+ pretty (j + 1) +:+ "-TempForMerge_" +:+ title s) ch)) /\
    (forall j, 4 <= j -> heap (host w') !! (S L + j) = heap (host w) !! (S L + j)) /\
    messages (host w') = messages (host w) /\
    length (splitInvertedChannelsFullStack (globals w')) = 4 /\
    (forall j, j < n -> j < 4 ->
       splitInvertedChannelsFullStack (globals w') !! j = Some (fullOf (S L + j))) /\
    (forall j, n <= j -> j < 4 ->
       splitInvertedChannelsFullStack (globals w') !! j = Some Null) /\
    otherGlobals (globals w) (globals w').
Proof.
  intros Hlen Hsrc Hs Harr Hfull.
  destruct (forEach_inv
    (fun k w1 =>
       length (heap (host w1)) = S L + n /\
       (forall i, i <= L -> heap (host w1) !! i = heap (host w) !! i) /\
       (forall j ch, j < k -> heap (host w) !! (S L + j) = Some ch ->
          heap (host w1) !! (S L + j)
          = Some (extractedChannel wholeStack
                    ("C" +:+ pretty (j + 1) +:+ "-TempForMerge_" +:+ title s) ch)) /\
       (forall j, k <= j -> heap (host w1) !! (S L + j) = heap (host w) !! (S L + j)) /\
       messages (host w1) = messages (host w) /\
       length (splitInvertedChannels (globals w1)) = 4 /\
       length (splitInvertedChannelsFullStack (globals w1)) = 4 /\
       (forall j, j < k ->
          splitInvertedChannelsFullStack (globals w1) !! j = Some (fullOf (S L + j))) /\
       otherGlobals (globals w) (globals w1))
    (zip (seq 0 4) (seq (S L) n))
    (fun '(i, c) =>
       IJ_run_convert 8 c ;;
       IJ_run_Grays c ;;
       IJ_run_Invert wholeStack c ;;
       t <- imp_getTitle src ;;
       imp_setTitle c ("C" +:+ pretty (i + 1) +:+ "-TempForMerge_" +:+ t) ;;
       imp_show c ;;
       storeChannel i (Ref c) (fullOf c))) with (w := w)
    as (w1 & E1 & Hl1 & Hlow1 & Hdone1 & Hrest1 & Hm1 & Ha1 & Hf1 & Hfull1 & Hg1).
  { intros k [i c] w1 Hk (Hl & Hlow & Hdone & Hrest & Hm & Ha & Hf & Hfl & Hg).
    apply lookup_zip_with_Some in Hk as (i' & c' & [= -> ->] & Hi & Hc).
    apply lookup_seq in Hi as [-> Hi]. apply lookup_seq in Hc as [-> Hc].
    change (0 + k) with k in *.
    destruct (lookup_lt_is_Some_2 (heap (host w)) (S L + k) ltac:(lia)) as [ch Ech].
    destruct (extractChannel_run wholeStack src k (S L + k) (fullOf (S L + k)) w1 ch s)
      as (w2 & E2 & Hh2 & Hm2 & Hg2).
    { rewrite Hrest by lia. exact Ech. }
    { rewrite Hlow by lia. exact Hs. }
    { lia. }
    exists w2. split; [exact E2|]. rewrite Hh2, Hg2, Hm2, length_insert.
    unfold otherGlobals in *. wsimpl.
    rewrite !arraySet_lt by lia. rewrite !length_insert.
    split; [exact Hl|]. split.
    { intros j Hj. rewrite list_lookup_insert_ne by lia. now apply Hlow. }
    split.
    { intros j chj Hj Ej. destruct (decide (j = k)) as [->|Hne].
      - rewrite list_lookup_insert_eq by lia. rewrite Ech in Ej. now injection Ej as <-.
      - rewrite list_lookup_insert_ne by lia. apply Hdone; [lia|exact Ej]. }
    split.
    { intros j Hj. rewrite list_lookup_insert_ne by lia. apply Hrest. lia. }
    split; [exact Hm|]. split; [exact Ha|]. split; [exact Hf|]. split; [|exact Hg].
    intros j Hj. destruct (decide (j = k)) as [->|Hne].
    - apply list_lookup_insert_eq. lia.
    - rewrite list_lookup_insert_ne by congruence. apply Hfl. lia. }
  { unfold otherGlobals. repeat split; auto; intros; lia. }
  rewrite (bind_ok _ _ _ _ _ E1).
  rewrite length_zip_with, !length_seq in Hdone1, Hrest1, Hfull1.
  rewrite length_seq.
  destruct (forEach_inv
    (fun k w2 =>
       heap (host w2) = heap (host w1) /\
       messages (host w2) = messages (host w1) /\
       length (splitInvertedChannels (globals w2)) = 4 /\
       length (splitInvertedChannelsFullStack (globals w2)) = 4 /\
       (forall j, j < n -> j < 4 ->
          splitInvertedChannelsFullStack (globals w2) !! j = Some (fullOf (S L + j))) /\
       (forall j, n <= j -> j < n + k ->
          splitInvertedChannelsFullStack (globals w2) !! j = Some Null) /\
       otherGlobals (globals w) (globals w2))
    (seq n (4 - n))
    (fun k => storeChannel k Null Null)) with (w := w1)
    as (w2 & E2 & Hh2 & Hm2 & Ha2 & Hf2 & Hfull2 & Hnull2 & Hg2).
  { intros k a w2 Hk (Hh & Hm & Ha & Hf & Hfl & Hn & Hg).
    apply lookup_seq in Hk as [-> Hk].
    eexists. split; [reflexivity|].
    unfold otherGlobals in *. wsimpl. rewrite !arraySet_lt by lia. rewrite !length_insert.
    split; [exact Hh|]. split; [exact Hm|]. split; [exact Ha|]. split; [exact Hf|].
    split; [|split; [|exact Hg]].
    - intros j Hj1 Hj2. rewrite list_lookup_insert_ne by lia. now apply Hfl.
    - intros j Hj1 Hj2. destruct (decide (j = n + k)) as [->|Hne].
      + apply list_lookup_insert_eq. lia.
      + rewrite list_lookup_insert_ne by congruence. apply Hn; lia. }
  { split; [reflexivity|]. split; [reflexivity|]. split; [exact Ha1|].
    split; [exact Hf1|]. split; [|split; [|exact Hg1]].
    - intros j Hj1 Hj2. apply Hfull1. lia.
    - intros j Hj1 Hj2. lia. }
  exists w2. rewrite length_seq in Hnull2. rewrite Hh2, Hm2.
  split; [exact E2|]. split; [exact Hl1|]. split; [exact Hlow1|].
  split.
  { intros j ch Hj Ech. apply Hdone1; [|exact Ech].
    apply lookup_lt_Some in Ech. lia. }
  split.
  { intros j Hj. apply Hrest1. lia. }
  split; [exact Hm1|]. split; [exact Hf2|]. split; [exact Hfull2|].
  split; [|exact Hg2].
  intros j Hj1 Hj2. apply Hnull2; lia.
Qed.

(** The images the channel splitter makes. *)
Lemma channelsOf_fields dup k ch :
  channelsOf dup !! k = Some ch ->
  width ch = width dup /\ height ch = height dup /\
  nChannels ch = 1 /\ nSlices ch = nSlices dup /\ nFrames ch = nFrames dup /\
  currentSlice ch = 1 /\ calibration ch = calibration dup /\
  visible ch = false /\ closed ch = false.
Proof.
  unfold channelsOf. destruct (bitDepth dup =? 24)%Z; rewrite list_lookup_fmap;
    destruct (_ !! k); intros [= <-]; repeat split.
Qed.

Lemma setSliceOf_same img : setSliceOf (currentSlice img) img = img.
Proof.
  unfold setSliceOf. destruct (_ && _); [apply set_currentSlice_same|reflexivity].
Qed.

(** The extractor on a current image that has a window: the state it ends
    in. *)
Lemma duplicateSplitInvert_spec w o img :
  currentImage (host w) = Some o -> heap (host w) !! o = Some img ->
  visible img = true ->
  length (splitInvertedChannels (globals w)) = 4 ->
  length (splitInvertedChannelsFullStack (globals w)) = 4 ->
  let timeSeries := useFramesCheckbox (ui w) && (1 <? nFrames img) in
  let dup := duplicateOf (extractorOptions (useFramesCheckbox (ui w)) img) None img in
  let L := length (heap (host w)) in
  exists w' j,
    duplicateSplitInvert w = (Ok tt, w') /\
    length (heap (host w')) = S L + channelCount img /\
    (forall i, i <= L -> heap (host w') !! i = (heap (host w) ++ [dup]) !! i) /\
    (forall k ch, channelsOf dup !! k = Some ch ->
       heap (host w') !! (S L + k)
       = Some (if k <? 4
               then extractedChannel timeSeries
                      ("C" +:+ pretty (k + 1) +:+ "-TempForMerge_"
                       +:+ title (if timeSeries then img else dup)) ch
               else ch)) /\
    messages (host w') = messages (host w) /\
    currentImage (host w') = Some j /\
    findWindow (title img) (heap (host w')) 0 = Some j /\
    otherGlobals (set_duplicatedCroppedImage (Ref L)
                    (set_originalImage (Ref o) (globals w))) (globals w') /\
    ui w' = ui w /\
    length (splitInvertedChannels (globals w')) = 4 /\
    (forall k, k < 4 ->
       splitInvertedChannels (globals w') !! k
       = Some (if k <? channelCount img then Ref (S L + k) else Null)) /\
    (forall k, k < 4 ->
       splitInvertedChannelsFullStack (globals w') !! k
       = Some (if (k <? channelCount img) && timeSeries then Ref (S L + k) else Null)).
Proof.
  intros Hcur Himg Hvis Harr Hfull. cbv zeta.
  unfold duplicateSplitInvert, IJ_getImage at 1.
  rewrite bind_assoc, bind_gets, Hcur, bind_ret, bind_modify, bind_gets.
  erewrite bind_getImp by (wsimpl; exact Himg). cbv zeta.
  destruct w as [[h c msgs] g u]. wsimpl.
  set (opt := extractorOptions (useFramesCheckbox u) img).
  match goal with |- context [bind (if ?b then ?x else ?y)] =>
    replace (if b then x else y) with (IJ_run_Duplicate o opt None)
      by (subst opt; unfold extractorOptions; destruct b;
          [destruct (1 <? nSlices img)|]; reflexivity)
  end.
  erewrite bind_Duplicate by (wsimpl; exact Himg). wsimpl.
  set (dup := duplicateOf opt None img).
  assert (Hn : length (channelsOf dup) = channelCount img).
  { rewrite length_channelsOf. reflexivity. }
  assert (Ho : o < length h) by (eapply lookup_lt_Some; eassumption).
  assert (Hmode : useFramesCheckbox u && (1 <? nFrames dup)
                  = useFramesCheckbox u && (1 <? nFrames img)).
  { subst dup opt. unfold extractorOptions. cbn [nFrames duplicateOf].
    destruct (useFramesCheckbox u); [|reflexivity]. cbn [andb].
    destruct (1 <? nFrames img) eqn:E; [|reflexivity].
    destruct (1 <? nSlices img); cbn [duplicateFrames]; exact E. }
  unfold IJ_getImage at 1, ChannelSplitter_split.
  rewrite bind_assoc, bind_gets. wsimpl. rewrite bind_ret, bind_modify. wsimpl.
  erewrite bind_getImp by (wsimpl; apply lookup_last).
  rewrite Hmode.
  set (ts := useFramesCheckbox u && (1 <? nFrames img)).
  set (s := if ts then img else dup).
  destruct ts eqn:Ets.
  all: do 2 rewrite bind_assoc; erewrite bind_getImp by (wsimpl; apply lookup_last).
  all: rewrite bind_newImps; wsimpl; rewrite Hn, length_app; cbn [length];
    rewrite Nat.add_1_r.
  all: match goal with
       | |- context [bind (bind (forEach _ (fun '(i, c) =>
              _ ;; _ ;; IJ_run_Invert ?ws _ ;; t <- imp_getTitle ?src ;; _ ;; _ ;;
              storeChannel _ _ (@?full c))) _) _ ?w] =>
           destruct (extract_loops ws src full w (length h) (channelCount img))
             as (w2 & E2 & _ & Ha2 & Hr2 & Hn2 & _ & _);
           [ wsimpl; rewrite !length_app, Hn; cbn [length]; lia
           | lia
           | exact Harr
           | destruct (extract_loops_heap ws src full w (length h) (channelCount img) s)
               as (w2' & E2' & Hl2 & Hlow2 & Hdone2 & Hrest2 & Hm2 & _ & Hf2 & Hfn2 & Hg2);
             [ wsimpl; rewrite !length_app, Hn; cbn [length]; lia
             | lia
             | wsimpl; subst s; first [ apply lookup_app_l_Some, lookup_last
                                      | now do 2 apply lookup_app_l_Some ]
             | exact Harr
             | exact Hfull
             | rewrite E2 in E2'; injection E2' as <-;
               rewrite (bind_ok _ _ _ _ _ E2) ] ]
       end.
  all: wsimpl.
  all: assert (Ho2 : heap (host w2) !! o = Some img)
         by (rewrite Hlow2 by lia; now do 2 apply lookup_app_l_Some).
  all: unfold imp_getTitle, IJ_selectWindow, imp_setSlice, imp_show.
  all: rewrite bind_assoc; erewrite bind_getImp by exact Ho2; rewrite bind_ret.
  all: rewrite bind_assoc, bind_gets.
  all: destruct (findWindow_Some (title img) (heap (host w2)) 0 o img Ho2 Hvis eq_refl)
         as [j Hj]; rewrite Hj.
  all: rewrite bind_modify.
  all: erewrite bind_updImp by (wsimpl; exact Ho2).
  all: erewrite bind_getImp by (wsimpl; rewrite list_lookup_alter_eq, Ho2; reflexivity).
  all: rewrite setSliceOf_same, Hvis.
  all: eexists _, j; split; [reflexivity|]; wsimpl.
  all: rewrite (alter_as_insert _ _ _ _ Ho2), setSliceOf_same, list_insert_id by exact Ho2.
  all: split; [exact Hl2|].
  all: split; [intros i Hi; rewrite Hlow2 by exact Hi;
               apply lookup_app_l; rewrite length_app; cbn [length]; lia|].
  all: split;
    [ intros k ch Hk;
      assert (Hk' : ((h ++ [dup]) ++ channelsOf dup) !! (S (length h) + k) = Some ch)
        by (rewrite lookup_app_r by (rewrite length_app; cbn [length]; lia);
            rewrite length_app; cbn [length];
            replace (S (length h) + k - (length h + 1)) with k by lia; exact Hk);
      destruct (Nat.ltb_spec k 4);
      [ now apply Hdone2 | now rewrite Hrest2 by assumption ] | ].
  all: split; [exact Hm2|]. all: split; [reflexivity|]. all: split; [exact Hj|].
  all: split; [exact Hg2|].
  all: split;
    [ match type of E2 with ?c ?w0 = _ =>
        assert (Hui : preserves sameUI c)
          by (unfold storeChannel; unfold_host; pres_with sameUI_leaf);
        apply (preserves_run sameUI _ _ _ _ Hui) in E2; exact E2
      end | ].
  all: split; [exact Ha2|].
  all: split;
    [ intros k Hk; destruct (Nat.ltb_spec k (channelCount img));
      [now apply Hr2 | now apply Hn2] | ].
  all: intros k Hk; destruct (Nat.ltb_spec k (channelCount img)); cbn [andb];
    [ now apply Hf2 | now apply Hfn2 ].
Qed.

(** X7: run on a current image that has a window, the extractor returns
    normally and shows no message.  It leaves every image that existed as
    it was, and adds the duplicate and the images the channel splitter
    makes of it.  Each of the first four of these is entered in the
    channel array, has a window, is 8 bits deep, keeps extent and
    calibration of the source, is titled after its channel number, and
    holds the inverted 8-bit conversion of the channel: of all its planes
    when the time-frames checkbox is set and the source has more than one
    frame, when it is also entered in the array of full stacks, and of its
    first plane otherwise.  Channel images beyond the fourth stay as the
    splitter made them, without a window.  The entries of both arrays
    beyond the channels are [null]. *)
Theorem extractor_makes_inverted_channels w o img :
  currentImage (host w) = Some o -> heap (host w) !! o = Some img ->
  visible img = true ->
  length (splitInvertedChannels (globals w)) = 4 ->
  length (splitInvertedChannelsFullStack (globals w)) = 4 ->
  let timeSeries := useFramesCheckbox (ui w) && (1 <? nFrames img) in
  let dup := duplicateOf (extractorOptions (useFramesCheckbox (ui w)) img) None img in
  let L := length (heap (host w)) in
  exists w',
    duplicateSplitInvert w = (Ok tt, w') /\
    messages (host w') = messages (host w) /\
    originalImage (globals w') = Ref o /\
    duplicatedCroppedImage (globals w') = Ref L /\
    (forall i x, heap (host w) !! i = Some x -> heap (host w') !! i = Some x) /\
    heap (host w') !! L = Some dup /\
    length (heap (host w')) = S L + channelCount img /\
    (forall k ch, channelsOf dup !! k = Some ch -> k < 4 ->
       exists c,
         heap (host w') !! (S L + k) = Some c /\
         splitInvertedChannels (globals w') !! k = Some (Ref (S L + k)) /\
         splitInvertedChannelsFullStack (globals w') !! k
         = Some (if timeSeries then Ref (S L + k) else Null) /\
         title c = "C" +:+ pretty (k + 1) +:+ "-TempForMerge_"
                   +:+ (if timeSeries then title img else title img +:+ "-1") /\
         bitDepth c = 8%Z /\ visible c = true /\ closed c = false /\
         width c = width img /\ height c = height img /\
         nChannels c = 1 /\ nSlices c = nSlices dup /\ nFrames c = nFrames dup /\
         calibration c = calibration img /\
         stack c
         = (if timeSeries then map (invertPixels 8) else alter (invertPixels 8) 0)
             (map (convertPixels (bitDepth ch) 8) (stack ch))) /\
    (forall k ch, channelsOf dup !! k = Some ch -> 4 <= k ->
       heap (host w') !! (S L + k) = Some ch) /\
    (forall k, channelCount img <= k -> k < 4 ->
       splitInvertedChannels (globals w') !! k = Some Null /\
       splitInvertedChannelsFullStack (globals w') !! k = Some Null).
Proof.
  intros Hcur Himg Hvis Harr Hfull. cbv zeta.
  destruct (duplicateSplitInvert_spec w o img Hcur Himg Hvis Harr Hfull)
    as (w' & j & E & Hl & Hlow & Hch & Hm & _ & _ & Hg & _ & _ & Hsplit & Hfl).
  cbv zeta in *.
  set (ts := useFramesCheckbox (ui w) && (1 <? nFrames img)) in *.
  set (dup := duplicateOf (extractorOptions (useFramesCheckbox (ui w)) img) None img) in *.
  destruct Hg as (Hg1 & Hg2 & _). cbn in Hg1, Hg2.
  exists w'. split; [exact E|]. split; [exact Hm|]. split; [exact Hg1|].
  split; [exact Hg2|]. split.
  { intros i x Hi. assert (i < length (heap (host w))) by (eapply lookup_lt_Some, Hi).
    rewrite Hlow by lia. now apply lookup_app_l_Some. }
  split; [rewrite Hlow by lia; apply lookup_last|]. split; [exact Hl|].
  assert (Hn : length (channelsOf dup) = channelCount img).
  { rewrite length_channelsOf. reflexivity. }
  split; [|split].
  - intros k ch Hk Hk4. specialize (Hch k ch Hk).
    destruct (Nat.ltb_spec k 4); [|lia].
    assert (Hkn : k < channelCount img) by (rewrite <- Hn; eapply lookup_lt_Some, Hk).
    specialize (Hsplit k Hk4). specialize (Hfl k Hk4).
    destruct (Nat.ltb_spec k (channelCount img)); [|lia]. cbn [andb] in Hfl.
    destruct (channelsOf_fields dup k ch Hk)
      as (Ew & Eh & Ec & Ez & Et & Ecs & Ecal & Ev & Ecl).
    eexists. split; [exact Hch|]. split; [exact Hsplit|]. split; [exact Hfl|].
    unfold extractedChannel, shownOf, invertOf, convertOf. wsimpl. rewrite Ev. wsimpl.
    rewrite Ew, Eh, Ec, Ez, Et, Ecs, Ecal.
    repeat split. all: destruct ts; reflexivity.
  - intros k ch Hk Hk4. specialize (Hch k ch Hk).
    destruct (Nat.ltb_spec k 4); [lia|]. exact Hch.
  - intros k Hk Hk4. specialize (Hsplit k Hk4). specialize (Hfl k Hk4).
    destruct (Nat.ltb_spec k (channelCount img)); [lia|]. auto.
Qed.

(** ** The clean-up after an extraction *)

Lemma length_append (s1 s2 : string) :
  String.length (s1 +:+ s2) = String.length s1 + String.length s2.
Proof. induction s1 as [|a s1 IH]; simpl; [reflexivity|]. now f_equal. Qed.

(** A longer title is another title. *)
Lemma longer_title (s t : string) :
  String.length s < String.length t -> t <> s.
Proof. intros Hlen ->. lia. Qed.

(** X17: the extractor followed by the clean-up, on a current image that
    has a window.  Both return normally.  Afterwards the source is as it
    was before the extraction, the duplicate and the channel images the
    extractor had given a window are released, and the channel array
    still refers to them.  Channel images beyond the fourth, which never
    had a window, are still open. *)
Theorem clean_up_releases_extraction w o img :
  currentImage (host w) = Some o -> heap (host w) !! o = Some img ->
  visible img = true ->
  length (splitInvertedChannels (globals w)) = 4 ->
  length (splitInvertedChannelsFullStack (globals w)) = 4 ->
  let L := length (heap (host w)) in
  let n := channelCount img in
  exists w1 w2,
    duplicateSplitInvert w = (Ok tt, w1) /\
    closeAllExceptOriginal w1 = (Ok tt, w2) /\
    length (heap (host w2)) = S L + n /\
    heap (host w2) !! o = Some img /\
    (forall i, L <= i < S L + min n 4 ->
       exists tmp, heap (host w2) !! i = Some tmp /\ released tmp) /\
    (forall k, 4 <= k < n ->
       exists ch, heap (host w2) !! (S L + k) = Some ch /\
         visible ch = false /\ closed ch = false) /\
    splitInvertedChannels (globals w2) = splitInvertedChannels (globals w1) /\
    (forall k, k < min n 4 ->
       splitInvertedChannels (globals w2) !! k = Some (Ref (S L + k))).
Proof.
  intros Hcur Himg Hvis Harr Hfull. cbv zeta.
  destruct (duplicateSplitInvert_spec w o img Hcur Himg Hvis Harr Hfull)
    as (w1 & j & E1 & Hl1 & Hlow1 & Hch1 & _ & _ & _ & (Hor & _) & _ & _ & Hsplit & _).
  cbv zeta in *. cbn in Hor.
  set (ts := useFramesCheckbox (ui w) && (1 <? nFrames img)) in *.
  set (dup := duplicateOf (extractorOptions (useFramesCheckbox (ui w)) img) None img) in *.
  assert (HoL : o < length (heap (host w))) by (eapply lookup_lt_Some, Himg).
  assert (Ho1 : heap (host w1) !! o = Some img).
  { rewrite Hlow1 by lia. now apply lookup_app_l_Some. }
  destruct (closeAllExceptOriginal_run w1 o img Hor Ho1)
    as (w2 & j2 & E2 & Hh2 & Hg2 & _).
  assert (Hshown : shownOf img = img) by (unfold shownOf; now rewrite Hvis).
  rewrite Hshown in Hh2.
  assert (Hn : length (channelsOf dup) = channelCount img).
  { rewrite length_channelsOf. reflexivity. }
  exists w1, w2. split; [exact E1|]. split; [exact E2|].
  rewrite Hh2, length_insert, length_map. split; [exact Hl1|].
  split; [apply list_lookup_insert_eq; rewrite length_map, Hl1; lia|].
  assert (Hother : forall i x, i <> o -> heap (host w1) !! i = Some x ->
            <[o := img]> (map (closeOther (title img)) (heap (host w1))) !! i
            = Some (closeOther (title img) x)).
  { intros i x Hne Hi. rewrite list_lookup_insert_ne by congruence.
    now rewrite list_lookup_fmap, Hi. }
  split; [|split; [|split]].
  - intros i Hi. destruct (decide (i = length (heap (host w)))) as [->|Hne].
    + exists (releaseOf dup). split; [|repeat split].
      rewrite (Hother _ dup) by (try lia; rewrite Hlow1 by lia; apply lookup_last).
      unfold closeOther. cbn [visible title dup duplicateOf default andb].
      assert (Hd : title img +:+ "-1" <> title img).
      { apply longer_title. rewrite length_append. cbn. lia. }
      apply String.eqb_neq in Hd. now rewrite Hd.
    + destruct (lookup_lt_is_Some_2 (channelsOf dup) (i - S (length (heap (host w))))
                  ltac:(lia)) as [ch Ech].
      specialize (Hch1 _ _ Ech).
      replace (S (length (heap (host w))) + (i - S (length (heap (host w))))) with i
        in Hch1 by lia.
      destruct (Nat.ltb_spec (i - S (length (heap (host w)))) 4); [|lia].
      assert (Hio : i <> o) by lia.
      eexists. split.
      { rewrite (Hother i _ Hio Hch1).
        unfold closeOther, extractedChannel, shownOf.
        match goal with |- context [visible (if ?b then ?x else ?y)] =>
          replace (visible (if b then x else y)) with true by (destruct b eqn:Eb; [now rewrite Eb|reflexivity])
        end.
        match goal with |- context [title (if ?b then ?x else ?y)] =>
          replace (title (if b then x else y)) with (title x) by (now destruct b)
        end.
        cbn [title set_title andb].
        match goal with |- context [String.eqb ?a ?b] =>
          assert (Hd : a <> b)
        end.
        { apply longer_title. destruct ts; cbn [title dup duplicateOf default];
            rewrite !length_append; cbn; lia. }
        apply String.eqb_neq in Hd. rewrite Hd. cbn [negb]. reflexivity. }
      repeat split.
  - intros k Hk.
    destruct (lookup_lt_is_Some_2 (channelsOf dup) k ltac:(lia)) as [ch Ech].
    specialize (Hch1 _ _ Ech). destruct (Nat.ltb_spec k 4); [lia|].
    destruct (channelsOf_fields _ _ _ Ech) as (_ & _ & _ & _ & _ & _ & _ & Ev & Ec).
    assert (Hio : S (length (heap (host w))) + k <> o) by lia.
    exists ch. rewrite (Hother _ _ Hio Hch1).
    unfold closeOther. rewrite Ev. auto.
  - now rewrite Hg2.
  - intros k Hk. rewrite Hg2, Hsplit by lia.
    destruct (Nat.ltb_spec k (channelCount img)); [reflexivity|lia].
Qed.

(** ** The merger when it succeeds *)

(** A loop whose body rewrites the image it is given, by a function that
    it does not matter to apply twice. *)
Lemma forEach_alter (body : ImageId -> M unit) (f : ImagePlus -> ImagePlus) :
  (forall s w img, heap (host w) !! s = Some img ->
     exists w', body s w = (Ok tt, w') /\
       heap (host w') = <[s := f img]> (heap (host w)) /\
       globals w' = globals w /\ messages (host w') = messages (host w)) ->
  (forall x, f (f x) = f x) ->
  forall l w, Forall (fun s => s < length (heap (host w))) l ->
    exists w', forEach l body w = (Ok tt, w') /\
      length (heap (host w')) = length (heap (host w)) /\
      (forall i, i ∉ l -> heap (host w') !! i = heap (host w) !! i) /\
      (forall i img, i ∈ l -> heap (host w) !! i = Some img ->
         heap (host w') !! i = Some (f img)) /\
      globals w' = globals w /\ messages (host w') = messages (host w).
Proof.
  intros Hbody Hidem l. induction l as [|s l IH]; intros w Hl; cbn [forEach].
  - exists w. repeat split; auto. intros i img Hi. inversion Hi.
  - apply Forall_cons in Hl as [Hs Hl].
    destruct (lookup_lt_is_Some_2 _ _ Hs) as [img0 E0].
    destruct (Hbody s w img0 E0) as (w1 & E1 & Hh1 & Hg1 & Hm1).
    rewrite (bind_ok _ _ _ _ _ E1).
    destruct (IH w1) as (w' & E & Hlen & Hout & Hin & Hg & Hm).
    { rewrite Hh1, length_insert. exact Hl. }
    exists w'. split; [exact E|]. rewrite Hlen, Hh1, length_insert.
    split; [reflexivity|]. split; [|split; [|split; congruence]].
    + intros i Hi. apply not_elem_of_cons in Hi as [Hne Hi].
      rewrite Hout, Hh1 by exact Hi. now apply list_lookup_insert_ne.
    + intros i img Hi Ei. destruct (decide (i ∈ l)) as [Hil|Hil].
      * destruct (decide (i = s)) as [->|Hne].
        -- rewrite (Hin s (f img0) Hil).
           ++ rewrite E0 in Ei. injection Ei as <-. now rewrite Hidem.
           ++ rewrite Hh1. now apply list_lookup_insert_eq.
        -- apply Hin; [exact Hil|]. rewrite Hh1.
           now rewrite list_lookup_insert_ne by congruence.
      * apply elem_of_cons in Hi as [->|Hi]; [|contradiction].
        rewrite Hout, Hh1 by exact Hil. rewrite E0 in Ei. injection Ei as <-.
        now apply list_lookup_insert_eq.
Qed.

Lemma releaseOf_idem img : releaseOf (releaseOf img) = releaseOf img.
Proof. reflexivity. Qed.

(** Releasing the images of a list. *)
Lemma release_list l w :
  Forall (fun s => s < length (heap (host w))) l ->
  exists w', forEach l (fun s => imp_setChanges s false ;; imp_close s) w = (Ok tt, w') /\
    length (heap (host w')) = length (heap (host w)) /\
    (forall i, i ∉ l -> heap (host w') !! i = heap (host w) !! i) /\
    (forall i img, i ∈ l -> heap (host w) !! i = Some img ->
       heap (host w') !! i = Some (releaseOf img)) /\
    globals w' = globals w /\ messages (host w') = messages (host w).
Proof.
  apply (forEach_alter _ releaseOf); [|apply releaseOf_idem].
  intros s w0 img E. destruct (release_run s w0 img E) as (w' & E' & Hh & Hg & Hm & _).
  eauto 10.
Qed.

(** The image after the merger's [if (bitDepth != 16) IJ.run("16-bit")]. *)
Lemma to16_run s w img :
  heap (host w) !! s = Some img ->
  exists w',
    (img <- getImp s ;;
     if negb (bitDepth img =? 16)%Z then IJ_run_convert 16 s else ret tt) w = (Ok tt, w') /\
    heap (host w')
    = <[s := if negb (bitDepth img =? 16)%Z then convertOf 16 img else img]> (heap (host w)) /\
    globals w' = globals w /\ messages (host w') = messages (host w).
Proof.
  intros E. rewrite (bind_getImp _ _ _ _ E).
  destruct (negb (bitDepth img =? 16)%Z).
  - unfold IJ_run_convert. rewrite (updImp_ok _ _ _ _ E).
    eexists. split; [reflexivity|]. wsimpl.
    rewrite (alter_as_insert _ _ _ _ E). repeat split.
  - exists w. rewrite list_insert_id by exact E. repeat split.
Qed.

Lemma convertSplitsTo16_run split w :
  Forall (fun s => s < length (heap (host w))) split ->
  exists w', convertSplitsTo16 split w = (Ok tt, w') /\
    length (heap (host w')) = length (heap (host w)) /\
    (forall i, i ∉ split -> heap (host w') !! i = heap (host w) !! i) /\
    (forall i img, i ∈ split -> heap (host w) !! i = Some img ->
       heap (host w') !! i
       = Some (if negb (bitDepth img =? 16)%Z then convertOf 16 img else img)) /\
    globals w' = globals w /\ messages (host w') = messages (host w).
Proof.
  unfold convertSplitsTo16.
  apply (forEach_alter _
    (fun img => if negb (bitDepth img =? 16)%Z then convertOf 16 img else img)).
  - intros s w0 img E. apply to16_run, E.
  - intros x. destruct (negb (bitDepth x =? 16)%Z) eqn:E; [|now rewrite E].
    reflexivity.
Qed.

Lemma setChanges_list l w :
  Forall (fun s => s < length (heap (host w))) l ->
  exists w', forEach l (fun s => imp_setChanges s false) w = (Ok tt, w') /\
    length (heap (host w')) = length (heap (host w)) /\
    (forall i, i ∉ l -> heap (host w') !! i = heap (host w) !! i) /\
    (forall i img, i ∈ l -> heap (host w) !! i = Some img ->
       heap (host w') !! i = Some (set_changes false img)) /\
    globals w' = globals w /\ messages (host w') = messages (host w).
Proof.
  apply (forEach_alter _ (set_changes false)); [|reflexivity].
  intros s w0 img E. unfold imp_setChanges. rewrite (updImp_ok _ _ _ _ E).
  eexists. split; [reflexivity|]. wsimpl. rewrite (alter_as_insert _ _ _ _ E).
  repeat split.
Qed.

Lemma close_list l w :
  Forall (fun s => s < length (heap (host w))) l ->
  exists w', forEach l (fun s => imp_close s) w = (Ok tt, w') /\
    length (heap (host w')) = length (heap (host w)) /\
    (forall i, i ∉ l -> heap (host w') !! i = heap (host w) !! i) /\
    (forall i img, i ∈ l -> heap (host w) !! i = Some img ->
       heap (host w') !! i = Some (set_closed true (set_visible false img))) /\
    globals w' = globals w /\ messages (host w') = messages (host w).
Proof.
  apply (forEach_alter _ (fun img => set_closed true (set_visible false img)));
    [|reflexivity].
  intros s w0 img E. unfold imp_close, dropCurrent.
  erewrite bind_updImp by exact E. unfold modify.
  eexists. split; [reflexivity|]. wsimpl. rewrite (alter_as_insert _ _ _ _ E).
  destruct (decide _); repeat split.
Qed.

Lemma live_Forall2 (h : list ImagePlus) l :
  Forall (fun s => s < length h) l ->
  exists imgs, Forall2 (fun i img => h !! i = Some img) l imgs.
Proof.
  induction 1 as [|s l Hs _ (imgs & IH)].
  - exists []. constructor.
  - destruct (lookup_lt_is_Some_2 _ _ Hs) as [img E].
    exists (img :: imgs). now constructor.
Qed.

(** Merging live images: the composite is appended, the sources are
    released. *)
Lemma mergeChannels_run images w :
  Forall (fun s => s < length (heap (host w))) images -> images <> [] ->
  exists w' first imgs,
    RGBStackMerge_mergeChannels images false w = (Ok (length (heap (host w))), w') /\
    Forall2 (fun i img => heap (host w) !! i = Some img) images imgs /\
    head imgs = Some first /\
    length (heap (host w')) = S (length (heap (host w))) /\
    heap (host w') !! length (heap (host w)) = Some (mergedOf first imgs) /\
    (forall i, i < length (heap (host w)) -> i ∉ images ->
       heap (host w') !! i = heap (host w) !! i) /\
    (forall i img, i ∈ images -> heap (host w) !! i = Some img ->
       heap (host w') !! i = Some (releaseOf img)) /\
    globals w' = globals w /\ messages (host w') = messages (host w).
Proof.
  intros Hlive Hne.
  destruct (live_Forall2 _ _ Hlive) as (imgs & Himgs).
  unfold RGBStackMerge_mergeChannels.
  rewrite (bind_ok _ _ _ _ _ (mapM_getImp _ _ _ Himgs)).
  destruct imgs as [|first imgs'].
  { apply Forall2_length in Himgs. destruct images; [congruence|discriminate]. }
  rewrite bind_newImp.
  destruct (release_list images (with_heap (fun h => h ++ [mergedOf first (first :: imgs')]) w))
    as (w' & E & Hl & Hout & Hin & Hg & Hm).
  { wsimpl. rewrite length_app. eapply Forall_impl; [exact Hlive|]. cbn. intros; lia. }
  rewrite (bind_ok _ _ _ _ _ E).
  exists w', first, (first :: imgs'). split; [reflexivity|]. split; [exact Himgs|].
  split; [reflexivity|]. wsimpl. rewrite length_app in Hl. cbn [length] in Hl.
  assert (Hm_out : length (heap (host w)) ∉ images).
  { intros Hin'. rewrite Forall_forall in Hlive. specialize (Hlive _ Hin'). lia. }
  split; [lia|]. split; [rewrite Hout by exact Hm_out; apply lookup_last|].
  split; [intros i Hi Hni; rewrite Hout by exact Hni; now apply lookup_app_l|].
  split; [|split; assumption].
  intros i img Hi Ei. apply Hin; [exact Hi|]. now apply lookup_app_l_Some.
Qed.

Lemma mapM_getTitle images imgs w :
  Forall2 (fun i img => heap (host w) !! i = Some img) images imgs ->
  mapM imp_getTitle images w = (Ok (map title imgs), w).
Proof.
  induction 1 as [|i img images imgs Hi _ IH]; cbn [mapM map]; [reflexivity|].
  unfold imp_getTitle at 1. rewrite bind_assoc, (bind_getImp _ _ _ _ Hi), bind_ret.
  rewrite (bind_ok _ _ _ _ _ IH). reflexivity.
Qed.

Lemma Forall2_elem {A B} (P Q : A -> B -> Prop) l k :
  Forall2 P l k -> (forall x y, x ∈ l -> P x y -> Q x y) -> Forall2 Q l k.
Proof.
  induction 1 as [|x y l k Hxy _ IH]; intros HPQ; constructor.
  - apply HPQ; [left|exact Hxy].
  - apply IH. intros a b Ha. apply HPQ. now right.
Qed.

Lemma selectChannels_nonempty cb split :
  1 <= countChecked cb (length split) -> selectChannels 0 cb split <> [].
Proof.
  intros Hc E. apply (f_equal length) in E.
  rewrite length_selectChannels, Nat.sub_0_r in E. cbn in E. lia.
Qed.

(** The clean-up that ends the merger, as the time-series branch and as
    the single-frame branch do it. *)
Lemma release_temporaries L n (v : jsval) w :
  L + S n <= length (heap (host w)) ->
  exists w',
    (imp_setChanges L false ;;
     imp_close L ;;
     forEach (seq (S L) n) (fun s => imp_setChanges s false ;; imp_close s) ;;
     ret v) w = (Ok v, w') /\
    length (heap (host w')) = length (heap (host w)) /\
    (forall i, ~ (L <= i < S L + n) -> heap (host w') !! i = heap (host w) !! i) /\
    (forall i, L <= i < S L + n ->
       exists tmp, heap (host w') !! i = Some tmp /\ released tmp) /\
    globals w' = globals w /\ messages (host w') = messages (host w).
Proof.
  intros Hlen.
  destruct (release_list (seq L (S n)) w) as (w' & E & Hl & Hout & Hin & Hg & Hm).
  { rewrite Forall_forall. intros s Hs. apply elem_of_seq in Hs. lia. }
  cbn [seq forEach] in E. rewrite bind_assoc in E.
  exists w'. split.
  { rewrite <- !bind_assoc. rewrite <- !bind_assoc in E.
    now rewrite (bind_ok _ _ _ _ _ E). }
  split; [exact Hl|]. split; [|split; [|split; assumption]].
  - intros i Hi. apply Hout. rewrite elem_of_seq. lia.
  - intros i Hi.
    destruct (lookup_lt_is_Some_2 (heap (host w)) i ltac:(lia)) as [x Ex].
    exists (releaseOf x). split; [|repeat split].
    apply Hin; [rewrite elem_of_seq; lia|exact Ex].
Qed.

Lemma release_temporaries_single L n (v : jsval) w :
  L + S n <= length (heap (host w)) ->
  exists w',
    (imp_setChanges L false ;;
     forEach (seq (S L) n) (fun s => imp_setChanges s false) ;;
     imp_close L ;;
     forEach (seq (S L) n) (fun s => imp_close s) ;;
     ret v) w = (Ok v, w') /\
    length (heap (host w')) = length (heap (host w)) /\
    (forall i, ~ (L <= i < S L + n) -> heap (host w') !! i = heap (host w) !! i) /\
    (forall i, L <= i < S L + n ->
       exists tmp, heap (host w') !! i = Some tmp /\ released tmp) /\
    globals w' = globals w /\ messages (host w') = messages (host w).
Proof.
  intros Hlen.
  destruct (setChanges_list (seq L (S n)) w) as (w1 & E1 & Hl1 & Hout1 & Hin1 & Hg1 & Hm1).
  { rewrite Forall_forall. intros s Hs. apply elem_of_seq in Hs. lia. }
  destruct (close_list (seq L (S n)) w1) as (w' & E & Hl & Hout & Hin & Hg & Hm).
  { rewrite Forall_forall. intros s Hs. apply elem_of_seq in Hs. lia. }
  cbn [seq forEach] in E1, E.
  exists w'. split.
  { rewrite <- bind_assoc, (bind_ok _ _ _ _ _ E1).
    rewrite <- bind_assoc, (bind_ok _ _ _ _ _ E). reflexivity. }
  split; [congruence|]. split; [|split; [|split; congruence]].
  - intros i Hi. rewrite Hout, Hout1; [reflexivity|rewrite elem_of_seq; lia..].
  - intros i Hi.
    destruct (lookup_lt_is_Some_2 (heap (host w)) i ltac:(lia)) as [x Ex].
    eexists. split.
    { apply Hin; [rewrite elem_of_seq; lia|].
      apply Hin1; [rewrite elem_of_seq; lia|exact Ex]. }
    repeat split.
Qed.

Lemma setSliceOf_visible n img : visible (setSliceOf n img) = visible img.
Proof. unfold setSliceOf. now destruct (_ && _). Qed.

(** The first of the selected splits, after the conversion to 16 bits. *)
Lemma first_selected_fields (h : list ImagePlus) dup cb (heap2 : list ImagePlus)
    imgs first :
  (forall i img, i ∈ seq (S (length h)) (length (channelsOf dup)) ->
     ((h ++ [dup]) ++ channelsOf dup) !! i = Some img ->
     heap2 !! i
     = Some (if negb (bitDepth img =? 16)%Z then convertOf 16 img else img)) ->
  Forall2 (fun i img => heap2 !! i = Some img)
    (selectChannels 0 cb (seq (S (length h)) (length (channelsOf dup)))) imgs ->
  head imgs = Some first ->
  width first = width dup /\ height first = height dup /\
  nSlices first = nSlices dup /\ nFrames first = nFrames dup.
Proof.
  intros Hin2 Himgs Hfirst.
  destruct imgs as [|x imgs']; [discriminate|]. injection Hfirst as ->.
  destruct (selectChannels 0 cb _) as [|s0 rest] eqn:EtoMerge; [inversion Himgs|].
  apply Forall2_cons_1 in Himgs as [Hs0 _].
  assert (Hs0' : s0 ∈ seq (S (length h)) (length (channelsOf dup))).
  { eapply selectChannels_elem. rewrite EtoMerge. left. }
  pose proof Hs0' as Hrange. apply elem_of_seq in Hrange.
  destruct (lookup_lt_is_Some_2 (channelsOf dup) (s0 - S (length h)) ltac:(lia))
    as [ch Ech].
  destruct (channelsOf_fields _ _ _ Ech) as (Ew & Eh & _ & Ez & Et & _).
  rewrite (Hin2 s0 ch Hs0') in Hs0.
  - injection Hs0 as <-.
    destruct (negb (bitDepth ch =? 16)%Z); cbn; rewrite ?Ew, ?Eh, ?Ez, ?Et;
      repeat split.
  - rewrite lookup_app_r by (rewrite length_app; cbn [length]; lia).
    rewrite length_app. cbn [length].
    now replace (s0 - (length h + 1)) with (s0 - S (length h)) by lia.
Qed.

(** The merger with an original image and a selected channel. *)
Lemma createMergeOnly_success showImage w o orig :
  originalImage (globals w) = Ref o -> heap (host w) !! o = Some orig ->
  1 <= countChecked (mergeCheckboxes (ui w)) (channelCount orig) ->
  let L := length (heap (host w)) in
  let n := channelCount orig in
  let timeSeries := useFramesCheckbox (ui w) && (1 <? nFrames orig) in
  let dup := duplicateOf (extractorOptions (useFramesCheckbox (ui w)) orig)
               (Some ("C" +:+ "TempForMerge_" +:+ pretty (mergeCount (globals w)))) orig in
  exists w' merged,
    createMergeOnly showImage w = (Ok (Ref (S L + n)), w') /\
    length (heap (host w')) = S (S L + n) /\
    (forall i x, heap (host w) !! i = Some x -> heap (host w') !! i = Some x) /\
    (forall i, L <= i < S L + n ->
       exists tmp, heap (host w') !! i = Some tmp /\ released tmp) /\
    heap (host w') !! (S L + n) = Some merged /\
    bitDepth merged = 24%Z /\ nChannels merged = 1 /\
    visible merged = showImage /\ closed merged = false /\
    width merged = width orig /\ height merged = height orig /\
    nSlices merged = nSlices dup /\ nFrames merged = nFrames dup /\
    (timeSeries = true ->
       title merged = "Merged_TimeStack_" +:+ "C" +:+ "TempForMerge_"
                      +:+ pretty (mergeCount (globals w))) /\
    globals w' = set_mergeCount (increment (mergeCount (globals w))) (globals w) /\
    messages (host w') = messages (host w).
Proof.
  intros Ho Horig Hsel. cbv zeta.
  unfold createMergeOnly.
  match goal with |- exists w' merged, catch ?c ?h w = (Ok ?v, _) /\ @?P w' merged =>
    enough (exists w' merged, c w = (Ok v, w') /\ P w' merged)
      as (w' & merged & E & HP);
    [exists w', merged; split; [apply catch_Ok, E|exact HP]|]
  end.
  cbv beta.
  rewrite bind_gets, Ho. cbn [truthy negb deref].
  rewrite bind_ret, !bind_gets, (bind_getImp _ _ _ _ Horig). cbv zeta.
  rewrite bind_gets, bind_modify.
  set (uniqueTitle := "C" +:+ "TempForMerge_" +:+ pretty (mergeCount (globals w))).
  set (opt := extractorOptions (useFramesCheckbox (ui w)) orig).
  match goal with |- context [bind (if ?b then ?x else ?y)] =>
    replace (if b then x else y) with (IJ_run_Duplicate o opt (Some uniqueTitle))
      by (subst opt; unfold extractorOptions; destruct b;
          [destruct (1 <? nSlices orig)|]; reflexivity)
  end.
  destruct w as [[h c msgs] g u]. wsimpl.
  rewrite (bind_Duplicate _ _ _ orig) by exact Horig. wsimpl.
  set (dup := duplicateOf opt (Some uniqueTitle) orig).
  unfold IJ_getImage. rewrite bind_assoc, bind_gets. wsimpl. rewrite bind_ret.
  erewrite bind_getImp by (wsimpl; apply lookup_last).
  assert (Hmode : useFramesCheckbox u && (1 <? nFrames dup)
                  = useFramesCheckbox u && (1 <? nFrames orig)).
  { subst dup opt. unfold extractorOptions. cbn [nFrames duplicateOf].
    destruct (useFramesCheckbox u); [|reflexivity]. cbn [andb].
    destruct (1 <? nFrames orig) eqn:E; [|reflexivity].
    destruct (1 <? nSlices orig); cbn [duplicateFrames]; exact E. }
  rewrite Hmode.
  assert (Hn : length (channelsOf dup) = channelCount orig).
  { rewrite length_channelsOf. reflexivity. }
  assert (HoL : o < length h) by (eapply lookup_lt_Some; eassumption).
  set (toMerge := selectChannels 0 (mergeCheckboxes u)
                    (seq (S (length h)) (channelCount orig))).
  assert (HtoMerge : forall s, s ∈ toMerge ->
            S (length h) <= s < S (length h) + channelCount orig).
  { intros s Hs. apply selectChannels_elem, elem_of_seq in Hs. lia. }
  assert (Hnonempty : toMerge <> []).
  { apply selectChannels_nonempty. now rewrite length_seq. }
  assert (Hn1 : 1 <= channelCount orig).
  { destruct (channelCount orig); [|lia]. destruct (mergeCheckboxes u); cbn in Hsel; lia. }
  assert (Hlen0 : length toMerge <> 0).
  { destruct toMerge; [congruence|discriminate]. }
  unfold ChannelSplitter_split.
  destruct (useFramesCheckbox u && (1 <? nFrames orig)) eqn:Ets.
  all: rewrite bind_assoc; erewrite bind_getImp by (wsimpl; apply lookup_last).
  all: rewrite bind_newImps; wsimpl; rewrite Hn, length_app; cbn [length];
    rewrite Nat.add_1_r; fold toMerge.
  2: rewrite length_seq; destruct (Nat.ltb_spec (channelCount orig) 1); [lia|].
  all: match goal with |- context [bind (convertSplitsTo16 ?l) _ ?wA] =>
         destruct (convertSplitsTo16_run l wA) as (w2 & E2 & Hl2 & Hout2 & Hin2 & Hg2 & Hm2);
         [ wsimpl; rewrite Forall_forall; intros s Hs;
           apply elem_of_seq in Hs; rewrite !length_app, Hn; cbn [length]; lia
         | rewrite (bind_ok _ _ _ _ _ E2) ]
       end.
  all: wsimpl; rewrite !length_app, Hn in Hl2; cbn [length] in Hl2.
  1: destruct (Nat.ltb_spec 0 (length toMerge)); [|lia].
  2: destruct (Nat.eqb_spec (length toMerge) 0); [lia|].
  all: destruct (mergeChannels_run toMerge w2)
         as (w3 & first & imgs & E3 & Himgs & Hfirst & Hl3 & Hm3 & Hout3 & Hin3 & Hg3 & Hmsg3);
       [ rewrite Forall_forall; intros s Hs; apply HtoMerge in Hs; lia
       | exact Hnonempty
       | rewrite (bind_ok _ _ _ _ _ E3) ].
  all: rewrite Hl2 in *.
  all: replace (length h + 1 + channelCount orig) with (S (length h) + channelCount orig)
         in * by lia.
  all: set (M := S (length h) + channelCount orig) in *.
  all: assert (Hkeep2 : forall i, i <= length h ->
         heap (host w2) !! i = (h ++ [dup]) !! i)
       by (intros i Hi; rewrite Hout2 by (rewrite elem_of_seq; lia);
           apply lookup_app_l; rewrite length_app; cbn [length]; lia).
  all: assert (Hkeep3 : forall i, i <= length h ->
         heap (host w3) !! i = (h ++ [dup]) !! i)
       by (intros i Hi; rewrite Hout3;
           [now apply Hkeep2 | unfold M; lia | intros Hin; apply HtoMerge in Hin; lia]).
  all: assert (Ho3 : heap (host w3) !! o = Some orig)
       by (rewrite Hkeep3 by lia; now apply lookup_app_l_Some).
  all: assert (HL3 : heap (host w3) !! length h = Some dup)
       by (rewrite Hkeep3 by lia; apply lookup_last).
  all: assert (Hfirst3 : width first = width dup /\ height first = height dup /\
         nSlices first = nSlices dup /\ nFrames first = nFrames dup)
       by (apply (first_selected_fields h dup (mergeCheckboxes u) (heap (host w2)) imgs);
           [ rewrite Hn; exact Hin2 | rewrite Hn; exact Himgs | exact Hfirst ]).
  - unfold IJ_run_RGBColor, imp_setTitle, imp_getCalibration, copySpatial, copyTemporal,
      updCalibration, imp_setSlice, imp_show, imp_hide, dropCurrent.
    assert (HoM : o <> M) by (unfold M; lia).
    run.
    all: try match goal with |- context [decide ?P] => destruct (decide P) end; wsimpl.
    all: match goal with |- exists w' merged, ?c ?w4 = _ /\ _ =>
           destruct (release_temporaries (length h) (channelCount orig) (Ref M) w4)
             as (w' & E & Hl & Hout & Hrel & Hg & Hmsg);
           [ wsimpl; rewrite !length_alter; lia | ]
         end.
    all: exists w'; eexists; split; [exact E|].
    all: wsimpl; rewrite !length_alter in Hl.
    all: split; [lia|].
    all: split;
      [ intros i x Hi; assert (i < length h) by (eapply lookup_lt_Some, Hi);
        rewrite Hout by lia; rewrite !list_lookup_alter_ne by (unfold M; lia);
        rewrite Hkeep3 by lia; now apply lookup_app_l_Some | ].
    all: split; [exact Hrel|].
    all: split;
      [ rewrite Hout by (unfold M; lia); rewrite !list_lookup_alter_eq, Hm3; reflexivity | ].
    all: destruct Hfirst3 as (Fw & Fh & Fz & Ft).
    all: rewrite Hg, Hg3, Hg2, Hmsg, Hmsg3, Hm2.
    all: try (rewrite setSliceOf_visible in Heqb0; unfold rgbColorOf in Heqb0;
              cbv beta in Heqb0; wsimpl; discriminate).
    all: cbv beta; unfold setSliceOf, rgbColorOf in *.
    all: repeat match goal with
         | |- context [if ?b then _ else _] => destruct b
         end; wsimpl; rewrite ?Fw, ?Fh, ?Fz, ?Ft.
    all: try discriminate.
    all: repeat split; try reflexivity.
  - unfold IJ_run_RGBColor. erewrite bind_updImp by exact Hm3.
    assert (HoM : o <> M) by (unfold M; lia).
    match goal with |- context [bind (mapM imp_getTitle toMerge) _ ?w4] =>
      assert (Himgs4 : Forall2 (fun i img => heap (host w4) !! i = Some img)
                         toMerge (map releaseOf imgs))
    end.
    { apply Forall2_fmap_r. eapply Forall2_elem; [exact Himgs|].
      intros s img Hs Es. wsimpl.
      rewrite list_lookup_alter_ne by (apply HtoMerge in Hs; lia). now apply Hin3. }
    rewrite (bind_ok _ _ _ _ _ (mapM_getTitle _ _ _ Himgs4)). clear Himgs4.
    unfold imp_setTitle, imp_getCalibration, copySpatial, updCalibration, imp_show,
      imp_hide, dropCurrent.
    run.
    all: try match goal with |- context [decide ?P] => destruct (decide P) end; wsimpl.
    all: match goal with |- exists w' merged, ?c ?w4 = _ /\ _ =>
           destruct (release_temporaries_single (length h) (channelCount orig) (Ref M) w4)
             as (w' & E & Hl & Hout & Hrel & Hg & Hmsg);
           [ wsimpl; rewrite !length_alter; lia | ]
         end.
    all: exists w'; eexists; split; [exact E|].
    all: wsimpl; rewrite !length_alter in Hl.
    all: split; [lia|].
    all: split;
      [ intros i x Hi; assert (i < length h) by (eapply lookup_lt_Some, Hi);
        rewrite Hout by lia; rewrite !list_lookup_alter_ne by (unfold M; lia);
        rewrite Hkeep3 by lia; now apply lookup_app_l_Some | ].
    all: split; [exact Hrel|].
    all: split;
      [ rewrite Hout by (unfold M; lia); rewrite !list_lookup_alter_eq, Hm3; reflexivity | ].
    all: destruct Hfirst3 as (Fw & Fh & Fz & Ft).
    all: rewrite Hg, Hg3, Hg2, Hmsg, Hmsg3, Hm2.
    all: try (unfold rgbColorOf in Heqb0; cbv beta in Heqb0; wsimpl; discriminate).
    all: cbv beta; unfold rgbColorOf in *; wsimpl; rewrite ?Fw, ?Fh, ?Fz, ?Ft.
    all: repeat split; try reflexivity; discriminate.
Qed.

(** The counter below the largest integer it can reach, and at it. *)
Lemma increment_below n : (Z.of_nat n < 2 ^ 53)%Z -> increment n = n + 1.
Proof. intros Hn. unfold increment. apply Z.ltb_lt in Hn. now rewrite Hn. Qed.

Lemma increment_limit n : Z.of_nat n = (2 ^ 53)%Z -> increment n = n.
Proof. intros Hn. unfold increment. rewrite Hn. reflexivity. Qed.

(** X8: with an original image and at least one checkbox that selects an
    available channel, the merger returns a new composite image: 24-bit
    packed colour with one channel, with the extent of the original and
    the slice and frame counts of the duplicate, with a window exactly
    when [showImage] is set, and in time-series mode titled after the
    merge counter.  When it returns, the duplicate and every split have
    been released, in time-series mode as well as in single-frame mode;
    every image that existed before is as it was; the merge counter has
    been incremented as a JavaScript number is, which is one more where it
    was below 2^53 and the same value where it was 2^53; no other global
    has changed and no message has been shown. *)
Theorem merger_success_releases_temporaries showImage w o orig :
  originalImage (globals w) = Ref o -> heap (host w) !! o = Some orig ->
  1 <= countChecked (mergeCheckboxes (ui w)) (channelCount orig) ->
  let L := length (heap (host w)) in
  let n := channelCount orig in
  let timeSeries := useFramesCheckbox (ui w) && (1 <? nFrames orig) in
  let dup := duplicateOf (extractorOptions (useFramesCheckbox (ui w)) orig)
               (Some ("C" +:+ "TempForMerge_" +:+ pretty (mergeCount (globals w)))) orig in
  exists w' merged,
    createMergeOnly showImage w = (Ok (Ref (S L + n)), w') /\
    length (heap (host w')) = S (S L + n) /\
    (forall i x, heap (host w) !! i = Some x -> heap (host w') !! i = Some x) /\
    (forall i, L <= i < S L + n ->
       exists tmp, heap (host w') !! i = Some tmp /\ released tmp) /\
    heap (host w') !! (S L + n) = Some merged /\
    bitDepth merged = 24%Z /\ nChannels merged = 1 /\
    visible merged = showImage /\ closed merged = false /\
    width merged = width orig /\ height merged = height orig /\
    nSlices merged = nSlices dup /\ nFrames merged = nFrames dup /\
    (timeSeries = true ->
       title merged = "Merged_TimeStack_" +:+ "C" +:+ "TempForMerge_"
                      +:+ pretty (mergeCount (globals w))) /\
    globals w' = set_mergeCount (increment (mergeCount (globals w))) (globals w) /\
    ((Z.of_nat (mergeCount (globals w)) < 2 ^ 53)%Z ->
       mergeCount (globals w') = mergeCount (globals w) + 1) /\
    (Z.of_nat (mergeCount (globals w)) = (2 ^ 53)%Z ->
       mergeCount (globals w') = mergeCount (globals w)) /\
    messages (host w') = messages (host w).
Proof.
  intros Ho Horig Hsel.
  pose proof (createMergeOnly_success showImage w o orig Ho Horig Hsel) as Hrun.
  cbv zeta in *.
  destruct Hrun as (w' & merged & E & Hlen & Hkeep & Hrel & Hm & Hd & Hc & Hv & Hcl
                    & Hwd & Hht & Hz & Ht & Htitle & Hg & Hmsg).
  exists w', merged. rewrite Hg. cbn [mergeCount set_mergeCount].
  repeat (split; [assumption|]).
  split; [reflexivity|].
  split; [apply increment_below|]. split; [apply increment_limit|exact Hmsg].
Qed.

(** ** Version 1.0 and version 2.0 *)

Lemma bind_ext {A B} (c : M A) (k1 k2 : A -> M B) w :
  (forall a w1, k1 a w1 = k2 a w1) -> bind c k1 w = bind c k2 w.
Proof.
  intros E. unfold bind. destruct (c w) as [[a|e] w1]; [apply E|reflexivity].
Qed.

(** The montage assembler on images of at most one frame. *)
Lemma stackImagesHorizontally_as_v1 images w :
  (forall i img, i ∈ images -> heap (host w) !! i = Some img -> nFrames img <= 1) ->
  stackImagesHorizontally images w = Mittens1.stackImagesHorizontally images w.
Proof.
  intros Hone. unfold stackImagesHorizontally, Mittens1.stackImagesHorizontally.
  destruct (length images <? 2); [reflexivity|].
  destruct (mapM getImp images w) as [[imgs|e] w1] eqn:E.
  2: { now rewrite !(bind_thrown _ _ _ _ _ E). }
  rewrite !(bind_ok _ _ _ _ _ E).
  apply mapM_getImp_inv in E as [-> Himgs].
  rewrite frameScan_single.
  2: { clear - Hone Himgs. induction Himgs as [|i img images imgs Hi _ IH]; constructor.
       - eapply Hone; [left|exact Hi].
       - apply IH. intros j x Hj. apply Hone. now right. }
  destruct (Math_max (map height imgs)); [|reflexivity].
  destruct imgs as [|first imgs']; [reflexivity|].
  rewrite bind_assoc.
  apply bind_ext. intros stack0 w1. rewrite !bind_assoc.
  apply bind_ext. intros ip w2. rewrite !bind_assoc.
  apply bind_ext. intros _ w3. rewrite bind_ret.
  destruct images as [|i0 images']; [reflexivity|].
  apply bind_ext. intros cal w4.
  apply bind_ext. intros _ w5. now rewrite bind_ret.
Qed.

(** The merger outside time-series mode. *)
Lemma createMergeOnly_as_v1 showImage w :
  (useFramesCheckbox (ui w) = false \/
   forall o orig, originalImage (globals w) = Ref o ->
     heap (host w) !! o = Some orig -> nFrames orig <= 1) ->
  createMergeOnly showImage w = Mittens1.createMergeOnly showImage w.
Proof.
  intros Hsingle. unfold createMergeOnly, Mittens1.createMergeOnly, catch.
  match goal with |- match ?c2 w with _ => _ end = match ?c1 w with _ => _ end =>
    replace (c2 w) with (c1 w); [reflexivity|]
  end.
  rewrite !bind_gets.
  destruct (originalImage (globals w)) as [| |o] eqn:Eo; cbn [truthy negb deref];
    [reflexivity..|].
  rewrite !bind_ret, !bind_gets.
  destruct (heap (host w) !! o) as [orig|] eqn:Eorig.
  2: { now rewrite !(bind_getImp_None _ _ _ Eorig). }
  rewrite !(bind_getImp _ _ _ _ Eorig). cbv zeta.
  rewrite !bind_gets, !bind_modify.
  assert (Hmode : useFramesCheckbox (ui w) && (1 <? nFrames orig) = false).
  { destruct Hsingle as [->|Hone]; [reflexivity|].
    specialize (Hone o orig eq_refl Eorig).
    destruct (Nat.ltb_spec 1 (nFrames orig)); [lia|]. apply andb_false_r. }
  wsimpl. rewrite Hmode.
  erewrite !bind_Duplicate by (wsimpl; exact Eorig).
  unfold IJ_getImage. rewrite !bind_assoc, !bind_gets. wsimpl. rewrite !bind_ret.
  erewrite bind_getImp by (wsimpl; apply lookup_last).
  cbn [duplicateOf nFrames duplicateFrames Nat.ltb Nat.leb].
  now rewrite andb_false_r.
Qed.

Lemma bind_ext_ok {A B} (c : M A) (k1 k2 : A -> M B) w :
  (forall a w1, c w = (Ok a, w1) -> k1 a w1 = k2 a w1) ->
  bind c k1 w = bind c k2 w.
Proof.
  intros E. unfold bind. destruct (c w) as [[a|e] w1]; [now apply E|reflexivity].
Qed.

Lemma getChannel1_unresolved chStr w :
  resolveChannel chStr (splitInvertedChannels (globals w)) = None ->
  Mittens1.getChannelImage16OnTheFly chStr w = (Ok Null, w).
Proof.
  unfold resolveChannel, Mittens1.getChannelImage16OnTheFly.
  destruct (startsWith "Ch" chStr); [|reflexivity]. cbn [negb].
  unfold bind at 1, gets at 1.
  destruct (parseInt10 _) as [n|]; [|reflexivity].
  destruct (Z.leb_spec 1 n),
    (Z.leb_spec n (Z.of_nat (length (splitInvertedChannels (globals w)))));
    cbn [andb].
  - destruct (Z.ltb_spec (n - 1) 0); [lia|].
    destruct (Z.leb_spec (Z.of_nat (length (splitInvertedChannels (globals w)))) (n - 1)); [lia|].
    cbn [orb]. destruct (arrayGet _ _); try reflexivity. discriminate.
  - intros _. destruct (Z.ltb_spec (n - 1) 0); [reflexivity|].
    destruct (Z.leb_spec (Z.of_nat (length (splitInvertedChannels (globals w))))
                (n - 1)); [reflexivity|lia].
  - intros _. destruct (Z.ltb_spec (n - 1) 0); [reflexivity|lia].
  - intros _. destruct (Z.ltb_spec (n - 1) 0); [reflexivity|lia].
Qed.

(** The provider on an entry of at most one frame. *)
Lemma getChannel_as_v1 chStr w :
  (forall vis v,
     resolveChannel chStr (splitInvertedChannels (globals w)) = Some vis ->
     heap (host w) !! vis = Some v -> nFrames v <= 1) ->
  getChannelImage16OnTheFly chStr w = Mittens1.getChannelImage16OnTheFly chStr w.
Proof.
  intros Hone.
  destruct (resolveChannel chStr (splitInvertedChannels (globals w))) as [vis|] eqn:Hres.
  2: { now rewrite getChannel_unresolved, getChannel1_unresolved. }
  apply resolveChannel_Some in Hres as (Hpre & n & Hn & Hrange & Hget).
  unfold getChannelImage16OnTheFly, Mittens1.getChannelImage16OnTheFly.
  rewrite Hpre. cbn [negb].
  rewrite !bind_gets, Hn. cbv zeta. rewrite Hrange, Hget. cbn [isNullish truthy negb deref].
  rewrite !bind_ret.
  destruct (heap (host w) !! vis) as [v|] eqn:Hv.
  2: { now rewrite !(bind_getImp_None _ _ _ Hv). }
  rewrite !(bind_getImp _ _ _ _ Hv).
  specialize (Hone vis v eq_refl Hv).
  unfold IJ_selectWindow. rewrite !bind_assoc, !bind_gets.
  destruct (findWindow (title v) (heap (host w)) 0) as [j|]; [|reflexivity].
  rewrite !bind_modify, bind_gets.
  destruct w as [[h c m] g u]. wsimpl.
  replace (1 <? nFrames v) with false by (symmetry; apply Nat.ltb_ge; lia).
  rewrite andb_false_r.
  erewrite !bind_Duplicate by (wsimpl; exact Hv).
  unfold IJ_getImage. rewrite !bind_assoc, !bind_gets. wsimpl. rewrite !bind_ret.
  erewrite !bind_getImp by (wsimpl; apply lookup_last).
  cbn [duplicateOf bitDepth].
  unfold IJ_run_convert, imp_setTitle.
  destruct (negb (bitDepth v =? 16)%Z).
  all: rewrite ?bind_ret.
  all: repeat (erewrite !bind_updImp by solve_lookup; wsimpl; cbv beta; rewrite ?alter_last).
  all: rewrite !bind_gets; wsimpl.
  all: destruct (originalImage g) as [| |o]; cbn [deref]; [reflexivity..|].
  all: rewrite !bind_ret.
  all: apply bind_ext_ok; intros cal w4 Ecal.
  all: apply imp_getCalibration_Ok_inv in Ecal as (oimg & Eo & -> & ->).
  all: apply bind_ext_ok; intros [] w5 Esp.
  all: pres_run dimsPres dimsPres_leaf Esp.
  all: edestruct Esp as (d1 & Ed1 & _ & HnF & _); [wsimpl; apply lookup_last|].
  all: rewrite (bind_getImp _ _ _ _ Ed1), HnF; cbn [nFrames set_title set_changes
         set_pixels duplicateOf duplicateFrames].
  all: replace (1 <? nFrames v) with false by (symmetry; apply Nat.ltb_ge; lia).
  all: now rewrite bind_ret.
Qed.

(** The extractor of version 1.0 against the one of version 2.0. *)
Section IgnoringFullStack.
Variable a : list jsval.

Lemma ifs_ret {A} (x : A) : ignoringFullStack a (ret x) (ret x).
Proof. intros w. reflexivity. Qed.

Lemma ifs_throw {A} e : ignoringFullStack a (@throw A e) (throw e).
Proof. intros w. reflexivity. Qed.

Lemma ifs_gets {A} (f : World -> A) :
  (forall w, f (withFullStack a w) = f w) -> ignoringFullStack a (gets f) (gets f).
Proof. intros Hf w. unfold gets. cbn [fst snd]. now rewrite Hf. Qed.

Lemma ifs_modify f :
  (forall w, f (withFullStack a w) = withFullStack a (f w)) ->
  ignoringFullStack a (modify f) (modify f).
Proof. intros Hf w. unfold modify. cbn [fst snd]. now rewrite Hf. Qed.

Lemma ifs_getImp i : ignoringFullStack a (getImp i) (getImp i).
Proof.
  intros w. unfold getImp. cbn [withFullStack with_globals host].
  destruct (heap (host w) !! i); reflexivity.
Qed.

Lemma ifs_bind {A B} (c1 c2 : M A) (k1 k2 : A -> M B) :
  ignoringFullStack a c1 c2 -> (forall x, ignoringFullStack a (k1 x) (k2 x)) ->
  ignoringFullStack a (bind c1 k1) (bind c2 k2).
Proof.
  intros Hc Hk w. unfold bind. rewrite Hc.
  destruct (c2 w) as [[x|e] w1]; cbn [fst snd]; [apply Hk|reflexivity].
Qed.

Lemma ifs_assoc {A B C} (c1 : M C) (c : M A) (k : A -> M B) (k' : B -> M C) :
  ignoringFullStack a c1 (x <- c ;; y <- k x ;; k' y) ->
  ignoringFullStack a c1 (y <- (x <- c ;; k x) ;; k' y).
Proof. intros Hc w. rewrite bind_assoc. apply Hc. Qed.

Lemma ifs_assoc_l {A B C} (c2 : M C) (c : M A) (k : A -> M B) (k' : B -> M C) :
  ignoringFullStack a (x <- c ;; y <- k x ;; k' y) c2 ->
  ignoringFullStack a (y <- (x <- c ;; k x) ;; k' y) c2.
Proof. intros Hc w. rewrite bind_assoc. apply Hc. Qed.

Lemma ifs_updImp i f : ignoringFullStack a (updImp i f) (updImp i f).
Proof.
  apply ifs_bind; [apply ifs_getImp|]. intros _. apply ifs_modify. reflexivity.
Qed.

Lemma ifs_forEach {A} (l : list A) (b1 b2 : A -> M unit) :
  (forall x, ignoringFullStack a (b1 x) (b2 x)) ->
  ignoringFullStack a (forEach l b1) (forEach l b2).
Proof.
  intros Hb. induction l as [|x l IH]; cbn [forEach]; [apply ifs_ret|].
  apply ifs_bind; [apply Hb|]. intros _. exact IH.
Qed.

Lemma ifs_newImps imgs : ignoringFullStack a (newImps imgs) (newImps imgs).
Proof. intros w. reflexivity. Qed.

(** The one place where the versions differ: version 2.0 also writes the
    array of full stacks. *)
Lemma ifs_storeChannel i v full :
  ignoringFullStack a (Mittens1.storeChannel i v) (storeChannel i v full).
Proof. intros w. reflexivity. Qed.

End IgnoringFullStack.

Ltac ifs_step :=
  lazymatch goal with
  | |- ignoringFullStack _ (bind (bind _ _) _) _ => apply ifs_assoc_l
  | |- ignoringFullStack _ _ (bind (bind _ _) _) => apply ifs_assoc
  | |- ignoringFullStack _ (bind _ _) (bind _ _) => apply ifs_bind; [|intros ?]
  | |- ignoringFullStack _ (Mittens1.storeChannel _ _) _ => apply ifs_storeChannel
  | |- ignoringFullStack _ (ret _) _ => apply ifs_ret
  | |- ignoringFullStack _ (throw _) _ => apply ifs_throw
  | |- ignoringFullStack _ (getImp _) _ => apply ifs_getImp
  | |- ignoringFullStack _ (updImp _ _) _ => apply ifs_updImp
  | |- ignoringFullStack _ (newImps _) _ => apply ifs_newImps
  | |- ignoringFullStack _ (gets _) _ => apply ifs_gets; intros ?; reflexivity
  | |- ignoringFullStack _ (modify _) _ => apply ifs_modify; intros ?; reflexivity
  | |- ignoringFullStack _ (forEach _ _) _ => apply ifs_forEach; intros ?
  | |- ignoringFullStack _ (if ?b then _ else _) _ => destruct b
  | |- ignoringFullStack _ (match ?x with _ => _ end) _ => destruct x
  end.

(** X11: unless the time-frames checkbox is set and the current image has
    more than one frame, the extractor of version 2.0 does what the one of
    version 1.0 does, and in addition overwrites the array of full
    stacks. *)
Theorem extractor_single_frame_as_version_1 w :
  (useFramesCheckbox (ui w) = false \/
   forall o img, currentImage (host w) = Some o ->
     heap (host w) !! o = Some img -> nFrames img <= 1) ->
  Mittens1.duplicateSplitInvert w
  = (fst (duplicateSplitInvert w),
     withFullStack (splitInvertedChannelsFullStack (globals w))
                   (snd (duplicateSplitInvert w))).
Proof.
  intros Hsingle.
  remember (duplicateSplitInvert w) as r eqn:Er.
  unfold duplicateSplitInvert, IJ_getImage at 1 in Er.
  unfold Mittens1.duplicateSplitInvert, IJ_getImage at 1.
  rewrite !bind_assoc, !bind_gets in Er. rewrite !bind_assoc, !bind_gets.
  destruct w as [[h c msgs] g u]. wsimpl.
  destruct c as [o|].
  2: { subst r. now destruct g. }
  rewrite bind_ret, bind_modify, bind_gets in Er. rewrite bind_ret, bind_modify.
  wsimpl.
  destruct (h !! o) as [img|] eqn:Himg.
  2: { rewrite bind_getImp_None in Er by (wsimpl; exact Himg).
       rewrite bind_getImp_None by (wsimpl; exact Himg). subst r. reflexivity. }
  rewrite (bind_getImp _ img) in Er by (wsimpl; exact Himg).
  rewrite (bind_getImp _ img) by (wsimpl; exact Himg). cbv zeta in *.
  assert (Hmode : useFramesCheckbox u && (1 <? nFrames img) = false).
  { destruct Hsingle as [->|Hone]; [reflexivity|].
    specialize (Hone o img eq_refl Himg).
    destruct (Nat.ltb_spec 1 (nFrames img)); [lia|]. apply andb_false_r. }
  rewrite Hmode in Er.
  erewrite bind_Duplicate in Er by (wsimpl; exact Himg).
  erewrite bind_Duplicate by (wsimpl; exact Himg).
  unfold IJ_getImage at 1 in Er. unfold IJ_getImage at 1.
  rewrite bind_assoc, bind_gets in Er. rewrite bind_assoc, bind_gets. wsimpl.
  rewrite bind_ret, bind_modify in Er. rewrite bind_ret, bind_modify. wsimpl.
  erewrite bind_getImp in Er by (wsimpl; apply lookup_last).
  cbn [duplicateOf nFrames duplicateFrames Nat.ltb Nat.leb] in Er.
  rewrite andb_false_r in Er.
  subst r.
  match goal with |- ?c1 ?ws = (fst (?c2 ?ws), withFullStack ?a (snd _)) =>
    cut (ignoringFullStack a c1 c2); [intros Hs; exact (Hs ws)|]
  end.
  unfold ChannelSplitter_split, IJ_run_convert, IJ_run_Grays, IJ_run_Invert,
    imp_getTitle, imp_setTitle, imp_show, IJ_selectWindow, IJ_showMessage, imp_setSlice.
  repeat ifs_step.
Qed.

(** The alignment workflow of version 1.0 against the one of version 2.0:
    what the loop over the choices keeps. *)

#[local] Instance framesPres_PreOrder : PreOrder framesPres.
Proof.
  split.
  - intros w i img E. eauto.
  - intros w1 w2 w3 H12 H23 i img E.
    destruct (H12 i img E) as (img2 & E2 & C2).
    destruct (H23 i img2 E2) as (img3 & E3 & C3).
    exists img3. split; [exact E3|congruence].
Qed.

Lemma framesPres_alter f i w :
  (forall img, nFrames (f img) = nFrames img) ->
  framesPres w (with_heap (alter f i) w).
Proof.
  intros Hf j img E. wsimpl.
  destruct (decide (i = j)) as [->|Hne].
  - rewrite list_lookup_alter_eq, E. cbn. eexists. split; [reflexivity|apply Hf].
  - rewrite list_lookup_alter_ne by exact Hne. eauto.
Qed.

Lemma framesPres_app l w : framesPres w (with_heap (fun h => h ++ l) w).
Proof.
  intros j img E. wsimpl. exists img. split; [|reflexivity].
  now apply lookup_app_l_Some.
Qed.

Lemma framesPres_same_heap w w' :
  heap (host w') = heap (host w) -> framesPres w w'.
Proof. intros E i img Hi. rewrite E. eauto. Qed.

Ltac framesPres_leaf :=
  first [ apply framesPres_alter; intros ?;
          first [ reflexivity
                | unfold setSliceOf;
                  match goal with
                  | |- context [if ?b then _ else _] => destruct b
                  end; reflexivity ]
        | apply framesPres_app
        | apply framesPres_same_heap; wsimpl;
          try match goal with
              | |- context [if ?b then _ else _] => destruct b
              end; reflexivity ].

Lemma createMergeOnly_sameUI showImage : preserves sameUI (createMergeOnly showImage).
Proof. unfold createMergeOnly. unfold_host. pres_with sameUI_leaf. Qed.

Lemma getChannel_sameUI chStr : preserves sameUI (getChannelImage16OnTheFly chStr).
Proof. unfold getChannelImage16OnTheFly. unfold_host. pres_with sameUI_leaf. Qed.

Lemma createMergeOnly_framesPres showImage :
  preserves framesPres (createMergeOnly showImage).
Proof. unfold createMergeOnly. unfold_host. pres_with framesPres_leaf. Qed.

Lemma getChannel_framesPres chStr :
  preserves framesPres (getChannelImage16OnTheFly chStr).
Proof. unfold getChannelImage16OnTheFly. unfold_host. pres_with framesPres_leaf. Qed.

(** What the provider returns has as many frames as the entry. *)
Lemma getChannel_Ok_single chStr w d w' :
  entriesSingle w ->
  getChannelImage16OnTheFly chStr w = (Ok (Ref d), w') ->
  exists dup, heap (host w') !! d = Some dup /\ nFrames dup <= 1.
Proof.
  intros Hent E.
  destruct (resolveChannel chStr (splitInvertedChannels (globals w))) as [vis|] eqn:Hres;
    [|rewrite (getChannel_unresolved _ _ Hres) in E; discriminate].
  apply resolveChannel_Some in Hres as (Hpre & n & Hn & Hrange & Hget).
  destruct (Hent _ _ (lookup_Ref _ _ _ Hget)) as (v & Hv & Hone).
  unfold getChannelImage16OnTheFly in E. rewrite Hpre in E. cbn [negb] in E.
  rewrite bind_gets, Hn in E. cbv zeta in E. rewrite Hrange, Hget in E.
  cbn [isNullish truthy negb deref] in E.
  rewrite bind_ret, (bind_getImp _ _ _ _ Hv) in E.
  unfold IJ_selectWindow in E. rewrite bind_assoc, bind_gets in E.
  destruct (findWindow (title v) (heap (host w)) 0) as [j|].
  2:{ unfold IJ_showMessage in E.
      rewrite bind_assoc, bind_modify, bind_throw in E. discriminate. }
  rewrite bind_modify, bind_gets in E.
  destruct w as [[h c m] g u]. wsimpl.
  match type of E with context [bind (if ?b then ?x else ?y)] =>
    replace (if b then x else y)
      with (IJ_run_Duplicate vis (providerOptions (useFramesCheckbox u) v) None) in E
      by (unfold providerOptions; destruct b; reflexivity)
  end.
  rewrite (bind_Duplicate _ _ _ v) in E by exact Hv. wsimpl.
  unfold IJ_getImage in E. rewrite bind_assoc, bind_gets in E. wsimpl.
  rewrite bind_ret in E.
  assert (Hd : d = length h).
  { clear - E. inv_binds E. now injection E as <-. }
  subst d.
  pres_run framesPres framesPres_leaf E.
  destruct (E (length h) _ (lookup_last _ _)) as (dup & Ed & HnF).
  exists dup. split; [exact Ed|]. rewrite HnF. cbn [nFrames].
  unfold providerOptions. destruct (_ && _); cbn [duplicateFrames]; exact Hone.
Qed.

(** With the time-frames checkbox not set, what the merger returns has one
    frame. *)
Lemma createMergeOnly_Ok_single showImage w m w' :
  useFramesCheckbox (ui w) = false ->
  createMergeOnly showImage w = (Ok (Ref m), w') ->
  exists img, heap (host w') !! m = Some img /\ nFrames img <= 1.
Proof.
  intros Huf.
  unfold createMergeOnly, catch.
  match goal with |- context [match ?b w with _ => _ end] =>
    destruct (b w) as [[r|e] w1] eqn:E end; [|discriminate].
  intros [= -> ->]. revert E.
  rewrite bind_gets.
  destruct (originalImage (globals w)) as [| |o] eqn:Ho; cbn [truthy negb];
    [discriminate..|].
  cbn [deref]. rewrite bind_ret, !bind_gets.
  destruct (heap (host w) !! o) as [orig|] eqn:Horig.
  2: { rewrite (bind_getImp_None _ _ _ Horig). discriminate. }
  rewrite (bind_getImp _ _ _ _ Horig). cbv zeta. rewrite bind_gets, bind_modify.
  rewrite Huf. cbn [andb].
  set (uniqueTitle := "C" +:+ "TempForMerge_" +:+ pretty (mergeCount (globals w))).
  destruct w as [[h c msgs] g u]. wsimpl.
  rewrite (bind_Duplicate _ _ _ orig) by exact Horig. wsimpl.
  unfold IJ_getImage. rewrite bind_assoc, bind_gets. wsimpl. rewrite bind_ret.
  erewrite bind_getImp by (wsimpl; apply lookup_last).
  set (dup := duplicateOf _ _ orig) in *.
  intros E.
  unfold ChannelSplitter_split in E. rewrite bind_assoc in E.
  erewrite bind_getImp in E by (wsimpl; apply lookup_last).
  rewrite bind_newImps in E. wsimpl.
  match type of E with (if ?b then _ else _) _ = _ => destruct b end;
    [clear - E; inv_binds E; discriminate|].
  inv_bind E as u1 w2 Econv.
  match type of E with (if ?b then _ else _) _ = _ => destruct b end;
    [clear - E; inv_binds E; discriminate|].
  inv_bind E as merged w3 Emerge.
  assert (Em : merged = m).
  { clear - E. inv_binds E. now injection E as ->. }
  subst merged.
  pres_run framesPres framesPres_leaf Econv.
  apply mergeChannels_Ok_inv in Emerge
    as (hd & first & X & Hhd & Hfirst & HX & _ & HF & _).
  pres_run framesPres framesPres_leaf E.
  destruct (E m X HX) as (img & Eimg & HnF).
  exists img. split; [exact Eimg|]. rewrite HnF, HF.
  apply list_elem_of_lookup_2, selectChannels_elem, elem_of_seq in Hhd.
  destruct (lookup_lt_is_Some_2 (channelsOf dup) (hd - length (h ++ [dup])) ltac:(lia))
    as [ch Ech].
  destruct (channelsOf_fields _ _ _ Ech) as (_ & _ & _ & _ & Et & _).
  destruct (Econv hd ch) as (first' & Ef' & HnF').
  { wsimpl. rewrite lookup_app_r by lia. exact Ech. }
  rewrite Hfirst in Ef'. injection Ef' as <-.
  rewrite HnF', Et. reflexivity.
Qed.

Lemma allSingle_kept images w w' :
  framesPres w w' -> allSingle images w -> allSingle images w'.
Proof.
  intros Hf Hall i Hi.
  destruct (Hall i Hi) as (img & Ei & Hone).
  destruct (Hf i img Ei) as (img' & Ei' & HnF). exists img'. split; [exact Ei'|lia].
Qed.

Lemma allSingle_snoc images i w img :
  allSingle images w -> heap (host w) !! i = Some img -> nFrames img <= 1 ->
  allSingle (images ++ [i]) w.
Proof.
  intros Hall Ei Hp k Hk. apply elem_of_app in Hk as [Hk|Hk]; [now apply Hall|].
  apply list_elem_of_singleton in Hk as ->. eauto.
Qed.

Lemma entriesSingle_kept w w' :
  framesPres w w' -> sameChannels w w' -> entriesSingle w -> entriesSingle w'.
Proof.
  intros Hf [_ Hc] Hent j c Hj. rewrite Hc in Hj.
  destruct (Hent j c Hj) as (img & Ei & Hone).
  destruct (Hf c img Ei) as (img' & Ei' & HnF). exists img'. split; [exact Ei'|lia].
Qed.

(** One pass through the body of the loop over the alignment choices,
    where the time-frames checkbox is not set and the channels have one
    frame: both versions do the same, and it stays so. *)
Lemma resolveSelection_as_v1 acc sel w :
  useFramesCheckbox (ui w) = false -> entriesSingle w ->
  resolveSelection acc sel w = Mittens1.resolveSelection acc sel w.
Proof.
  intros Huf Hent. unfold resolveSelection, Mittens1.resolveSelection.
  destruct (String.eqb sel "Merge").
  - unfold bind. rewrite createMergeOnly_as_v1 by (left; exact Huf). reflexivity.
  - destruct (negb (String.eqb sel "None")); [|reflexivity].
    unfold bind. rewrite getChannel_as_v1; [reflexivity|].
    intros vis v Hres Hv.
    apply resolveChannel_Some in Hres as (_ & n & _ & _ & Hget).
    destruct (Hent _ _ (lookup_Ref _ _ _ Hget)) as (v' & Hv' & Hone).
    rewrite Hv in Hv'. now injection Hv' as <-.
Qed.

Lemma resolveSelection_single acc sel w acc' w' :
  useFramesCheckbox (ui w) = false -> entriesSingle w -> allSingle acc w ->
  resolveSelection acc sel w = (Ok acc', w') ->
  useFramesCheckbox (ui w') = false /\ entriesSingle w' /\ allSingle acc' w'.
Proof.
  intros Huf Hent Hall. unfold resolveSelection.
  destruct (String.eqb sel "Merge").
  - intros E. inv_bind E as v w1 E1.
    assert (Hf : framesPres w w1).
    { eapply (preserves_run framesPres); [apply createMergeOnly_framesPres|exact E1]. }
    assert (Hch : sameChannels w w1).
    { eapply (preserves_run sameChannels); [apply createMergeOnly_sameChannels|exact E1]. }
    assert (Hui : sameUI w w1).
    { eapply (preserves_run sameUI); [apply createMergeOnly_sameUI|exact E1]. }
    pose proof (entriesSingle_kept _ _ Hf Hch Hent) as Hent1.
    pose proof (allSingle_kept _ _ _ Hf Hall) as Hall1.
    assert (Huf1 : useFramesCheckbox (ui w1) = false) by (rewrite Hui; exact Huf).
    destruct v as [| |m]; injection E as <- <-; try (repeat split; assumption).
    destruct (createMergeOnly_Ok_single _ _ _ _ Huf E1) as (img & Ei & Hp).
    repeat split; try assumption. eapply allSingle_snoc; eassumption.
  - destruct (negb (String.eqb sel "None")).
    + intros E. inv_bind E as v w1 E1.
      assert (Hf : framesPres w w1).
      { eapply (preserves_run framesPres); [apply getChannel_framesPres|exact E1]. }
      assert (Hch : sameChannels w w1).
      { eapply (preserves_run sameChannels); [apply getChannel_sameChannels|exact E1]. }
      assert (Hui : sameUI w w1).
      { eapply (preserves_run sameUI); [apply getChannel_sameUI|exact E1]. }
      pose proof (entriesSingle_kept _ _ Hf Hch Hent) as Hent1.
      pose proof (allSingle_kept _ _ _ Hf Hall) as Hall1.
      assert (Huf1 : useFramesCheckbox (ui w1) = false) by (rewrite Hui; exact Huf).
      destruct v as [| |d]; injection E as <- <-; try (repeat split; assumption).
      destruct (getChannel_Ok_single _ _ _ _ Hent E1) as (img & Ei & Hp).
      repeat split; try assumption. eapply allSingle_snoc; eassumption.
    + intros [= <- <-]. repeat split; assumption.
Qed.

(** The loop over the alignment choices. *)
Lemma gather_as_v1 choices : forall acc w,
  useFramesCheckbox (ui w) = false -> entriesSingle w -> allSingle acc w ->
  foldM choices acc resolveSelection w = foldM choices acc Mittens1.resolveSelection w /\
  forall images w', foldM choices acc resolveSelection w = (Ok images, w') ->
    allSingle images w'.
Proof.
  induction choices as [|sel rest IH]; intros acc w Huf Hent Hall; cbn [foldM].
  - split; [reflexivity|]. intros images w' [= <- <-]. exact Hall.
  - unfold bind. rewrite <- (resolveSelection_as_v1 acc sel w Huf Hent).
    destruct (resolveSelection acc sel w) as [[acc1|e] w1] eqn:E1.
    + destruct (resolveSelection_single _ _ _ _ _ Huf Hent Hall E1)
        as (Huf1 & Hent1 & Hall1).
      apply IH; assumption.
    + split; [reflexivity|]. discriminate.
Qed.

Lemma bind_cong {A B} (c1 c2 : M A) (k1 k2 : A -> M B) w :
  c1 w = c2 w ->
  (forall a w1, c1 w = (Ok a, w1) -> k1 a w1 = k2 a w1) ->
  bind c1 k1 w = bind c2 k2 w.
Proof.
  intros Ec Ek. unfold bind. rewrite <- Ec.
  destruct (c1 w) as [[a|e] w1]; [now apply Ek|reflexivity].
Qed.

(** X15: where the time-frames checkbox is not set and every populated
    entry of the channel array is an image of at most one frame, as it is
    after an extraction with the checkbox not set, the alignment workflow
    of version 2.0 does what the one of version 1.0 does: same dialogs,
    same images, same final state. *)
Theorem align_single_frame_as_version_1 w :
  useFramesCheckbox (ui w) = false -> entriesSingle w ->
  alignSelectedImages w = Mittens1.alignSelectedImages w.
Proof.
  intros Huf Hent. unfold alignSelectedImages, Mittens1.alignSelectedImages.
  rewrite !bind_gets.
  destruct (gather_as_v1 (alignmentChoices (ui w)) [] w Huf Hent) as [Eg Hall].
  { intros i Hi. inversion Hi. }
  apply bind_cong; [exact Eg|]. intros images w1 E1.
  destruct (length images <? 2); [reflexivity|].
  apply bind_cong; [|reflexivity].
  apply stackImagesHorizontally_as_v1.
  intros i img Hi Ei. destruct (Hall images w1 E1 i Hi) as (img' & Ei' & Hone).
  rewrite Ei in Ei'. now injection Ei' as <-.
Qed.

(** X16: after the extractor has run, outside time-series mode, on a
    current image that has a window, the time-frames checkbox is as it
    was and every populated entry of the channel array is an image of one
    frame: the state is one in which the alignment workflows of both
    versions agree. *)
Theorem extractor_entries_single w o img :
  currentImage (host w) = Some o -> heap (host w) !! o = Some img ->
  visible img = true ->
  length (splitInvertedChannels (globals w)) = 4 ->
  length (splitInvertedChannelsFullStack (globals w)) = 4 ->
  useFramesCheckbox (ui w) && (1 <? nFrames img) = false ->
  exists w',
    duplicateSplitInvert w = (Ok tt, w') /\
    ui w' = ui w /\ entriesSingle w'.
Proof.
  intros Hcur Himg Hvis Harr Hfull Hmode.
  destruct (duplicateSplitInvert_spec w o img Hcur Himg Hvis Harr Hfull)
    as (w' & j & E & Hl & Hlow & Hch & _ & _ & _ & _ & Hui & Hlen & Hsplit & _).
  cbv zeta in *. rewrite Hmode in Hch.
  exists w'. split; [exact E|]. split; [exact Hui|].
  intros k c Hk.
  assert (Hk4 : k < 4) by (rewrite <- Hlen; eapply lookup_lt_Some, Hk).
  rewrite (Hsplit k Hk4) in Hk.
  destruct (Nat.ltb_spec k (channelCount img)) as [Hkn|]; [|discriminate].
  injection Hk as <-.
  set (dup := duplicateOf (extractorOptions (useFramesCheckbox (ui w)) img) None img) in *.
  destruct (lookup_lt_is_Some_2 (channelsOf dup) k) as [ch Ech].
  { rewrite length_channelsOf. exact Hkn. }
  specialize (Hch k ch Ech). destruct (Nat.ltb_spec k 4); [|lia].
  eexists. split; [exact Hch|].
  destruct (channelsOf_fields _ _ _ Ech) as (_ & _ & _ & _ & Et & _ & _ & Ev & _).
  unfold extractedChannel, shownOf, invertOf, convertOf. wsimpl. rewrite Ev. wsimpl.
  rewrite Et. subst dup. unfold extractorOptions. rewrite Hmode. reflexivity.
Qed.

(** X14: on images none of which has more than one frame, the montage
    assembler of version 2.0 does what the one of version 1.0 does: same
    result, same final state. *)
Theorem montage_single_frames_as_version_1 images w :
  (forall i img, i ∈ images -> heap (host w) !! i = Some img -> nFrames img <= 1) ->
  stackImagesHorizontally images w = Mittens1.stackImagesHorizontally images w.
Proof. apply stackImagesHorizontally_as_v1. Qed.

(** X12: unless the time-frames checkbox is set and the original image has
    more than one frame, the merger of version 2.0 does what the one of
    version 1.0 does. *)
Theorem merger_single_frame_as_version_1 showImage w :
  (useFramesCheckbox (ui w) = false \/
   forall o orig, originalImage (globals w) = Ref o ->
     heap (host w) !! o = Some orig -> nFrames orig <= 1) ->
  createMergeOnly showImage w = Mittens1.createMergeOnly showImage w.
Proof. apply createMergeOnly_as_v1. Qed.

(** X13: for an identifier that names no entry, or an entry with at most one
    frame, the channel provider of version 2.0 does what the one of
    version 1.0 does. *)
Theorem provider_single_frame_as_version_1 chStr w :
  (forall vis v,
     resolveChannel chStr (splitInvertedChannels (globals w)) = Some vis ->
     heap (host w) !! vis = Some v -> nFrames v <= 1) ->
  getChannelImage16OnTheFly chStr w = Mittens1.getChannelImage16OnTheFly chStr w.
Proof. apply getChannel_as_v1. Qed.

End Verification.

(** * The properties on the sample data *)

Import Samples.
#[local] Existing Instance sampleOps.

(** A still image next to a series of three frames: the montage has three
    frames, and the still image fills its region in each of them. *)
Lemma montage_copies_inputs_witness :
  exists w' out,
    stackImagesHorizontally [0; 1] (gallery still movie) = (Ok (Ref 2), w') /\
    heap (host w') !! 2 = Some out /\
    nFrames out = 3 /\
    (forall f x y,
       1 <= f <= 3 -> x < 1 -> y < 1 ->
       getPixel (framePlane out f) (2 + x) y
       = getPixel (convertTo (bitDepth out) (frameOf movie f)) x y) /\
    (forall f x y,
       2 <= f <= 3 -> x < 2 -> y < 1 ->
       getPixel (framePlane out f) x y
       = getPixel (convertTo (bitDepth out) (framePlane still 1)) x y).
Proof.
  destruct (montage_copies_inputs [0; 1] [still; movie] (gallery still movie))
    as (w' & out & E & Hout & HnF & _ & Hcopy & Hpad).
  - simpl. lia.
  - repeat constructor.
  - repeat constructor; simpl; lia.
  - exists w', out. destruct (Hpad eq_refl) as [H3 Hsame].
    split; [exact E|]. split; [exact Hout|]. split; [exact H3|]. split.
    + intros f x y Hf Hx Hy.
      apply (Hcopy f 1 movie x y); [lia|reflexivity|exact Hx|exact Hy].
    + intros f x y Hf Hx Hy.
      apply (Hsame f still x y); [exact Hf|reflexivity|exact Hx|exact Hy].
Defined.

(** C1 as it is written, for every list of inputs, fails on an input whose
    frames have more than one slice.  [volume] has two frames, and so has
    the montage of [volume] and [still]; at the offset of [volume] its
    frame 2 holds the sample 2, which is slice 2 of frame 1, and neither
    plane of frame 2 of [volume] holds that sample. *)
Lemma montage_copies_inputs_counterexample :
  exists w' out,
    stackImagesHorizontally [0; 1] (gallery volume still) = (Ok (Ref 2), w') /\
    heap (host w') !! 2 = Some out /\
    nFrames volume = 2 /\ nFrames out = 2 /\
    getPixel (framePlane out 2) (offsetOf [volume; still] 0 + 0) 0 = 2%Z /\
    plane volume 0 1 0 = [2]%Z /\
    (forall z, z < nSlices volume ->
       getPixel (convertTo (bitDepth out)
                   (mkIP (width volume) (height volume) (bitDepth volume)
                         (plane volume 0 z 1))) 0 0
       <> 2%Z).
Proof.
  exists (snd (stackImagesHorizontally [0; 1] (gallery volume still))).
  exists (default volume
            (heap (host (snd (stackImagesHorizontally [0; 1] (gallery volume still))))
               !! 2)).
  do 6 (split; [vm_compute; reflexivity|]).
  intros z Hz. change (nSlices volume) with 2 in Hz.
  destruct z as [|[|z]]; [vm_compute; discriminate..|lia].
Qed.

(** One image is rejected; images of widths 100 and 150 give a montage of
    width 250. *)
Lemma montage_extent_witness :
  (exists w',
     stackImagesHorizontally [0] (gallery narrow broad) = (Ok Null, w') /\
     heap (host w') = [narrow; broad] /\
     messages (host w')
     = [("Stacking Error",
         "Need at least 2 images to create a horizontal stack.")]) /\
  (exists w' out,
     stackImagesHorizontally [0; 1] (gallery narrow broad) = (Ok (Ref 2), w') /\
     heap (host w') !! 2 = Some out /\
     width out = 250 /\ height out = 1).
Proof.
  split.
  - apply (proj1 (montage_extent [0] (gallery narrow broad))). simpl. lia.
  - apply (proj2 (montage_extent [0; 1] (gallery narrow broad))
             ltac:(simpl; lia) [narrow; broad]).
    repeat constructor.
Defined.

(** The time series [cells] after extraction, with no merge checkbox set:
    the merger returns [undefined] and leaves three open images behind. *)
Lemma merger_time_stack_zero_selection_leaks_witness :
  exists w' dup,
    createMergeOnly true (extracted true [false; false; false; false] [])
    = (Ok Undefined, w') /\
    length (heap (host w')) = 7 /\
    heap (host w') !! 4 = Some dup /\
    visible dup = true /\
    forall i, 4 <= i < length (heap (host w')) ->
      exists tmp, heap (host w') !! i = Some tmp /\ closed tmp = false.
Proof.
  apply (merger_time_stack_zero_selection_leaks true
           (extracted true [false; false; false; false] []) 0 cells).
  - vm_compute. reflexivity.
  - vm_compute. reflexivity.
  - reflexivity.
  - vm_compute. lia.
  - reflexivity.
Defined.

(** Two 16-bit images give a 16-bit montage. *)
Lemma montage_depth_witness :
  exists w' out,
    stackImagesHorizontally [0; 1] (gallery short1 short2) = (Ok (Ref 2), w') /\
    heap (host w') !! 2 = Some out /\
    bitDepth out = 16%Z.
Proof.
  destruct (montage_depth [0; 1] [short1; short2] (gallery short1 short2))
    as (w' & out & first & E & Hout & Hfirst & _ & Hgrey).
  - simpl. lia.
  - repeat constructor.
  - exists w', out. split; [exact E|]. split; [exact Hout|].
    apply Hgrey.
    + repeat constructor; discriminate.
    + injection Hfirst as <-. reflexivity.
Defined.

(** Two 32-bit images give an 8-bit montage, not a 32-bit one. *)
Lemma montage_depth_32bit_counterexample :
  exists w' out,
    stackImagesHorizontally [0; 1] (gallery float1 float2) = (Ok (Ref 2), w') /\
    heap (host w') !! 2 = Some out /\
    bitDepth float1 = 32%Z /\ bitDepth float2 = 32%Z /\
    bitDepth out = 8%Z.
Proof.
  exists (snd (stackImagesHorizontally [0; 1] (gallery float1 float2))).
  exists (default float1
            (heap (host (snd (stackImagesHorizontally [0; 1] (gallery float1 float2))))
               !! 2)).
  vm_compute. repeat split.
Qed.


(** The first channel of [cells] after extraction: a 16-bit copy without
    a window, calibrated like [cells]. *)
Lemma provider_hidden_16bit_copy_witness :
  exists w' dup,
    getChannelImage16OnTheFly "Ch1" (extracted false [] []) = (Ok (Ref 4), w') /\
    heap (host w') = heap (host (extracted false [] [])) ++ [dup] /\
    visible dup = false /\
    bitDepth dup = 16%Z /\
    pixelWidth (calibration dup) = pixelWidth micrometres /\
    pixelHeight (calibration dup) = pixelHeight micrometres /\
    calUnit (calibration dup) = "um".
Proof.
  destruct (proj2 (provider_hidden_16bit_copy "Ch1" (extracted false [] []))
              2 (default cells (heap (host (extracted false [] [])) !! 2)) 0 cells)
    as (w' & dup & E & Hheap & _ & Hvis & Hd & _ & _ & _ & _ & Hpw & Hph & Hu & _).
  - vm_compute. reflexivity.
  - vm_compute. reflexivity.
  - vm_compute. reflexivity.
  - vm_compute. reflexivity.
  - vm_compute. reflexivity.
  - exists w', dup. split; [exact E|]. split; [exact Hheap|].
    split; [exact Hvis|]. split; [exact Hd|]. split; [exact Hpw|].
    split; [exact Hph|exact Hu].
Defined.

(** C6 as it is written, for every identifier that names a populated
    entry, fails in three ways.  After the window clean-up ["Ch1"] still
    names entry 2, whose window is gone: the provider aborts and returns
    no image.  Where it does return the copy, the copy has had a window:
    after the script's Duplicate command it is shown and is the current
    image, until the provider hides it as its last step.  And with no
    original image set, the provider stops at the calibration and leaves
    the copy with its window. *)
Lemma provider_hidden_16bit_copy_counterexample :
  (resolveChannel "Ch1" (splitInvertedChannels (globals cleanedUp)) = Some 2 /\
   fst (getChannelImage16OnTheFly "Ch1" cleanedUp) = Thrown "Macro canceled") /\
  (exists v w1 shown,
     resolveChannel "Ch1" (splitInvertedChannels (globals (extracted false [] [])))
     = Some 2 /\
     heap (host (extracted false [] [])) !! 2 = Some v /\
     fst (getChannelImage16OnTheFly "Ch1" (extracted false [] [])) = Ok (Ref 4) /\
     (IJ_selectWindow (title v) ;;
      IJ_run_Duplicate 2 (providerOptions false v) None ;;
      IJ_getImage) (extracted false [] []) = (Ok 4, w1) /\
     heap (host w1) !! 4 = Some shown /\
     visible shown = true /\ currentImage (host w1) = Some 4) /\
  (exists w' left,
     resolveChannel "Ch1" (splitInvertedChannels (globals noOriginal)) = Some 2 /\
     getChannelImage16OnTheFly "Ch1" noOriginal = (Thrown "TypeError", w') /\
     heap (host w') !! 4 = Some left /\
     title left = "16bit_C1-TempForMerge_cells-1" /\ visible left = true).
Proof.
  split; [|split].
  - split; vm_compute; reflexivity.
  - exists (default cells (heap (host (extracted false [] [])) !! 2)).
    exists (snd ((IJ_selectWindow "C1-TempForMerge_cells-1" ;;
                  IJ_run_Duplicate 2 DupStack None ;;
                  IJ_getImage) (extracted false [] []))).
    exists (default cells
              (heap (host (snd ((IJ_selectWindow "C1-TempForMerge_cells-1" ;;
                                 IJ_run_Duplicate 2 DupStack None ;;
                                 IJ_getImage) (extracted false [] [])))) !! 4)).
    vm_compute. repeat split.
  - exists (snd (getChannelImage16OnTheFly "Ch1" noOriginal)).
    exists (default cells
              (heap (host (snd (getChannelImage16OnTheFly "Ch1" noOriginal))) !! 4)).
    vm_compute. repeat split.
Qed.

(** The two channels of [cells]: two populated entries, two [null]. *)
Lemma extractor_channel_set_witness :
  exists a,
    splitInvertedChannels (globals (snd (duplicateSplitInvert (session false [] []))))
    = a /\
    length a = 4 /\
    countPopulated a = 2 /\
    a !! 2 = Some Null /\ a !! 3 = Some Null.
Proof.
  destruct (extractor_channel_set (session false [] []) 0 cells)
    as (a & Ea & Hl & Hc & _ & _ & Hn).
  - reflexivity.
  - reflexivity.
  - reflexivity.
  - exists a. split; [exact Ea|]. split; [exact Hl|]. split; [exact Hc|].
    split; apply Hn; vm_compute; lia.
Defined.

Lemma invert_involutive_witness :
  invert8 200 = 55%Z /\ invert8 (invert8 200) = 200%Z.
Proof. apply (invert_involutive 200). lia. Defined.

(** Five choices, none of them ["None"], none of them a populated channel
    of [cells]: the error dialog is shown. *)
Lemma align_skips_unresolved_witness :
  countSelected
    (alignmentChoices (ui (extracted false [] ["Ch3"; "Ch4"; "Ch5"; "Ch0"; "Chx"])))
  = 5 /\
  alignSelectedImages (extracted false [] ["Ch3"; "Ch4"; "Ch5"; "Ch0"; "Chx"])
  = (Ok tt, with_message
              ("Stacking Error",
               "Need at least 2 images to create a horizontal stack.")
              (extracted false [] ["Ch3"; "Ch4"; "Ch5"; "Ch0"; "Chx"])).
Proof.
  split; [reflexivity|].
  apply (proj2 (proj2 (proj2
           (align_skips_unresolved
              (extracted false [] ["Ch3"; "Ch4"; "Ch5"; "Ch0"; "Chx"]))))).
  apply (bool_decide_unpack _). vm_compute. exact I.
Defined.

(** The third channel of the two-channel image [cells]. *)
Lemma provider_nothing_is_inert_witness :
  resolveChannel "Ch3" (splitInvertedChannels (globals (extracted false [] []))) = None /\
  snd (getChannelImage16OnTheFly "Ch3" (extracted false [] []))
  = extracted false [] [].
Proof.
  apply (proj2 (provider_nothing_is_inert "Ch3" (extracted false [] [])) Null).
  - vm_compute. reflexivity.
  - reflexivity.
Defined.

(** The current frame of [cells] after extraction, with no merge checkbox
    set. *)
Lemma merger_single_frame_zero_selection_releases_witness :
  exists w',
    createMergeOnly true (extracted false [false; false; false; false] [])
    = (Ok Null, w') /\
    length (heap (host w')) = 7 /\
    forall i, 4 <= i < length (heap (host w')) ->
      exists tmp, heap (host w') !! i = Some tmp /\ released tmp.
Proof.
  apply (merger_single_frame_zero_selection_releases true
           (extracted false [false; false; false; false] []) 0 cells).
  - vm_compute. reflexivity.
  - vm_compute. reflexivity.
  - reflexivity.
  - vm_compute. lia.
  - reflexivity.
Defined.

(** The channels of [cells] are planar after extraction. *)
Lemma extractor_entries_planar_witness :
  entriesPlanar (snd (duplicateSplitInvert (session false [] []))) /\
  sourceReady (snd (duplicateSplitInvert (session false [] []))).
Proof.
  apply (extractor_entries_planar (session false [] []) 0 cells).
  - reflexivity.
  - reflexivity.
  - split; [simpl; lia|discriminate].
  - reflexivity.
Defined.

(** The first channel and the composite of [cells], gathered for the
    montage. *)
Lemma align_inputs_planar_witness :
  entriesPlanar
    (snd (foldM ["Ch1"; "Merge"; "None"; "Ch3"; "None"] [] resolveSelection
            (extracted false [true; true; false; false]
               ["Ch1"; "Merge"; "None"; "Ch3"; "None"]))) /\
  sourceReady
    (snd (foldM ["Ch1"; "Merge"; "None"; "Ch3"; "None"] [] resolveSelection
            (extracted false [true; true; false; false]
               ["Ch1"; "Merge"; "None"; "Ch3"; "None"]))) /\
  exists imgs,
    Forall2 (fun i img =>
               heap (host (snd (foldM ["Ch1"; "Merge"; "None"; "Ch3"; "None"] []
                                  resolveSelection
                                  (extracted false [true; true; false; false]
                                     ["Ch1"; "Merge"; "None"; "Ch3"; "None"]))))
                 !! i = Some img)
            [4; 8] imgs /\
    Forall planar imgs.
Proof.
  apply (align_inputs_planar
           (extracted false [true; true; false; false]
              ["Ch1"; "Merge"; "None"; "Ch3"; "None"])).
  - intros j c Hj.
    assert (Ha : splitInvertedChannels
                   (globals (extracted false [true; true; false; false]
                               ["Ch1"; "Merge"; "None"; "Ch3"; "None"]))
                 = [Ref 2; Ref 3; Null; Null]) by (vm_compute; reflexivity).
    rewrite Ha in Hj.
    destruct j as [|[|[|[|j]]]]; try discriminate; injection Hj as <-;
      (eexists; split; [vm_compute; reflexivity|]);
      unfold planar, validCur; simpl; lia.
  - intros o Ho.
    assert (Hor : originalImage
                    (globals (extracted false [true; true; false; false]
                                ["Ch1"; "Merge"; "None"; "Ch3"; "None"]))
                  = Ref 0) by (vm_compute; reflexivity).
    rewrite Hor in Ho. injection Ho as <-.
    eexists. split; [vm_compute; reflexivity|].
    split; [simpl; lia|discriminate].
  - vm_compute. reflexivity.
Defined.

(** X4: the montage picks the plane of an input for output frame [f] by
    stack position.  For [volume], whose frames have two slices, output
    frame 2 holds slice 2 of frame 1 and no plane of frame 2. *)
Lemma montage_frame_is_stack_position :
  exists w' out,
    stackImagesHorizontally [0; 1] (gallery volume still) = (Ok (Ref 2), w') /\
    heap (host w') !! 2 = Some out /\
    nFrames out = 2 /\
    stack out = [[1; 5; 5]; [2; 5; 5]]%Z /\
    plane volume 0 1 0 = [2]%Z /\
    plane volume 0 0 1 = [3]%Z /\
    plane volume 0 1 1 = [4]%Z.
Proof.
  exists (snd (stackImagesHorizontally [0; 1] (gallery volume still))).
  exists (default volume
            (heap (host (snd (stackImagesHorizontally [0; 1] (gallery volume still))))
               !! 2)).
  vm_compute. repeat split.
Qed.

(** * The further properties on the sample data *)

(** Two single planes: both versions of the montage assembler agree. *)
Lemma montage_single_frames_as_version_1_witness :
  stackImagesHorizontally [0; 1] (gallery narrow broad)
  = Mittens1.stackImagesHorizontally [0; 1] (gallery narrow broad).
Proof.
  apply (montage_single_frames_as_version_1 [0; 1] (gallery narrow broad)).
  intros i img _ Hi. destruct i as [|[|i]]; simpl in Hi; try discriminate;
    injection Hi as <-; simpl; lia.
Defined.

(** The current frame of [cells], both channels selected. *)
Lemma merger_single_frame_as_version_1_witness :
  createMergeOnly true (extracted false [true; true; false; false] [])
  = Mittens1.createMergeOnly true (extracted false [true; true; false; false] []).
Proof.
  apply (merger_single_frame_as_version_1 true
           (extracted false [true; true; false; false] [])).
  left. reflexivity.
Defined.

(** The first channel of the current frame of [cells]. *)
Lemma provider_single_frame_as_version_1_witness :
  getChannelImage16OnTheFly "Ch1" (extracted false [] [])
  = Mittens1.getChannelImage16OnTheFly "Ch1" (extracted false [] []).
Proof.
  apply (provider_single_frame_as_version_1 "Ch1" (extracted false [] [])).
  intros vis v Hres Hv. vm_compute in Hres. injection Hres as <-.
  vm_compute in Hv. injection Hv as <-. simpl. lia.
Defined.

(** [cells] with the time-frames checkbox not set. *)
Lemma extractor_single_frame_as_version_1_witness :
  Mittens1.duplicateSplitInvert (session false [] [])
  = (fst (duplicateSplitInvert (session false [] [])),
     withFullStack (replicate 4 Undefined)
       (snd (duplicateSplitInvert (session false [] [])))).
Proof.
  apply (extractor_single_frame_as_version_1 (session false [] [])).
  left. reflexivity.
Defined.

(** After the extraction from [cells]: the duplicate and both channel
    images are released, [cells] stays. *)
Lemma close_all_except_original_witness :
  exists w',
    closeAllExceptOriginal (extracted false [] []) = (Ok tt, w') /\
    heap (host w') !! 0 = Some cells /\
    globals w' = globals (extracted false [] []) /\
    forall i, 1 <= i < 4 -> exists tmp, heap (host w') !! i = Some tmp /\ released tmp.
Proof.
  destruct (proj2 (close_all_except_original (extracted false [] [])) 0 cells)
    as (w' & j & cur & E & Hg & _ & _ & Hrel & _ & Ho & _).
  - vm_compute. reflexivity.
  - vm_compute. reflexivity.
  - exists w'. split; [exact E|]. split; [exact Ho|]. split; [exact Hg|].
    intros i Hi.
    assert (Hex : exists img, heap (host (extracted false [] [])) !! i = Some img /\
              visible img = true /\ title img <> title cells).
    { destruct i as [|[|[|[|i]]]]; try lia; eexists;
        (split; [vm_compute; reflexivity|]); (split; [reflexivity|discriminate]). }
    destruct Hex as (img & Ei & Hv & Ht).
    exists (releaseOf img). split; [now apply Hrel|]. repeat split.
Defined.

(** After the extraction from [cells] and the clean-up, the first channel
    cannot be provided any more. *)
Lemma provider_aborts_after_clean_up_witness :
  exists v,
    heap (host (extracted false [] [])) !! 2 = Some v /\
    getChannelImage16OnTheFly "Ch1"
      (snd (closeAllExceptOriginal (extracted false [] [])))
    = (Thrown "Macro canceled",
       with_message ("Macro Error", title v +:+ " not found")
         (snd (closeAllExceptOriginal (extracted false [] [])))).
Proof.
  exists (default cells (heap (host (extracted false [] [])) !! 2)).
  split; [vm_compute; reflexivity|].
  apply (provider_aborts_after_clean_up "Ch1" (extracted false [] []) 0 cells 2).
  - vm_compute. reflexivity.
  - vm_compute. reflexivity.
  - vm_compute. reflexivity.
  - vm_compute. reflexivity.
  - vm_compute. discriminate.
  - vm_compute. reflexivity.
Defined.

(** A still image next to a series of three frames. *)
Lemma montage_effects_witness :
  exists w' out,
    stackImagesHorizontally [0; 1] (gallery still movie) = (Ok (Ref 2), w') /\
    heap (host w') !! 2 = Some out /\
    currentImage (host w') = Some 2 /\
    title out = "Stacked" /\ visible out = true /\
    calUnit (calibration out) = "pixel" /\
    (exists cs, heap (host w') !! 1 = Some (set_currentSlice cs movie)).
Proof.
  destruct (montage_effects [0; 1] [still; movie] (gallery still movie))
    as (w' & out & first & E & _ & _ & Hout & Hcur & Ht & Hv & _ & Hf & _ & _ & Hu
        & _ & _ & Hin & _).
  - simpl. lia.
  - repeat constructor.
  - exists w', out. injection Hf as <-.
    split; [exact E|]. split; [exact Hout|]. split; [exact Hcur|].
    split; [exact Ht|]. split; [exact Hv|]. split; [exact Hu|].
    apply (Hin 1 movie). reflexivity.
Defined.

(** The first channel and the composite of [cells] make the montage. *)
Lemma align_shows_montage_witness :
  exists w' out,
    alignSelectedImages
      (extracted false [true; true; false; false]
         ["Ch1"; "Merge"; "None"; "Ch3"; "None"]) = (Ok tt, w') /\
    finalAlignedImage (globals w') = Ref 9 /\
    heap (host w') !! 9 = Some out /\
    title out = "Stacked" /\ visible out = true.
Proof.
  destruct (align_shows_montage
              (extracted false [true; true; false; false]
                 ["Ch1"; "Merge"; "None"; "Ch3"; "None"])
              [4; 8]
              [default cells
                 (heap (host (snd (foldM ["Ch1"; "Merge"; "None"; "Ch3"; "None"] []
                                     resolveSelection
                                     (extracted false [true; true; false; false]
                                        ["Ch1"; "Merge"; "None"; "Ch3"; "None"])))) !! 4);
               default cells
                 (heap (host (snd (foldM ["Ch1"; "Merge"; "None"; "Ch3"; "None"] []
                                     resolveSelection
                                     (extracted false [true; true; false; false]
                                        ["Ch1"; "Merge"; "None"; "Ch3"; "None"])))) !! 8)]
              (snd (foldM ["Ch1"; "Merge"; "None"; "Ch3"; "None"] [] resolveSelection
                      (extracted false [true; true; false; false]
                         ["Ch1"; "Merge"; "None"; "Ch3"; "None"]))))
    as (w' & out & j & cur & E & Hf & Hout & Ht & Hv & _).
  - vm_compute. reflexivity.
  - simpl. lia.
  - constructor; [vm_compute; reflexivity|].
    constructor; [vm_compute; reflexivity|]. constructor.
  - exists w', out. split; [exact E|]. split; [exact Hf|]. split; [exact Hout|].
    split; assumption.
Defined.

(** The time series [cells]: both channel images hold every plane inverted
    and are entered in both arrays. *)
Lemma extractor_makes_inverted_channels_witness :
  exists w' c,
    duplicateSplitInvert (session true [] []) = (Ok tt, w') /\
    heap (host w') !! 0 = Some cells /\
    heap (host w') !! 2 = Some c /\
    title c = "C1-TempForMerge_cells" /\
    bitDepth c = 8%Z /\ visible c = true /\
    stack c = [[254; 253]; [250; 249]; [246; 245]]%Z /\
    splitInvertedChannels (globals w') !! 0 = Some (Ref 2) /\
    splitInvertedChannelsFullStack (globals w') !! 0 = Some (Ref 2).
Proof.
  destruct (extractor_makes_inverted_channels (session true [] []) 0 cells)
    as (w' & E & _ & _ & _ & Hkeep & _ & _ & Hch & _).
  - reflexivity.
  - reflexivity.
  - reflexivity.
  - reflexivity.
  - reflexivity.
  - destruct (Hch 0 (default cells
                       (channelsOf (duplicateOf (DupFrames 3) None cells) !! 0)))
      as (c & Hc & Hs & Hf & Ht & Hd & Hv & _ & _ & _ & _ & _ & _ & _ & Hst).
    + reflexivity.
    + lia.
    + exists w', c. split; [exact E|]. split; [apply Hkeep; reflexivity|].
      split; [exact Hc|]. split; [exact Ht|]. split; [exact Hd|].
      split; [exact Hv|]. split; [rewrite Hst; reflexivity|].
      split; [exact Hs|exact Hf].
Defined.

(** The composite of both channels of the time series [cells]: the three
    temporaries are released. *)
Lemma merger_success_releases_temporaries_witness :
  exists w' merged,
    createMergeOnly true (extracted true [true; true; false; false] [])
    = (Ok (Ref 7), w') /\
    heap (host w') !! 7 = Some merged /\
    bitDepth merged = 24%Z /\ visible merged = true /\ nFrames merged = 3 /\
    title merged = "Merged_TimeStack_CTempForMerge_1" /\
    mergeCount (globals w') = 2 /\
    forall i, 4 <= i < 7 -> exists tmp, heap (host w') !! i = Some tmp /\ released tmp.
Proof.
  destruct (merger_success_releases_temporaries true
              (extracted true [true; true; false; false] []) 0 cells)
    as (w' & merged & E & _ & _ & Hrel & Hm & Hd & _ & Hv & _ & _ & _ & _ & Hf & Ht
        & _ & Hcount & _).
  - vm_compute. reflexivity.
  - vm_compute. reflexivity.
  - vm_compute. lia.
  - exists w', merged. split; [exact E|]. split; [exact Hm|]. split; [exact Hd|].
    split; [exact Hv|]. split; [exact Hf|]. split; [apply Ht; reflexivity|].
    split; [|exact Hrel].
    apply Hcount. vm_compute. reflexivity.
Defined.

(** The first channel and the composite of the current frame of [cells]. *)
Lemma align_single_frame_as_version_1_witness :
  alignSelectedImages
    (extracted false [true; true; false; false] ["Ch1"; "Merge"; "None"; "Ch3"; "None"])
  = Mittens1.alignSelectedImages
      (extracted false [true; true; false; false] ["Ch1"; "Merge"; "None"; "Ch3"; "None"]).
Proof.
  apply (align_single_frame_as_version_1
           (extracted false [true; true; false; false]
              ["Ch1"; "Merge"; "None"; "Ch3"; "None"])).
  - reflexivity.
  - intros j c Hj.
    assert (Ha : splitInvertedChannels
                   (globals (extracted false [true; true; false; false]
                               ["Ch1"; "Merge"; "None"; "Ch3"; "None"]))
                 = [Ref 2; Ref 3; Null; Null]) by (vm_compute; reflexivity).
    rewrite Ha in Hj.
    destruct j as [|[|[|[|j]]]]; try discriminate; injection Hj as <-;
      (eexists; split; [vm_compute; reflexivity|]); simpl; lia.
Defined.

(** [cells] with the time-frames checkbox not set. *)
Lemma extractor_entries_single_witness :
  exists w',
    duplicateSplitInvert (session false [] []) = (Ok tt, w') /\
    ui w' = ui (session false [] []) /\ entriesSingle w'.
Proof.
  apply (extractor_entries_single (session false [] []) 0 cells); reflexivity.
Defined.

Lemma clean_up_releases_extraction_witness :
  exists w1 w2,
    duplicateSplitInvert (session true [] []) = (Ok tt, w1) /\
    closeAllExceptOriginal w1 = (Ok tt, w2) /\
    heap (host w2) !! 0 = Some cells /\
    (exists tmp, heap (host w2) !! 2 = Some tmp /\ released tmp) /\
    splitInvertedChannels (globals w2) !! 0 = Some (Ref 2).
Proof.
  destruct (clean_up_releases_extraction (session true [] []) 0 cells)
    as (w1 & w2 & E1 & E2 & _ & Hkeep & Hrel & _ & _ & Hrefs).
  - reflexivity.
  - reflexivity.
  - reflexivity.
  - reflexivity.
  - reflexivity.
  - exists w1, w2. split; [exact E1|]. split; [exact E2|]. split; [exact Hkeep|].
    split.
    + apply Hrel. vm_compute. lia.
    + apply (Hrefs 0). vm_compute. lia.
Defined.
